(** * libyaml reader: raw buffer, encoding detection and character decoding

    A shallow embedding of [src/reader.c]: the three functions
    [yaml_parser_determine_encoding], [yaml_parser_update_raw_buffer] and
    [yaml_parser_update_buffer], over an explicit parser state.

    Conventions.
    - A byte ([unsigned char]) and a character value ([unsigned int]) are
      integers of [Z]; the bit operations of the source are [Z.land],
      [Z.shiftl] and [Z.shiftr].  A store into an [unsigned char] cell keeps
      the low eight bits.
    - The [size_t] counters (pointer, length, capacity, unread, offset) are
      [nat].  Lemma [update_buffer_wf] shows [pointer <= length] on both
      buffers at every state reached through calls that return 1, so no
      subtraction of the source is taken below zero there.  The source
      does not test the capacity of the text buffer: a store past it is
      the outcome [Undefined], and no such call is part of these states.
    - A buffer is the whole array (a list of [capacity] cells) with its two
      cursors: bytes outside [pointer, length) stay in the array, as in C.
    - A C function returning [int] and mutating [*parser] becomes a function
      from the state to an [outcome] carrying the new state.
    - The two [while] loops whose ends depend on the byte source take a fuel. *)

From Stdlib Require Import ZArith List Bool Arith Lia String.
Import ListNotations.

Set Implicit Arguments.

(** ** Data model *)

Inductive yaml_encoding_t : Type :=
  | YAML_ANY_ENCODING
  | YAML_UTF8_ENCODING
  | YAML_UTF16LE_ENCODING
  | YAML_UTF16BE_ENCODING.

Inductive yaml_error_type_t : Type :=
  | YAML_NO_ERROR
  | YAML_READER_ERROR
  | YAML_DECODER_ERROR.

(** One buffer of the parser: [raw_input] and [input] share this shape. *)
Module Buf.

Record t : Type := mk {
  buffer : list Z;
  pointer : nat;
  length : nat;
  capacity : nat
}.

Definition set_buffer (b : t) (l : list Z) : t :=
  mk l (pointer b) (length b) (capacity b).

Definition set_pointer (b : t) (n : nat) : t :=
  mk (buffer b) n (length b) (capacity b).

Definition set_length (b : t) (n : nat) : t :=
  mk (buffer b) (pointer b) n (capacity b).

(** The region [pointer, length) of the array. *)
Definition unconsumed (b : t) : list Z :=
  firstn (length b - pointer b) (skipn (pointer b) (buffer b)).

(** The region [0, length) of the array. *)
Definition valid (b : t) : list Z := firstn (length b) (buffer b).

(** The cursors are ordered and inside the array. *)
Definition wf (b : t) : Prop :=
  pointer b <= length b /\ length b <= capacity b
  /\ List.length (buffer b) = capacity b.

End Buf.

Section Reader.

(** The state of the byte source and the read handler.  [reader d size]
    is one call [parser->reader(parser->reader_data, dst, size, &length)]:
    [None] when the handler returns 0, otherwise the bytes it stored at
    [dst] (their number is the [length] it reports) and its next state. *)
Variable R : Type.
Variable reader : R -> nat -> option (list Z * R).

Record yaml_parser_t : Type := mk_parser {
  reader_data : R;
  raw_input : Buf.t;
  input : Buf.t;
  unread : nat;
  encoding : yaml_encoding_t;
  offset : nat;
  is_eof : bool;
  error : yaml_error_type_t;
  problem : string;
  problem_offset : nat;
  problem_value : Z
}.

Definition set_reader_data (p : yaml_parser_t) (d : R) : yaml_parser_t :=
  mk_parser d (raw_input p) (input p) (unread p) (encoding p) (offset p)
    (is_eof p) (error p) (problem p) (problem_offset p) (problem_value p).
Definition set_raw_input (p : yaml_parser_t) (b : Buf.t) : yaml_parser_t :=
  mk_parser (reader_data p) b (input p) (unread p) (encoding p) (offset p)
    (is_eof p) (error p) (problem p) (problem_offset p) (problem_value p).
Definition set_input (p : yaml_parser_t) (b : Buf.t) : yaml_parser_t :=
  mk_parser (reader_data p) (raw_input p) b (unread p) (encoding p) (offset p)
    (is_eof p) (error p) (problem p) (problem_offset p) (problem_value p).
Definition set_unread (p : yaml_parser_t) (n : nat) : yaml_parser_t :=
  mk_parser (reader_data p) (raw_input p) (input p) n (encoding p) (offset p)
    (is_eof p) (error p) (problem p) (problem_offset p) (problem_value p).
Definition set_encoding (p : yaml_parser_t) (e : yaml_encoding_t)
  : yaml_parser_t :=
  mk_parser (reader_data p) (raw_input p) (input p) (unread p) e (offset p)
    (is_eof p) (error p) (problem p) (problem_offset p) (problem_value p).
Definition set_offset (p : yaml_parser_t) (n : nat) : yaml_parser_t :=
  mk_parser (reader_data p) (raw_input p) (input p) (unread p) (encoding p) n
    (is_eof p) (error p) (problem p) (problem_offset p) (problem_value p).
Definition set_is_eof (p : yaml_parser_t) (b : bool) : yaml_parser_t :=
  mk_parser (reader_data p) (raw_input p) (input p) (unread p) (encoding p)
    (offset p) b (error p) (problem p) (problem_offset p) (problem_value p).

(** Modelled from the spec: the macros [READER_ERROR_INIT] and
    [DECODER_ERROR_INIT] of [yaml_private.h] are not part of the sources at
    hand.  Following the error report shape of the specification (kind,
    message, offset, optional value) they record the report in the parser and
    touch nothing else; the enclosing [return] then yields 0.  A reader
    error carries no value, written -1 as the decoder does for "none". *)
Definition DECODER_ERROR_INIT (p : yaml_parser_t) (msg : string) (off : nat)
    (value : Z) : yaml_parser_t :=
  mk_parser (reader_data p) (raw_input p) (input p) (unread p) (encoding p)
    (offset p) (is_eof p) YAML_DECODER_ERROR msg off value.
Definition READER_ERROR_INIT (p : yaml_parser_t) (msg : string) (off : nat)
  : yaml_parser_t :=
  mk_parser (reader_data p) (raw_input p) (input p) (unread p) (encoding p)
    (offset p) (is_eof p) YAML_READER_ERROR msg off (-1).

(** What a call leaves behind. *)
Inductive outcome : Type :=
  | Ok (p : yaml_parser_t)        (* return 1 *)
  | Fail (p : yaml_parser_t)      (* return 0, the report is in [p] *)
  | Undefined                     (* a store outside an array *)
  | Timeout.                      (* the fuel ran out *)

(** ** Array primitives *)

(** [memcpy]-like store of [bs] at [off]. *)
Definition write_at (l : list Z) (off : nat) (bs : list Z) : list Z :=
  firstn off l ++ bs ++ skipn (off + List.length bs) l.

(** [memmove(l + dst, l + src, n)]. *)
Definition memmove (l : list Z) (dst src n : nat) : list Z :=
  write_at l dst (firstn n (skipn src l)).

(** ** [yaml_parser_update_raw_buffer] *)

Definition yaml_parser_update_raw_buffer (p : yaml_parser_t) : outcome :=
  let raw := raw_input p in
  (* Return if the raw buffer is full. *)
  if (Buf.pointer raw =? 0) && (Buf.length raw =? Buf.capacity raw) then Ok p
  (* Return on EOF. *)
  else if is_eof p then Ok p
  else
    (* Move the remaining bytes in the raw buffer to the beginning. *)
    let raw :=
      if (0 <? Buf.pointer raw) && (Buf.pointer raw <? Buf.length raw)
      then Buf.set_buffer raw
             (memmove (Buf.buffer raw) 0 (Buf.pointer raw)
                (Buf.length raw - Buf.pointer raw))
      else raw in
    let raw := Buf.set_pointer raw 0 in
    let p := set_raw_input p raw in
    (* Call the read handler to fill the buffer. *)
    let size := Buf.capacity raw - Buf.length raw in
    match reader (reader_data p) size with
    | None => Fail (READER_ERROR_INIT p "Input error" (offset p))
    | Some (bs, d) =>
        (* a handler that stores more than [size] bytes writes past the
           array *)
        if size <? List.length bs then Undefined
        else
          let raw := Buf.set_buffer raw
                       (write_at (Buf.buffer raw) (Buf.length raw) bs) in
          let raw := Buf.set_length raw (Buf.length raw + List.length bs) in
          let p := set_raw_input (set_reader_data p d) raw in
          let p := if List.length bs =? 0 then set_is_eof p true else p in
          Ok p
    end.

(** ** [yaml_parser_determine_encoding] *)

Definition BOM_UTF8 : list Z := [0xef; 0xbb; 0xbf]%Z.
Definition BOM_UTF16LE : list Z := [0xff; 0xfe]%Z.
Definition BOM_UTF16BE : list Z := [0xfe; 0xff]%Z.

(** [!memcmp(a, b, n)]. *)
Definition memcmp_eq (a b : list Z) (n : nat) : bool :=
  if list_eq_dec Z.eq_dec (firstn n a) (firstn n b) then true else false.

(** The loop "Ensure that we had enough bytes in the raw buffer". *)
Fixpoint determine_encoding_fill (fuel : nat) (p : yaml_parser_t) : outcome :=
  if negb (is_eof p) && (Buf.length (raw_input p) <? 3) then
    match fuel with
    | O => Timeout
    | S fuel' =>
        match yaml_parser_update_raw_buffer p with
        | Ok p' => determine_encoding_fill fuel' p'
        | o => o
        end
    end
  else Ok p.

(** The [if] cascade "Determine the encoding". *)
Definition determine_encoding_select (p : yaml_parser_t) : yaml_parser_t :=
  let raw := raw_input p in
  if (2 <=? Buf.length raw) && memcmp_eq (Buf.buffer raw) BOM_UTF16LE 2 then
    set_offset
      (set_raw_input (set_encoding p YAML_UTF16LE_ENCODING)
         (Buf.set_pointer raw 2)) 2
  else if (2 <=? Buf.length raw) && memcmp_eq (Buf.buffer raw) BOM_UTF16BE 2
  then
    set_offset
      (set_raw_input (set_encoding p YAML_UTF16BE_ENCODING)
         (Buf.set_pointer raw 2)) 2
  else if (3 <=? Buf.length raw) && memcmp_eq (Buf.buffer raw) BOM_UTF8 3 then
    set_offset
      (set_raw_input (set_encoding p YAML_UTF8_ENCODING)
         (Buf.set_pointer raw 3)) 3
  else set_encoding p YAML_UTF8_ENCODING.

Definition yaml_parser_determine_encoding (fuel : nat) (p : yaml_parser_t)
  : outcome :=
  match determine_encoding_fill fuel p with
  | Ok p' => Ok (determine_encoding_select p')
  | o => o
  end.

(** ** Decoding one character (the [switch] of [yaml_parser_update_buffer]) *)

(** What the [switch] leaves: a value and a width, [is_incomplete = 1], or a
    [return DECODER_ERROR_INIT(parser, msg, off, value)]. *)
Inductive decode_outcome : Type :=
  | Decoded (value : Z) (width : nat)
  | Incomplete
  | Invalid (msg : string) (off : nat) (value : Z).

Open Scope Z_scope.

(** "Determine the length of the UTF-8 sequence." *)
Definition utf8_width (octet : Z) : nat :=
  if Z.land octet 0x80 =? 0x00 then 1%nat
  else if Z.land octet 0xE0 =? 0xC0 then 2%nat
  else if Z.land octet 0xF0 =? 0xE0 then 3%nat
  else if Z.land octet 0xF8 =? 0xF0 then 4%nat
  else 0%nat.

(** "Decode the leading octet." *)
Definition utf8_leading (octet : Z) : Z :=
  if Z.land octet 0x80 =? 0x00 then Z.land octet 0x7F
  else if Z.land octet 0xE0 =? 0xC0 then Z.land octet 0x1F
  else if Z.land octet 0xF0 =? 0xE0 then Z.land octet 0x0F
  else if Z.land octet 0xF8 =? 0xF0 then Z.land octet 0x07
  else 0.

(** "Check and decode the trailing octets": the [for] loop from [k] with
    [todo] rounds left; [inr (k, octet)] is the early [return]. *)
Fixpoint utf8_trailing (raw : nat -> Z) (todo k : nat) (value : Z)
  : Z + nat * Z :=
  match todo with
  | O => inl value
  | S todo' =>
      let octet := raw k in
      if negb (Z.land octet 0xC0 =? 0x80) then inr (k, octet)
      else utf8_trailing raw todo' (S k)
             (Z.shiftl value 6 + Z.land octet 0x3F)
  end.

(** [case YAML_UTF8_ENCODING].  [raw k] is [raw_buffer[k]]. *)
Definition decode_utf8 (raw : nat -> Z) (raw_unread : nat) (eof : bool)
    (off : nat) : decode_outcome :=
  let octet := raw 0%nat in
  let width := utf8_width octet in
  if (width =? 0)%nat then Invalid "Invalid leading UTF-8 octet" off octet
  else if (raw_unread <? width)%nat then
    if eof then Invalid "Incomplete UTF-8 octet sequence" off (-1)
    else Incomplete
  else
    match utf8_trailing raw (width - 1) 1 (utf8_leading octet) with
    | inr (k, octet) => Invalid "Invalid trailing UTF-8 octet" (off + k) octet
    | inl value =>
        if negb ((width =? 1)%nat
                 || ((width =? 2)%nat && (0x80 <=? value))
                 || ((width =? 3)%nat && (0x800 <=? value))
                 || ((width =? 4)%nat && (0x10000 <=? value)))
        then Invalid "Invalid length of a UTF-8 sequence" off (-1)
        else if ((0xD800 <=? value) && (value <=? 0xDFFF))
                || (0x10FFFF <? value)
        then Invalid "Invalid Unicode character" off value
        else Decoded value width
    end.

(** [case YAML_UTF16LE_ENCODING: case YAML_UTF16BE_ENCODING:]. *)
Definition decode_utf16 (le : bool) (raw : nat -> Z) (raw_unread : nat)
    (eof : bool) (off : nat) : decode_outcome :=
  let low := if le then 0%nat else 1%nat in
  let high := if le then 1%nat else 0%nat in
  if (raw_unread <? 2)%nat then
    if eof then Invalid "Incomplete UTF-16 character" off (-1)
    else Incomplete
  else
    let value := raw low + Z.shiftl (raw high) 8 in
    if Z.land value 0xFC00 =? 0xDC00 then
      Invalid "Unexpected low surrogate area" off value
    else if Z.land value 0xFC00 =? 0xD800 then
      if (raw_unread <? 4)%nat then
        if eof then Invalid "Incomplete UTF-16 surrogate pair" off (-1)
        else Incomplete
      else
        let value2 := raw (low + 2)%nat + Z.shiftl (raw (high + 2)%nat) 8 in
        if negb (Z.land value2 0xFC00 =? 0xDC00) then
          Invalid "Expected low surrogate area" (off + 2) value2
        else
          Decoded (0x10000 + Z.shiftl (Z.land value 0x3FF) 10
                   + Z.land value2 0x3FF) 4
    else Decoded value 2.

(** [raw_buffer[k]] for [raw_buffer = raw_input.buffer + raw_input.pointer]. *)
Definition raw_at (p : yaml_parser_t) (k : nat) : Z :=
  nth (Buf.pointer (raw_input p) + k) (Buf.buffer (raw_input p)) 0.

Definition raw_unread (p : yaml_parser_t) : nat :=
  (Buf.length (raw_input p) - Buf.pointer (raw_input p))%nat.

(** The whole [switch (parser->encoding)]; in the [default] case the locals
    keep their initial values [value = 0], [width = 0]. *)
Definition decode_char (p : yaml_parser_t) : decode_outcome :=
  match encoding p with
  | YAML_UTF8_ENCODING =>
      decode_utf8 (raw_at p) (raw_unread p) (is_eof p) (offset p)
  | YAML_UTF16LE_ENCODING =>
      decode_utf16 true (raw_at p) (raw_unread p) (is_eof p) (offset p)
  | YAML_UTF16BE_ENCODING =>
      decode_utf16 false (raw_at p) (raw_unread p) (is_eof p) (offset p)
  | YAML_ANY_ENCODING => Decoded 0 0
  end.

(** "Check if the character is in the allowed range". *)
Definition allowed (value : Z) : bool :=
  (value =? 0x09) || (value =? 0x0A) || (value =? 0x0D)
  || ((0x20 <=? value) && (value <=? 0x7E))
  || (value =? 0x85) || ((0xA0 <=? value) && (value <=? 0xD7FF))
  || ((0xE000 <=? value) && (value <=? 0xFFFD))
  || ((0x10000 <=? value) && (value <=? 0x10FFFF)).

(** [b->buffer[b->length++] = v]: the cell keeps the low eight bits of [v];
    the source does not test the capacity, a store past it is undefined. *)
Definition put (b : Buf.t) (v : Z) : option Buf.t :=
  if (Buf.length b <? Buf.capacity b)%nat then
    Some (Buf.mk (write_at (Buf.buffer b) (Buf.length b) [v mod 256])
            (Buf.pointer b) (S (Buf.length b)) (Buf.capacity b))
  else None.

Definition and_then (o : option Buf.t) (f : Buf.t -> option Buf.t)
  : option Buf.t :=
  match o with Some b => f b | None => None end.

(** "Finally put the character into the buffer." *)
Definition put_char (b : Buf.t) (value : Z) : option Buf.t :=
  if value <=? 0x7F then put b value
  else if value <=? 0x7FF then
    and_then (put b (0xC0 + Z.shiftr value 6)) (fun b =>
    put b (0x80 + Z.land value 0x3F))
  else if value <=? 0xFFFF then
    and_then (put b (0xE0 + Z.shiftr value 12)) (fun b =>
    and_then (put b (0x80 + Z.land (Z.shiftr value 6) 0x3F)) (fun b =>
    put b (0x80 + Z.land value 0x3F)))
  else
    and_then (put b (0xF0 + Z.shiftr value 18)) (fun b =>
    and_then (put b (0x80 + Z.land (Z.shiftr value 12) 0x3F)) (fun b =>
    and_then (put b (0x80 + Z.land (Z.shiftr value 6) 0x3F)) (fun b =>
    put b (0x80 + Z.land value 0x3F)))).

Close Scope Z_scope.

(** How one round of the inner [while] ends. *)
Inductive round : Type :=
  | Continue (p : yaml_parser_t)   (* the character went to the buffer *)
  | Break (p : yaml_parser_t)      (* [if (is_incomplete) break;] *)
  | Return0 (p : yaml_parser_t)    (* [return DECODER_ERROR_INIT(...)] *)
  | Overflow.                      (* a store past the text buffer *)

(** The body of the inner [while]. *)
Definition decode_round (p : yaml_parser_t) : round :=
  match decode_char p with
  | Invalid msg off value => Return0 (DECODER_ERROR_INIT p msg off value)
  | Incomplete => Break p
  | Decoded value width =>
      if negb (allowed value) then
        Return0 (DECODER_ERROR_INIT p "Control characters are not allowed"
                   (offset p) value)
      else
        (* Move the raw pointers. *)
        let raw := raw_input p in
        let p := set_raw_input p
                   (Buf.set_pointer raw (Buf.pointer raw + width)) in
        let p := set_offset p (offset p + width) in
        match put_char (input p) value with
        | None => Overflow
        | Some b => Continue (set_unread (set_input p b) (S (unread p)))
        end
  end.

(** "Decode the raw buffer": [while (raw_input.pointer != raw_input.length)]. *)
Fixpoint decode_raw_buffer (fuel : nat) (p : yaml_parser_t) : outcome :=
  if Buf.pointer (raw_input p) =? Buf.length (raw_input p) then Ok p
  else
    match fuel with
    | O => Timeout
    | S fuel' =>
        match decode_round p with
        | Continue p' => decode_raw_buffer fuel' p'
        | Break p' => Ok p'
        | Return0 p' => Fail p'
        | Overflow => Undefined
        end
    end.

(** "On EOF, put NUL into the buffer and return." *)
Definition put_nul (p : yaml_parser_t) : outcome :=
  match put (input p) 0%Z with
  | None => Undefined
  | Some b => Ok (set_unread (set_input p b) (S (unread p)))
  end.

(** "Fill the buffer until it has enough characters":
    [while (parser->unread < length)]. *)
Fixpoint fill_buffer (fuel : nat) (len : nat) (p : yaml_parser_t) : outcome :=
  if len <=? unread p then Ok p
  else
    match fuel with
    | O => Timeout
    | S fuel' =>
        match yaml_parser_update_raw_buffer p with
        | Ok p1 =>
            match decode_raw_buffer fuel p1 with
            | Ok p2 => if is_eof p2 then put_nul p2
                       else fill_buffer fuel' len p2
            | o => o
            end
        | o => o
        end
    end.

(** "Move the unread characters to the beginning of the buffer." *)
Definition move_unread (p : yaml_parser_t) : yaml_parser_t :=
  let b := input p in
  if (0 <? Buf.pointer b) && (Buf.pointer b <? Buf.length b) then
    set_input p
      (Buf.mk (memmove (Buf.buffer b) 0 (Buf.pointer b)
                 (Buf.length b - Buf.pointer b))
         0 (Buf.length b - Buf.pointer b) (Buf.capacity b))
  else if Buf.pointer b =? Buf.length b then
    set_input p (Buf.mk (Buf.buffer b) 0 0 (Buf.capacity b))
  else p.

(** ** [yaml_parser_update_buffer] *)

Definition yaml_parser_update_buffer (fuel : nat) (len : nat)
    (p : yaml_parser_t) : outcome :=
  (* If the EOF flag is set and the raw buffer is empty, do nothing. *)
  if is_eof p && (Buf.pointer (raw_input p) =? Buf.length (raw_input p))
  then Ok p
  (* Return if the buffer contains enough characters. *)
  else if len <=? unread p then Ok p
  else
    (* Determine the input encoding if it is not known yet. *)
    let detected :=
      match encoding p with
      | YAML_ANY_ENCODING => yaml_parser_determine_encoding fuel p
      | _ => Ok p
      end in
    match detected with
    | Ok p' => fill_buffer fuel len (move_unread p')
    | o => o
    end.

(** ** The parser's surroundings *)

(** Modelled from the spec: the constructor of the parser ([api.c]) is not
    part of the sources at hand.  "Context is created with a caller-supplied
    byte source and empty buffers": both arrays are allocated with their
    capacity, every cursor and counter is 0, the encoding is not known, the
    EOF flag is clear and no error is recorded. *)
Definition yaml_parser_new (d : R) (raw_capacity capacity : nat)
  : yaml_parser_t :=
  mk_parser d
    (Buf.mk (repeat 0%Z raw_capacity) 0 0 raw_capacity)
    (Buf.mk (repeat 0%Z capacity) 0 0 capacity)
    0 YAML_ANY_ENCODING 0 false YAML_NO_ERROR EmptyString 0 0%Z.

(** Modelled from the spec: the scanner that consumes the decoded text is
    not part of the sources at hand.  "Callers only ever read a read-only
    view of TextOutputBuffer's unread region": a read moves [input.pointer]
    forward inside [pointer, length), lowers [unread], and touches nothing
    else. *)
Inductive reads : yaml_parser_t -> yaml_parser_t -> Prop :=
  | reads_intro : forall p ptr n,
      Buf.pointer (input p) <= ptr -> ptr <= Buf.length (input p) ->
      n <= unread p ->
      reads p (set_unread (set_input p (Buf.set_pointer (input p) ptr)) n).

(** The states of one stream context: it is created, and from then on the
    caller asks for characters (calls that return 1) and reads them. *)
Inductive lifetime : yaml_parser_t -> Prop :=
  | lifetime_new : forall d raw_capacity capacity,
      lifetime (yaml_parser_new d raw_capacity capacity)
  | lifetime_update : forall p fuel len p',
      lifetime p -> yaml_parser_update_buffer fuel len p = Ok p' ->
      lifetime p'
  | lifetime_reads : forall p p',
      lifetime p -> reads p p' -> lifetime p'.

(** The bytes the source hands over in a run of calls of the read handler,
    from its state [d] to its state [d']. *)
Inductive pulled : R -> list Z -> R -> Prop :=
  | pulled_none : forall d, pulled d [] d
  | pulled_more : forall d size bs d' bs' d'',
      reader d size = Some (bs, d') -> pulled d' bs' d'' ->
      pulled d (bs ++ bs') d''.

(** [l] starts with the octets [pre]. *)
Definition starts_with (pre l : list Z) : Prop := exists rest, l = pre ++ rest.

(** The stream is over: EOF was seen and the raw buffer is drained. *)
Definition finished (p : yaml_parser_t) : Prop :=
  is_eof p = true /\ Buf.pointer (raw_input p) = Buf.length (raw_input p).

(** The NUL characters in the text written so far, [input.buffer[0, length)]. *)
Definition sentinels (p : yaml_parser_t) : nat :=
  count_occ Z.eq_dec (Buf.valid (input p)) 0%Z.

(** What every state of a stream context satisfies: the cursors of both
    buffers are in order; before EOF the text holds no NUL; once EOF is
    seen the stream is over and the text ends with its only NUL. *)
Definition context_inv (p : yaml_parser_t) : Prop :=
  Buf.wf (raw_input p) /\ Buf.wf (input p)
  /\ (is_eof p = false -> ~ In 0%Z (Buf.valid (input p)))
  /\ (is_eof p = true ->
      finished p
      /\ exists text, Buf.valid (input p) = text ++ [0%Z] /\ ~ In 0%Z text).

(** Modelled from the spec: one read of the consumer, which is not part of
    the sources at hand.  It takes the character at [input.pointer] (its
    octets, their number read off the leading one), moves the pointer past
    it and lowers [unread] by one. *)
Definition read_char (p : yaml_parser_t) : list Z * yaml_parser_t :=
  let b := input p in
  let width := utf8_width (nth (Buf.pointer b) (Buf.buffer b) 0%Z) in
  (firstn width (skipn (Buf.pointer b) (Buf.buffer b)),
   set_unread (set_input p (Buf.set_pointer b (Buf.pointer b + width)))
     (unread p - 1)).

(** Modelled from the spec ("repeated ensure(1) calls"): the consumer's
    loop.  Ask for one character, read it, and go on until the
    NUL character was read, a call returned 0, or [calls] calls were made.
    The result is the characters read, in order, and how the last call
    ended. *)
Fixpoint read_stream (calls fuel : nat) (p : yaml_parser_t)
  : list (list Z) * outcome :=
  match calls with
  | O => ([], Ok p)
  | S calls' =>
      match yaml_parser_update_buffer fuel 1 p with
      | Ok p1 =>
          if unread p1 =? 0 then ([], Ok p1)
          else
            let (ch, p2) := read_char p1 in
            if list_eq_dec Z.eq_dec ch [0%Z] then ([ch], Ok p2)
            else
              let (rest, o) := read_stream calls' fuel p2 in
              (ch :: rest, o)
      | o => ([], o)
      end
  end.

End Reader.

Arguments Undefined {R}.
Arguments Timeout {R}.
Arguments Overflow {R}.

(** ** The properties in the words of the specification *)

Open Scope Z_scope.

(** The admissible characters:
    {0x09, 0x0A, 0x0D} U [0x20,0x7E] U {0x85} U [0xA0,0xD7FF]
    U [0xE000,0xFFFD] U [0x10000,0x10FFFF]. *)
Definition admissible (v : Z) : Prop :=
  v = 0x09 \/ v = 0x0A \/ v = 0x0D \/ 0x20 <= v <= 0x7E \/ v = 0x85
  \/ 0xA0 <= v <= 0xD7FF \/ 0xE000 <= v <= 0xFFFD
  \/ 0x10000 <= v <= 0x10FFFF.

(** The value a UTF-8 sequence of [width] octets stands for: the low bits
    of the leading octet, then the low six bits of each trailing octet. *)
Definition utf8_scalar (raw : nat -> Z) (width : nat) : Z :=
  match width with
  | 1%nat => raw 0%nat mod 128
  | 2%nat => (raw 0%nat mod 32) * 64 + raw 1%nat mod 64
  | 3%nat => (raw 0%nat mod 16) * 4096 + (raw 1%nat mod 64) * 64
             + raw 2%nat mod 64
  | 4%nat => (raw 0%nat mod 8) * 262144 + (raw 1%nat mod 64) * 4096
             + (raw 2%nat mod 64) * 64 + raw 3%nat mod 64
  | _ => 0
  end.

(** The width a leading octet announces: [0xxxxxxx] 1, [110xxxxx] 2,
    [1110xxxx] 3, [11110xxx] 4, and none (0) for any other pattern. *)
Definition utf8_lead_width (b : Z) : nat :=
  if b / 128 =? 0 then 1%nat
  else if b / 32 =? 6 then 2%nat
  else if b / 16 =? 14 then 3%nat
  else if b / 8 =? 30 then 4%nat
  else 0%nat.

(** A trailing octet has the pattern [10xxxxxx]. *)
Definition utf8_trail (b : Z) : Prop := b / 64 = 2.

(** The cells of an array of [unsigned char]. *)
Definition octets (l : list Z) : Prop := Forall (fun b => 0 <= b < 256) l.

(** A sequence longer than its value needs. *)
Definition overlong (width : nat) (v : Z) : Prop :=
  (width = 2%nat /\ v < 0x80) \/ (width = 3%nat /\ v < 0x800)
  \/ (width = 4%nat /\ v < 0x10000).

(** The UTF-8 octets of a character, with the usual packing. *)
Definition utf8_octets (v : Z) : list Z :=
  if v <=? 0x7F then [v]
  else if v <=? 0x7FF then [0xC0 + v / 64; 0x80 + v mod 64]
  else if v <=? 0xFFFF then
    [0xE0 + v / 4096; 0x80 + (v / 64) mod 64; 0x80 + v mod 64]
  else
    [0xF0 + v / 262144; 0x80 + (v / 4096) mod 64; 0x80 + (v / 64) mod 64;
     0x80 + v mod 64].

(** The 16-bit unit at octet [k] of the raw buffer, in the byte order. *)
Definition utf16_unit (le : bool) (raw : nat -> Z) (k : nat) : Z :=
  if le then raw k + 256 * raw (S k) else 256 * raw k + raw (S k).

(** The raw buffer holds fewer octets than the character at its pointer
    requires: fewer than the width the leading octet announces (UTF-8);
    fewer than the two of a unit, or fewer than the four of a pair whose
    first unit is a high surrogate (UTF-16). *)
Definition falls_short (R : Type) (p : yaml_parser_t R) : Prop :=
  match encoding p with
  | YAML_UTF8_ENCODING =>
      utf8_lead_width (raw_at p 0) <> 0%nat
      /\ (raw_unread p < utf8_lead_width (raw_at p 0))%nat
  | YAML_UTF16LE_ENCODING =>
      (raw_unread p < 2)%nat
      \/ ((raw_unread p < 4)%nat
          /\ 0xD800 <= utf16_unit true (raw_at p) 0 <= 0xDBFF)
  | YAML_UTF16BE_ENCODING =>
      (raw_unread p < 2)%nat
      \/ ((raw_unread p < 4)%nat
          /\ 0xD800 <= utf16_unit false (raw_at p) 0 <= 0xDBFF)
  | YAML_ANY_ENCODING => False
  end.

(** The three reports of a character cut short by the end of the stream. *)
Definition incomplete_reports : list string :=
  ["Incomplete UTF-8 octet sequence"%string;
   "Incomplete UTF-16 character"%string;
   "Incomplete UTF-16 surrogate pair"%string].

Close Scope Z_scope.

(** ** Byte sources and states used in the examples *)

(** A read handler over an in-memory input that hands out at most [chunk]
    bytes a call (and never more than asked): its state is the input still
    to come.  It never fails and reports 0 bytes once the input is used up. *)
Definition chunk_reader (chunk : nat) (d : list Z) (size : nat)
  : option (list Z * list Z) :=
  Some (firstn (Nat.min chunk size) d, skipn (Nat.min chunk size) d).

(** A parser in the middle of a stream of encoding [enc]: [raw] is the
    content of the raw buffer (capacity 8) with [ptr] octets consumed, the
    text buffer (capacity 8) is empty, [rest] is still with the source. *)
Definition parser_at (enc : yaml_encoding_t) (raw : list Z) (ptr : nat)
    (eof : bool) (rest : list Z) : yaml_parser_t (list Z) :=
  mk_parser rest
    (Buf.mk (raw ++ repeat 0%Z (8 - List.length raw)) ptr (List.length raw) 8)
    (Buf.mk (repeat 0%Z 8) 0 0 8)
    0 enc ptr eof YAML_NO_ERROR EmptyString 0 0%Z.


(** ** Further notions for the properties of whole calls *)

(** The error report of the parser is the same in [p] and [p']. *)
Definition same_report (R : Type) (p p' : yaml_parser_t R) : Prop :=
  error p' = error p /\ problem p' = problem p
  /\ problem_offset p' = problem_offset p
  /\ problem_value p' = problem_value p.

(** The report a call that returns 0 leaves in [q]: a reader error, "Input
    error" at the current offset and without a value, or a decoder error at
    an offset inside the character at the current offset. *)
Definition reported (R : Type) (q : yaml_parser_t R) : Prop :=
  (error q = YAML_READER_ERROR /\ problem q = "Input error"%string
   /\ problem_offset q = offset q /\ problem_value q = (-1)%Z)
  \/ (error q = YAML_DECODER_ERROR
      /\ offset q <= problem_offset q <= offset q + 3).

(** Once EOF is seen in [p], it is still seen in [p'] and the source was
    not called in between. *)
Definition sticky_eof (R : Type) (p p' : yaml_parser_t R) : Prop :=
  is_eof p = true -> is_eof p' = true /\ reader_data p' = reader_data p.

(** A property of the state a call leaves, by the way it returns: [P] when
    it returns 1, [Q] when it returns 0. *)
Definition ends (R : Type) (P Q : yaml_parser_t R -> Prop) (o : outcome R)
  : Prop :=
  match o with
  | Ok p' => P p'
  | Fail q => Q q
  | Undefined => True
  | Timeout => True
  end.

(** A Unicode scalar value: up to 0x10FFFF and no surrogate. *)
Definition scalar_value (v : Z) : Prop :=
  (0 <= v <= 0x10FFFF)%Z /\ ~ (0xD800 <= v <= 0xDFFF)%Z.

(** The octets of the UTF-16 form of a scalar value in the byte order [le],
    by the formulas quoted in the source (RFC 2781): one unit for a value
    up to 0xFFFF; above, with U' = U - 0x10000 = yyyyyyyyyyxxxxxxxxxx, the
    units W1 = 110110yyyyyyyyyy and W2 = 110111xxxxxxxxxx. *)
Definition utf16_unit_octets (le : bool) (u : Z) : list Z :=
  if le then [u mod 256; u / 256]%Z else [u / 256; u mod 256]%Z.

Definition utf16_octets (le : bool) (v : Z) : list Z :=
  if (v <? 0x10000)%Z then utf16_unit_octets le v
  else
    utf16_unit_octets le (0xD800 + (v - 0x10000) / 1024)%Z
    ++ utf16_unit_octets le (0xDC00 + (v - 0x10000) mod 1024)%Z.

(** The octets [k], [k+1], ... of a list, as the decoder reads them. *)
Definition octet_at (l : list Z) (k : nat) : Z := nth k l 0%Z.

(** A text of admissible ASCII characters. *)
Definition ascii_text (l : list Z) : Prop :=
  Forall (fun b => admissible b /\ (b <= 0x7F)%Z) l.

(** The first [w] octets of the unconsumed region of the raw buffer. *)
Definition consumed_octets (R : Type) (p : yaml_parser_t R) (w : nat)
  : list Z :=
  firstn w (Buf.unconsumed (raw_input p)).

(** The octets of a scalar value in the encoding of a stream. *)
Definition encoded_octets (e : yaml_encoding_t) (v : Z) : list Z :=
  match e with
  | YAML_ANY_ENCODING => []
  | YAML_UTF8_ENCODING => utf8_octets v
  | YAML_UTF16LE_ENCODING => utf16_octets true v
  | YAML_UTF16BE_ENCODING => utf16_octets false v
  end.
(** * Properties *)

Unset Implicit Arguments.

(** ** Refilling the raw buffer *)

(** C1 (fails on the code).  A refill is to leave in [pointer, length) the
    bytes that were unconsumed, then the bytes the source produced.  The
    source moves the unconsumed bytes to the front and resets the pointer,
    but keeps [raw_input.length].  The text "ABC" and the two octets [C3
    A9] of one character arrive one octet a call; after the first
    [yaml_parser_update_buffer (1)] the raw buffer holds [41 42 43 C3] with
    three octets consumed.  The next refill, to which the source hands [A9],
    leaves [C3 42 43 C3 A9] unconsumed, of length 5, where [C3 A9], of
    length 2, is due. *)
Lemma update_raw_buffer_keeps_length :
  let text := [0x41; 0x42; 0x43; 0xC3; 0xA9]%Z in
  exists p,
    yaml_parser_update_buffer (chunk_reader 1) 9 1 (yaml_parser_new text 8 8)
    = Ok p
    /\ Buf.unconsumed (raw_input p) = [0xC3]%Z
    /\ chunk_reader 1 (reader_data p) 4 = Some ([0xA9]%Z, [])
    /\ exists p',
        yaml_parser_update_raw_buffer (chunk_reader 1) p = Ok p'
        /\ Buf.pointer (raw_input p') = 0
        /\ Buf.length (raw_input p') = 5
        /\ Buf.unconsumed (raw_input p')
           = [0xC3; 0x42; 0x43; 0xC3; 0xA9]%Z
        /\ Buf.unconsumed (raw_input p') <> ([0xC3] ++ [0xA9])%Z
        /\ Buf.length (raw_input p') <> 1 + 1.
Proof.
  intros text. eexists. split; [vm_compute; reflexivity|].
  split; [vm_compute; reflexivity|]. split; [vm_compute; reflexivity|].
  eexists. split; [vm_compute; reflexivity|].
  split; [vm_compute; reflexivity|]. split; [vm_compute; reflexivity|].
  split; [vm_compute; reflexivity|].
  split; vm_compute; discriminate.
Qed.

(** ** One byte at a time *)

(** C2 (fails on the code).  The text "ABC" followed by the two octets
    [C3 A9] of one character, read through [yaml_parser_update_buffer
    (1)] calls.  When the source hands the five octets over in one read, the
    consumer gets A, B, C, the two-octet character and the final NUL.  When
    it hands them over one octet a call, the consumer gets A, B, C and then
    a decoder error, "Invalid trailing UTF-8 octet", while the EOF flag is
    still clear: the refill that was to fetch [A9] left the stale octets
    [42 43] between [C3] and it (the defect of C1). *)
Lemma slow_arrival_breaks_a_character :
  let text := [0x41; 0x42; 0x43; 0xC3; 0xA9]%Z in
  let whole := read_stream (chunk_reader 5) 9 9 (yaml_parser_new text 8 8) in
  let slow := read_stream (chunk_reader 1) 9 9 (yaml_parser_new text 8 8) in
  fst whole = [[0x41]; [0x42]; [0x43]; [0xC3; 0xA9]; [0]]%Z
  /\ (exists p, snd whole = Ok p /\ error p = YAML_NO_ERROR)
  /\ fst slow = [[0x41]; [0x42]; [0x43]]%Z
  /\ (exists p, snd slow = Fail p /\ is_eof p = false
                /\ error p = YAML_DECODER_ERROR
                /\ problem p = "Invalid trailing UTF-8 octet"%string)
  /\ fst slow <> fst whole.
Proof.
  intros text whole slow.
  split; [vm_compute; reflexivity|].
  split; [eexists; split; vm_compute; reflexivity|].
  split; [vm_compute; reflexivity|].
  split; [eexists; split; [|split; [|split]]; vm_compute; reflexivity|].
  vm_compute. discriminate.
Qed.

(** The same defect on plain ASCII: "ABCD" arriving one octet a call is
    delivered twice before the final NUL. *)
Lemma slow_arrival_repeats_the_text :
  let text := [0x41; 0x42; 0x43; 0x44]%Z in
  fst (read_stream (chunk_reader 4) 9 9 (yaml_parser_new text 8 8))
  = [[0x41]; [0x42]; [0x43]; [0x44]; [0]]%Z
  /\ fst (read_stream (chunk_reader 1) 9 9 (yaml_parser_new text 8 8))
     = [[0x41]; [0x42]; [0x43]; [0x44];
        [0x41]; [0x42]; [0x43]; [0x44]; [0]]%Z.
Proof. split; vm_compute; reflexivity. Qed.

(** The same without any read in between, on the source alone: after the
    first call for one character, a call for four returns 0 when the octets
    arrive one a call, and 1 when they arrived together. *)
Lemma slow_arrival_without_reads :
  let text := [0x41; 0x42; 0x43; 0xC3; 0xA9]%Z in
  (exists p1 q,
      yaml_parser_update_buffer (chunk_reader 1) 9 1
        (yaml_parser_new text 8 8) = Ok p1
      /\ yaml_parser_update_buffer (chunk_reader 1) 9 4 p1 = Fail q
      /\ is_eof q = false
      /\ problem q = "Invalid trailing UTF-8 octet"%string)
  /\ (exists p1,
         yaml_parser_update_buffer (chunk_reader 5) 9 1
           (yaml_parser_new text 8 8) = Ok p1
         /\ yaml_parser_update_buffer (chunk_reader 5) 9 4 p1 = Ok p1
         /\ Buf.valid (input p1) = [0x41; 0x42; 0x43; 0xC3; 0xA9; 0]%Z).
Proof.
  intros text. split.
  - do 2 eexists. split; [vm_compute; reflexivity|].
    split; [vm_compute; reflexivity|]. split; vm_compute; reflexivity.
  - eexists. split; [vm_compute; reflexivity|].
    split; vm_compute; reflexivity.
Qed.

(** ** An incomplete character, retried *)

(** C9 (fails on the code).  A character cut short by the end of the raw
    buffer, before EOF, is to end the decode pass without an error, so
    that more bytes are fetched and the same character is decoded again.
    The text "ABC" and the two octets [C3 A9] of one character arrive one
    octet a call.  The first [yaml_parser_update_buffer (1)] returns 1 with
    [C3] unconsumed and [A9] still with the source: the character falls
    short, the decoder answers [Incomplete] and the round breaks, nothing
    reported.  So far the claim.  The next call, for four characters,
    fetches [A9] (the source is left empty, the EOF flag clear), but the
    refill has left the consumed octets [42 43] between [C3] and [A9] (the
    defect of C1): the character decoded again is [C3 42], not [C3 A9], and
    the call returns 0 with "Invalid trailing UTF-8 octet" at offset 4,
    value 0x42, where [C3 A9] decodes to U+00E9. *)
Lemma incomplete_retry_reads_stale_octets :
  let text := [0x41; 0x42; 0x43; 0xC3; 0xA9]%Z in
  exists p,
    yaml_parser_update_buffer (chunk_reader 1) 9 1 (yaml_parser_new text 8 8)
    = Ok p
    /\ is_eof p = false
    /\ Buf.unconsumed (raw_input p) = [0xC3]%Z
    /\ reader_data p = [0xA9]%Z
    /\ falls_short p
    /\ decode_char p = Incomplete
    /\ decode_round p = Break p
    /\ (exists r,
          yaml_parser_update_raw_buffer (chunk_reader 1) p = Ok r
          /\ reader_data r = [] /\ is_eof r = false
          /\ Buf.unconsumed (raw_input r)
             = [0xC3; 0x42; 0x43; 0xC3; 0xA9]%Z
          /\ decode_char r
             = Invalid "Invalid trailing UTF-8 octet" 4 0x42)
    /\ (exists q,
          yaml_parser_update_buffer (chunk_reader 1) 9 4 p = Fail q
          /\ reader_data q = [] /\ is_eof q = false
          /\ error q = YAML_DECODER_ERROR
          /\ problem q = "Invalid trailing UTF-8 octet"%string
          /\ problem_offset q = 4 /\ problem_value q = 0x42%Z)
    /\ decode_utf8 (octet_at [0xC3; 0xA9]%Z) 2 false 3 = Decoded 0xE9 2.
Proof.
  intros text. eexists. split; [vm_compute; reflexivity|].
  split; [vm_compute; reflexivity|]. split; [vm_compute; reflexivity|].
  split; [vm_compute; reflexivity|].
  split; [split; [vm_compute; discriminate | vm_compute; lia]|].
  split; [vm_compute; reflexivity|]. split; [vm_compute; reflexivity|].
  split.
  { eexists. split; [vm_compute; reflexivity|].
    split; [vm_compute; reflexivity|]. split; [vm_compute; reflexivity|].
    split; vm_compute; reflexivity. }
  split; [|vm_compute; reflexivity].
  eexists. split; [vm_compute; reflexivity|].
  split; [vm_compute; reflexivity|]. split; [vm_compute; reflexivity|].
  split; [vm_compute; reflexivity|]. split; [vm_compute; reflexivity|].
  split; vm_compute; reflexivity.
Qed.

(** ** Bit operations of the source, as arithmetic *)

Open Scope Z_scope.

Lemma land_low_bits (a : Z) (n : Z) :
  0 <= n -> Z.land a (Z.ones n) = a mod 2 ^ n.
Proof. intros. now apply Z.land_ones. Qed.

Lemma land_7F a : Z.land a 0x7F = a mod 128.
Proof. change 0x7F with (Z.ones 7). now rewrite land_low_bits. Qed.

Lemma land_3F a : Z.land a 0x3F = a mod 64.
Proof. change 0x3F with (Z.ones 6). now rewrite land_low_bits. Qed.

Lemma land_1F a : Z.land a 0x1F = a mod 32.
Proof. change 0x1F with (Z.ones 5). now rewrite land_low_bits. Qed.

Lemma land_0F a : Z.land a 0x0F = a mod 16.
Proof. change 0x0F with (Z.ones 4). now rewrite land_low_bits. Qed.

Lemma land_07 a : Z.land a 0x07 = a mod 8.
Proof. change 0x07 with (Z.ones 3). now rewrite land_low_bits. Qed.

Lemma land_3FF a : Z.land a 0x3FF = a mod 1024.
Proof. change 0x3FF with (Z.ones 10). now rewrite land_low_bits. Qed.

Lemma shiftl_6 a : Z.shiftl a 6 = a * 64.
Proof. now rewrite Z.shiftl_mul_pow2. Qed.

Lemma shiftl_8 a : Z.shiftl a 8 = a * 256.
Proof. now rewrite Z.shiftl_mul_pow2. Qed.

Lemma shiftr_n a n : 0 <= n -> Z.shiftr a n = a / 2 ^ n.
Proof. intros. now apply Z.shiftr_div_pow2. Qed.

(** [v & 0xFC00] picks the high six bits of a 16-bit unit. *)
Lemma land_FC00 v :
  0 <= v < 65536 -> Z.land v 0xFC00 = (v / 1024) * 1024.
Proof.
  intros Hv.
  assert (E : v = Z.lor (Z.land v 0xFC00) (Z.land v 0x3FF)).
  { rewrite <- Z.land_lor_distr_r.
    change (Z.lor 0xFC00 0x3FF) with (Z.ones 16).
    rewrite land_low_bits by lia. symmetry. apply Z.mod_small. lia. }
  assert (D : Z.land (Z.land v 0xFC00) (Z.land v 0x3FF) = 0).
  { rewrite Z.land_assoc, (Z.land_comm (Z.land v 0xFC00) v), Z.land_assoc,
      Z.land_diag, <- Z.land_assoc. change (Z.land 0xFC00 0x3FF) with 0.
    apply Z.land_0_r. }
  assert (S : Z.land v 0xFC00 + Z.land v 0x3FF = v).
  { rewrite Z.add_nocarry_lxor by exact D.
    rewrite Z.lxor_lor by exact D. symmetry. exact E. }
  rewrite land_3FF in S.
  pose proof (Z.div_mod v 1024 ltac:(lia)). lia.
Qed.

Lemma low_surrogate_test v :
  0 <= v < 65536 -> (Z.land v 0xFC00 =? 0xDC00) = true <-> 0xDC00 <= v <= 0xDFFF.
Proof.
  intros Hv. rewrite land_FC00, Z.eqb_eq by assumption.
  pose proof (Z.div_mod v 1024 ltac:(lia)).
  pose proof (Z.mod_pos_bound v 1024 ltac:(lia)). lia.
Qed.

Lemma high_surrogate_test v :
  0 <= v < 65536 -> (Z.land v 0xFC00 =? 0xD800) = true <-> 0xD800 <= v <= 0xDBFF.
Proof.
  intros Hv. rewrite land_FC00, Z.eqb_eq by assumption.
  pose proof (Z.div_mod v 1024 ltac:(lia)).
  pose proof (Z.mod_pos_bound v 1024 ltac:(lia)). lia.
Qed.

Close Scope Z_scope.

(** ** Octet patterns *)

Open Scope Z_scope.

(** The 256 octets, for properties checked octet by octet. *)
Lemma octet_cases (P : Z -> bool) :
  forallb P (map Z.of_nat (seq 0 256)) = true ->
  forall b, 0 <= b < 256 -> P b = true.
Proof.
  intros H b Hb. rewrite forallb_forall in H. apply H.
  replace b with (Z.of_nat (Z.to_nat b)) by lia.
  apply in_map, in_seq. lia.
Qed.

Lemma utf8_width_pattern b :
  0 <= b < 256 -> utf8_width b = utf8_lead_width b.
Proof.
  intros Hb.
  apply Nat.eqb_eq.
  apply (octet_cases (fun b => (utf8_width b =? utf8_lead_width b)%nat));
    [vm_compute; reflexivity | exact Hb].
Qed.

Lemma utf8_trail_test b :
  0 <= b < 256 -> (Z.land b 0xC0 =? 0x80) = (b / 64 =? 2).
Proof.
  intros Hb.
  apply Bool.eqb_prop.
  apply (octet_cases
           (fun b => Bool.eqb (Z.land b 0xC0 =? 0x80) (b / 64 =? 2)));
    [vm_compute; reflexivity | exact Hb].
Qed.

Close Scope Z_scope.

(** ** Stores into an array *)

Lemma write_at_length (l : list Z) off bs :
  off + List.length bs <= List.length l ->
  List.length (write_at l off bs) = List.length l.
Proof.
  intros H. unfold write_at.
  rewrite !length_app, length_firstn, length_skipn. lia.
Qed.

Lemma firstn_write_at (l : list Z) off bs :
  off <= List.length l ->
  firstn (off + List.length bs) (write_at l off bs) = firstn off l ++ bs.
Proof.
  intros H. unfold write_at.
  rewrite app_assoc.
  rewrite firstn_app.
  rewrite length_app, length_firstn.
  replace (off + List.length bs - (Nat.min off (List.length l) + List.length bs))
    with 0 by lia.
  rewrite firstn_O, app_nil_r.
  apply firstn_all2. rewrite length_app, length_firstn. lia.
Qed.

Lemma firstn_write_at_below (l : list Z) off bs n :
  n <= off -> off <= List.length l ->
  firstn n (write_at l off bs) = firstn n l.
Proof.
  intros Hn H. unfold write_at.
  rewrite firstn_app, length_firstn.
  replace (n - Nat.min off (List.length l)) with 0 by lia.
  rewrite firstn_O, app_nil_r, firstn_firstn. f_equal. lia.
Qed.

Lemma memmove_length (l : list Z) src n :
  List.length (memmove l 0 src n) = List.length l.
Proof.
  unfold memmove. apply write_at_length.
  rewrite length_firstn, length_skipn. lia.
Qed.

Lemma firstn_memmove (l : list Z) src n :
  src + n <= List.length l ->
  firstn n (memmove l 0 src n) = firstn n (skipn src l).
Proof.
  intros H. unfold memmove.
  assert (E : List.length (firstn n (skipn src l)) = n)
    by (rewrite length_firstn, length_skipn; lia).
  pose proof (firstn_write_at l 0 (firstn n (skipn src l)) ltac:(lia)) as F.
  rewrite E in F. cbn [Nat.add firstn app] in F. exact F.
Qed.

(** ** Decoding UTF-8 *)

Section Properties.

Variable R : Type.
Variable reader : R -> nat -> option (list Z * R).
Implicit Types p q : yaml_parser_t R.

Lemma raw_at_octet p k :
  octets (Buf.buffer (raw_input p)) -> (0 <= raw_at p k < 256)%Z.
Proof.
  intros H. unfold raw_at.
  destruct (nth_in_or_default (Buf.pointer (raw_input p) + k)
              (Buf.buffer (raw_input p)) 0%Z) as [Hin | ->]; [|lia].
  unfold octets in H. rewrite Forall_forall in H. now apply H.
Qed.

(** The [for] loop over well-formed trailing octets computes the value of
    the sequence. *)
Lemma utf8_trailing_value (raw : nat -> Z) :
  (forall k, 0 <= raw k < 256)%Z ->
  let w := utf8_lead_width (raw 0) in
  w <> 0 ->
  (forall k, 1 <= k < w -> utf8_trail (raw k)) ->
  utf8_trailing raw (utf8_width (raw 0) - 1) 1 (utf8_leading (raw 0))
  = inl (utf8_scalar raw w).
Proof.
  intros Hb w Hw Ht.
  assert (T : forall k, 1 <= k < w -> (Z.land (raw k) 0xC0 =? 0x80)%Z = true).
  { intros k Hk. rewrite utf8_trail_test by apply Hb.
    apply Z.eqb_eq, Ht, Hk. }
  assert (Ew : utf8_width (raw 0) = w) by (apply utf8_width_pattern, Hb).
  clear Ht. clearbody w. subst w.
  unfold utf8_leading, utf8_width in *.
  destruct (Z.land (raw 0%nat) 128 =? 0)%Z;
    [|destruct (Z.land (raw 0%nat) 224 =? 192)%Z;
      [|destruct (Z.land (raw 0%nat) 240 =? 224)%Z;
        [|destruct (Z.land (raw 0%nat) 248 =? 240)%Z]]];
    try congruence; cbn [Nat.sub utf8_trailing utf8_scalar].
  - now rewrite land_7F.
  - rewrite (T 1%nat) by lia. cbn [negb].
    now rewrite shiftl_6, land_1F, land_3F.
  - rewrite (T 1%nat), (T 2%nat) by lia. cbn [negb].
    rewrite !shiftl_6, land_0F, !land_3F. f_equal. ring.
  - rewrite (T 1%nat), (T 2%nat), (T 3%nat) by lia. cbn [negb].
    rewrite !shiftl_6, land_07, !land_3F. f_equal. ring.
Qed.

(** C3.  On a UTF-8 stream, with the raw buffer holding octets:
    a leading octet of none of the four patterns fails with "Invalid
    leading UTF-8 octet"; a sequence that is all there, with well-formed
    trailing octets, fails with "Invalid length of a UTF-8 sequence" when
    its value is below the least one of its width (0x80 for 2, 0x800 for 3,
    0x10000 for 4), and otherwise with "Invalid Unicode character" when the
    value lies in 0xD800..0xDFFF or above 0x10FFFF. *)
Theorem utf8_rejections p :
  encoding p = YAML_UTF8_ENCODING ->
  octets (Buf.buffer (raw_input p)) ->
  let w := utf8_lead_width (raw_at p 0) in
  let v := utf8_scalar (raw_at p) w in
  (w = 0 ->
   decode_round p
   = Return0 (DECODER_ERROR_INIT p "Invalid leading UTF-8 octet"
                (offset p) (raw_at p 0)))
  /\ (w <> 0 -> w <= raw_unread p ->
      (forall k, 1 <= k < w -> utf8_trail (raw_at p k)) ->
      (overlong w v ->
       decode_round p
       = Return0 (DECODER_ERROR_INIT p "Invalid length of a UTF-8 sequence"
                    (offset p) (-1)))
      /\ (~ overlong w v ->
          (0xD800 <= v <= 0xDFFF \/ 0x10FFFF < v)%Z ->
          decode_round p
          = Return0 (DECODER_ERROR_INIT p "Invalid Unicode character"
                       (offset p) v))).
Proof.
  intros He Ho w v.
  assert (Hb : forall k, (0 <= raw_at p k < 256)%Z)
    by (intros k; now apply raw_at_octet).
  assert (Ew : utf8_width (raw_at p 0) = w) by (apply utf8_width_pattern, Hb).
  unfold decode_round, decode_char. rewrite He. unfold decode_utf8.
  split.
  - intros H0. rewrite Ew, H0. reflexivity.
  - intros Hw Hn Ht.
    rewrite (utf8_trailing_value (raw_at p) Hb Hw Ht).
    rewrite Ew. fold w. fold v.
    destruct (Nat.eqb_spec w 0) as [|_]; [contradiction|].
    destruct (Nat.ltb_spec (raw_unread p) w) as [|_]; [lia|].
    assert (W : w = 1 \/ w = 2 \/ w = 3 \/ w = 4).
    { revert Hw. unfold w, utf8_lead_width.
      repeat match goal with
             | |- context [if ?c then _ else _] => destruct c
             end; intros; tauto || congruence. }
    split.
    + intros Hl.
      assert ((w =? 1) || (w =? 2) && (128 <=? v)%Z
              || (w =? 3) && (2048 <=? v)%Z
              || (w =? 4) && (65536 <=? v)%Z = false) as ->; [|reflexivity].
      unfold overlong in Hl.
      destruct Hl as [[-> Hv] | [[-> Hv] | [-> Hv]]];
        apply Z.leb_gt in Hv; rewrite Hv; reflexivity.
    + intros Hl Hr.
      assert ((w =? 1) || (w =? 2) && (128 <=? v)%Z
              || (w =? 3) && (2048 <=? v)%Z
              || (w =? 4) && (65536 <=? v)%Z = true) as ->.
      { unfold overlong in Hl.
        destruct W as [-> | [-> | [-> | ->]]]; [reflexivity| | |];
          match goal with
          | |- context [(?a <=? v)%Z] =>
              destruct (Z.leb_spec a v); [reflexivity | exfalso; lia]
          end. }
      cbn [negb].
      assert ((55296 <=? v)%Z && (v <=? 57343)%Z || (1114111 <? v)%Z = true)
        as ->; [|reflexivity].
      destruct Hr as [[H1 H2] | H3].
      * apply Z.leb_le in H1, H2. now rewrite H1, H2.
      * apply Z.ltb_lt in H3. rewrite H3. apply orb_true_r.
Qed.

(** ** Decoding UTF-16 *)

Lemma utf16_unit_range le (raw : nat -> Z) k :
  (forall i, 0 <= raw i < 256)%Z -> (0 <= utf16_unit le raw k < 65536)%Z.
Proof.
  intros H. pose proof (H k). pose proof (H (S k)).
  unfold utf16_unit. destruct le; lia.
Qed.

(** The [case] of the two UTF-16 encodings, over the two units it reads. *)
Lemma decode_utf16_units le (raw : nat -> Z) n eof off :
  2 <= n ->
  decode_utf16 le raw n eof off
  = let u := utf16_unit le raw 0 in
    let u2 := utf16_unit le raw 2 in
    if (Z.land u 0xFC00 =? 0xDC00)%Z then
      Invalid "Unexpected low surrogate area" off u
    else if (Z.land u 0xFC00 =? 0xD800)%Z then
      if n <? 4 then
        if eof then Invalid "Incomplete UTF-16 surrogate pair" off (-1)
        else Incomplete
      else if negb (Z.land u2 0xFC00 =? 0xDC00)%Z then
        Invalid "Expected low surrogate area" (off + 2) u2
      else
        Decoded (0x10000 + Z.shiftl (Z.land u 0x3FF) 10 + Z.land u2 0x3FF) 4
    else Decoded u 2.
Proof.
  intros Hn. unfold decode_utf16.
  destruct (Nat.ltb_spec n 2) as [|_]; [lia|].
  assert (E0 : (raw (if le then 0 else 1)%nat
                + Z.shiftl (raw (if le then 1 else 0)%nat) 8)%Z
               = utf16_unit le raw 0).
  { rewrite shiftl_8. unfold utf16_unit. destruct le; ring. }
  assert (E2 : (raw ((if le then 0 else 1) + 2)%nat
                + Z.shiftl (raw ((if le then 1 else 0) + 2)%nat) 8)%Z
               = utf16_unit le raw 2).
  { rewrite shiftl_8. unfold utf16_unit. destruct le; cbn [Nat.add]; ring. }
  cbv zeta. rewrite E0, E2. reflexivity.
Qed.

Lemma decode_round_invalid p msg off value :
  decode_char p = Invalid msg off value ->
  decode_round p = Return0 (DECODER_ERROR_INIT p msg off value).
Proof. intros H. unfold decode_round. now rewrite H. Qed.

(** C4.  On a UTF-16 stream of either byte order, with two octets or more
    in the raw buffer forming the unit [u]: a [u] in 0xDC00..0xDFFF fails
    with "Unexpected low surrogate area"; a [u] in 0xD800..0xDBFF needs four
    octets (with fewer the character is incomplete: not an error before EOF,
    "Incomplete UTF-16 surrogate pair" at EOF) and a next unit [u2] in
    0xDC00..0xDFFF (else "Expected low surrogate area"), and then decodes
    to 0x10000 + ((u & 0x3FF) << 10) + (u2 & 0x3FF) with width 4; any other
    [u] decodes to itself with width 2. *)
Theorem utf16_decoding p (le : bool) :
  encoding p = (if le then YAML_UTF16LE_ENCODING else YAML_UTF16BE_ENCODING) ->
  octets (Buf.buffer (raw_input p)) ->
  2 <= raw_unread p ->
  let u := utf16_unit le (raw_at p) 0 in
  let u2 := utf16_unit le (raw_at p) 2 in
  ((0xDC00 <= u <= 0xDFFF)%Z ->
   decode_round p
   = Return0 (DECODER_ERROR_INIT p "Unexpected low surrogate area"
                (offset p) u))
  /\ ((0xD800 <= u <= 0xDBFF)%Z ->
      (raw_unread p < 4 ->
       (is_eof p = false -> decode_char p = Incomplete)
       /\ (is_eof p = true ->
           decode_round p
           = Return0 (DECODER_ERROR_INIT p "Incomplete UTF-16 surrogate pair"
                        (offset p) (-1))))
      /\ (4 <= raw_unread p -> ~ (0xDC00 <= u2 <= 0xDFFF)%Z ->
          decode_round p
          = Return0 (DECODER_ERROR_INIT p "Expected low surrogate area"
                       (offset p + 2) u2))
      /\ (4 <= raw_unread p -> (0xDC00 <= u2 <= 0xDFFF)%Z ->
          decode_char p
          = Decoded (0x10000 + Z.shiftl (Z.land u 0x3FF) 10
                     + Z.land u2 0x3FF) 4))
  /\ (~ (0xD800 <= u <= 0xDFFF)%Z -> decode_char p = Decoded u 2).
Proof.
  intros He Ho Hn u u2.
  assert (Hb : forall k, (0 <= raw_at p k < 256)%Z)
    by (intros k; now apply raw_at_octet).
  pose proof (utf16_unit_range le (raw_at p) 0 Hb) as Hu.
  pose proof (utf16_unit_range le (raw_at p) 2 Hb) as Hu2.
  fold u in Hu. fold u2 in Hu2.
  pose proof (low_surrogate_test u Hu) as L.
  pose proof (high_surrogate_test u Hu) as H.
  pose proof (low_surrogate_test u2 Hu2) as L2.
  assert (E : decode_char p
              = decode_utf16 le (raw_at p) (raw_unread p) (is_eof p)
                  (offset p)).
  { unfold decode_char. rewrite He. now destruct le. }
  rewrite (decode_utf16_units le (raw_at p) _ (is_eof p) (offset p) Hn) in E.
  cbv zeta in E. fold u in E. fold u2 in E.
  destruct (Z.land u 0xFC00 =? 0xDC00)%Z eqn:T1.
  { apply decode_round_invalid in E as E'. 
    split; [intros _; exact E'|].
    split; intros; exfalso; lia. }
  assert (N1 : ~ (0xDC00 <= u <= 0xDFFF)%Z) by (intros X; apply L in X; congruence).
  split; [intros X; contradiction|].
  destruct (Z.land u 0xFC00 =? 0xD800)%Z eqn:T2.
  - split; [|intros X; exfalso; lia].
    intros _.
    destruct (Nat.ltb_spec (raw_unread p) 4) as [Hs | Hs].
    + split; [|split; intros; exfalso; lia].
      intros _. split; intros Heof; rewrite Heof in E; [exact E|].
      now apply decode_round_invalid.
    + split; [intros; exfalso; lia|].
      destruct (Z.land u2 0xFC00 =? 0xDC00)%Z eqn:T3; cbn [negb] in E.
      * split; [intros _ X; exfalso; apply X; now apply L2|].
        intros _ _. exact E.
      * split; [|intros _ X; apply L2 in X; congruence].
        intros _ _. now apply decode_round_invalid.
  - split; [intros X; apply H in X; congruence|].
    intros _. exact E.
Qed.

(** ** Refilling the raw buffer, in general *)

(** A refill touches neither the text buffer nor [unread]. *)
Lemma update_raw_buffer_text p p' :
  yaml_parser_update_raw_buffer reader p = Ok p' ->
  input p' = input p /\ unread p' = unread p.
Proof.
  unfold yaml_parser_update_raw_buffer.
  destruct (_ && _); [intros [= <-]; now split|].
  destruct (is_eof p); [intros [= <-]; now split|].
  set (moved := if (0 <? Buf.pointer (raw_input p))
                   && (Buf.pointer (raw_input p) <? Buf.length (raw_input p))
                then _ else _).
  cbn [set_raw_input reader_data offset].
  destruct (reader _ _) as [[bs d]|]; [|discriminate].
  destruct (_ - _ <? List.length bs); [discriminate|].
  intros [= <-]. destruct (List.length bs =? 0); split; reflexivity.
Qed.

(** What a refill that does call the source leaves: the pointer at 0 and
    the length it found plus the number of bytes produced, whatever the
    number of bytes consumed before.  (With pointer 0 before the call this
    is what C1 asks for; with a pointer above 0 it is not.) *)
Lemma update_raw_buffer_length p p' :
  is_eof p = false ->
  ~ (Buf.pointer (raw_input p) = 0
     /\ Buf.length (raw_input p) = Buf.capacity (raw_input p)) ->
  yaml_parser_update_raw_buffer reader p = Ok p' ->
  exists bs d,
    reader (reader_data p)
      (Buf.capacity (raw_input p) - Buf.length (raw_input p)) = Some (bs, d)
    /\ Buf.pointer (raw_input p') = 0
    /\ Buf.length (raw_input p')
       = Buf.length (raw_input p) + List.length bs.
Proof.
  intros He Hf. unfold yaml_parser_update_raw_buffer. rewrite He.
  destruct ((Buf.pointer (raw_input p) =? 0)
            && (Buf.length (raw_input p) =? Buf.capacity (raw_input p)))
    eqn:T.
  { apply andb_prop in T as [T1 T2].
    apply Nat.eqb_eq in T1, T2. tauto. }
  set (moved := if (0 <? Buf.pointer (raw_input p))
                   && (Buf.pointer (raw_input p) <? Buf.length (raw_input p))
                then _ else _).
  assert (E : Buf.length moved = Buf.length (raw_input p)
              /\ Buf.capacity moved = Buf.capacity (raw_input p)).
  { unfold moved.
    destruct ((0 <? Buf.pointer (raw_input p)) && _); split; reflexivity. }
  destruct E as [E1 E2].
  cbn [set_raw_input reader_data offset Buf.set_pointer Buf.capacity
         Buf.length raw_input].
  rewrite E1, E2.
  destruct (reader _ _) as [[bs d]|]; [|discriminate].
  destruct (_ - _ <? List.length bs); [discriminate|].
  intros [= <-]. exists bs, d. split; [reflexivity|].
  destruct (List.length bs =? 0);
    cbn [raw_input set_is_eof set_raw_input Buf.length Buf.set_length
           Buf.pointer Buf.set_buffer Buf.set_pointer];
    rewrite ?E1; split; reflexivity.
Qed.

(** ** Detecting the encoding *)

(** A refill of a buffer that is neither full nor at EOF, with nothing
    consumed, appends what the source hands over. *)
Lemma update_raw_buffer_fresh p p' :
  Buf.pointer (raw_input p) = 0 -> is_eof p = false ->
  Buf.length (raw_input p) < Buf.capacity (raw_input p) ->
  yaml_parser_update_raw_buffer reader p = Ok p' ->
  exists bs d,
    reader (reader_data p)
      (Buf.capacity (raw_input p) - Buf.length (raw_input p)) = Some (bs, d)
    /\ List.length bs
       <= Buf.capacity (raw_input p) - Buf.length (raw_input p)
    /\ p' = let q := set_raw_input (set_reader_data p d)
                       (Buf.mk (write_at (Buf.buffer (raw_input p))
                                  (Buf.length (raw_input p)) bs)
                          0 (Buf.length (raw_input p) + List.length bs)
                          (Buf.capacity (raw_input p))) in
            if List.length bs =? 0 then set_is_eof q true else q.
Proof.
  intros Hp He Hl. unfold yaml_parser_update_raw_buffer.
  rewrite Hp, He.
  replace (Buf.length (raw_input p) =? Buf.capacity (raw_input p)) with false
    by (symmetry; apply Nat.eqb_neq; lia).
  change (0 <? 0) with false.
  cbn [Nat.eqb andb Buf.set_pointer Buf.capacity Buf.length Buf.buffer
         set_raw_input reader_data raw_input offset Buf.pointer].
  destruct (reader (reader_data p) _) as [[bs d]|] eqn:Er; [|discriminate].
  destruct (Nat.ltb_spec
              (Buf.capacity (raw_input p) - Buf.length (raw_input p))
              (List.length bs)) as [|Hs]; [discriminate|].
  intros [= <-]. exists bs, d.
  split; [reflexivity|]. split; [exact Hs|]. reflexivity.
Qed.

Lemma determine_encoding_fill_spec fuel :
  forall p,
    Buf.pointer (raw_input p) = 0 ->
    Buf.length (raw_input p) <= Buf.capacity (raw_input p) ->
    List.length (Buf.buffer (raw_input p)) = Buf.capacity (raw_input p) ->
    3 <= Buf.capacity (raw_input p) ->
    3 <= fuel + Buf.length (raw_input p) ->
    determine_encoding_fill reader fuel p <> Timeout
    /\ forall p',
        determine_encoding_fill reader fuel p = Ok p' ->
        Buf.pointer (raw_input p') = 0
        /\ (is_eof p' = true \/ 3 <= Buf.length (raw_input p'))
        /\ Buf.length (raw_input p') <= List.length (Buf.buffer (raw_input p'))
        /\ offset p' = offset p
        /\ exists bs,
            Buf.valid (raw_input p') = Buf.valid (raw_input p) ++ bs
            /\ pulled reader (reader_data p) bs (reader_data p').
Proof.
  assert (Done : forall p,
            Buf.length (raw_input p) <= Buf.capacity (raw_input p) ->
            List.length (Buf.buffer (raw_input p))
            = Buf.capacity (raw_input p) ->
            Buf.pointer (raw_input p) = 0 ->
            negb (is_eof p) && (Buf.length (raw_input p) <? 3) = false ->
            Buf.pointer (raw_input p) = 0
            /\ (is_eof p = true \/ 3 <= Buf.length (raw_input p))
            /\ Buf.length (raw_input p)
               <= List.length (Buf.buffer (raw_input p))
            /\ offset p = offset p
            /\ exists bs,
                Buf.valid (raw_input p) = Buf.valid (raw_input p) ++ bs
                /\ pulled reader (reader_data p) bs (reader_data p)).
  { intros p Hl Hb Hp C. split; [exact Hp|]. split.
    - apply andb_false_iff in C as [C | C].
      + left. now apply negb_false_iff.
      + right. now apply Nat.ltb_ge.
    - split; [lia|]. split; [reflexivity|].
      exists []. rewrite app_nil_r. split; [reflexivity | constructor]. }
  induction fuel as [|fuel IH]; intros p Hp Hl Hb Hc Hf.
  - cbn [determine_encoding_fill].
    destruct (negb (is_eof p) && (Buf.length (raw_input p) <? 3)) eqn:C.
    { apply andb_prop in C as [_ C]. apply Nat.ltb_lt in C. lia. }
    split; [discriminate|]. intros p' [= <-]. now apply Done.
  - cbn [determine_encoding_fill].
    destruct (negb (is_eof p) && (Buf.length (raw_input p) <? 3)) eqn:C.
    2:{ split; [discriminate|]. intros p' [= <-]. now apply Done. }
    apply andb_prop in C as [He Hn].
    apply negb_true_iff in He. apply Nat.ltb_lt in Hn.
    destruct (yaml_parser_update_raw_buffer reader p) as [p1| | |] eqn:Eu;
      try (split; [discriminate|]; intros ? [=]).
    2:{ exfalso. revert Eu. unfold yaml_parser_update_raw_buffer.
        repeat match goal with
               | |- context [if ?c then _ else _] => destruct c
               | |- context [match ?c with Some _ => _ | None => _ end] =>
                   destruct c as [[? ?]|]
               end; discriminate. }
    destruct (update_raw_buffer_fresh p p1 Hp He ltac:(lia) Eu)
      as (bs & d & Er & Hs & ->).
    set (q := set_raw_input (set_reader_data p d) _).
    assert (Hq : Buf.valid (raw_input q) = Buf.valid (raw_input p) ++ bs).
    { unfold q, Buf.valid. cbn. apply firstn_write_at. lia. }
    assert (Lq : List.length (Buf.buffer (raw_input q))
                 = Buf.capacity (raw_input p)).
    { unfold q. cbn. rewrite write_at_length; lia. }
    destruct (Nat.eqb_spec (List.length bs) 0) as [Hz|Hz]; cbv zeta.
    + (* the source is at its end: the flag stops the loop *)
      assert (F : determine_encoding_fill reader fuel (set_is_eof q true)
                  = Ok (set_is_eof q true)) by (destruct fuel; reflexivity).
      rewrite F. split; [discriminate|]. intros p' [= <-].
      cbn [raw_input set_is_eof is_eof offset reader_data].
      split; [reflexivity|]. split; [now left|].
      split; [rewrite Lq; unfold q; cbn; lia|].
      split; [reflexivity|].
      exists bs. split; [exact Hq|].
      rewrite <- (app_nil_r bs). econstructor; [exact Er | constructor].
    + destruct (IH q) as [T S]; try (unfold q; cbn; lia).
      { unfold q. cbn. rewrite write_at_length; lia. }
      split; [exact T|]. intros p' Ep'.
      destruct (S p' Ep') as (P1 & P2 & P3 & P4 & bs' & P5 & P6).
      repeat split; try assumption.
      exists (bs ++ bs'). split.
      * rewrite P5, Hq. now rewrite app_assoc.
      * econstructor; [exact Er | exact P6].
Qed.

(** The test of one byte order mark: [length >= n && !memcmp(buffer, pre, n)]
    holds when the bytes read so far start with the mark. *)
Lemma bom_test (pre : list Z) (b : Buf.t) n :
  n = List.length pre ->
  Buf.length b <= List.length (Buf.buffer b) ->
  (n <=? Buf.length b) && memcmp_eq (Buf.buffer b) pre n = true
  <-> starts_with pre (Buf.valid b).
Proof.
  intros -> Hl. unfold memcmp_eq, starts_with, Buf.valid.
  rewrite (firstn_all pre).
  split.
  - intros H. apply andb_prop in H as [H1 H2].
    apply Nat.leb_le in H1.
    destruct (list_eq_dec Z.eq_dec _ pre) as [E|]; [|discriminate].
    exists (skipn (List.length pre) (firstn (Buf.length b) (Buf.buffer b))).
    rewrite <- E at 1.
    rewrite <- (firstn_skipn (List.length pre)
                  (firstn (Buf.length b) (Buf.buffer b))) at 1.
    f_equal. rewrite firstn_firstn. f_equal. lia.
  - intros [rest E].
    assert (Hn : List.length pre <= Buf.length b).
    { apply (f_equal (@List.length Z)) in E.
      rewrite length_firstn, length_app in E. lia. }
    apply andb_true_intro. split; [now apply Nat.leb_le|].
    destruct (list_eq_dec Z.eq_dec _ pre) as [|N]; [reflexivity|].
    exfalso. apply N.
    replace (List.length pre)
      with (Nat.min (List.length pre) (Buf.length b)) by lia.
    rewrite <- firstn_firstn, E, firstn_app, firstn_all, Nat.sub_diag.
    cbn [firstn]. apply app_nil_r.
Qed.

(** C5.  Detection on a parser that has read nothing yet (capacity of the
    raw buffer 3 or more, fuel for the three reads it may need).  The call
    ends; when it returns 1, the raw buffer holds the leading bytes [lead]
    of the stream, three or more of them unless the stream is over, and
    - [lead] starting with FF FE selects UTF-16LE, pointer 2, offset 2;
    - else starting with FE FF selects UTF-16BE, pointer 2, offset 2;
    - else starting with EF BB BF selects UTF-8, pointer 3, offset 3;
    - else UTF-8 is selected, pointer 0, offset 0.
    The encoding is known afterwards, so the caller's test
    [if (!parser->encoding)] never runs the detection again. *)
Theorem encoding_detection p fuel :
  Buf.pointer (raw_input p) = 0 -> Buf.length (raw_input p) = 0 ->
  offset p = 0 ->
  List.length (Buf.buffer (raw_input p)) = Buf.capacity (raw_input p) ->
  3 <= Buf.capacity (raw_input p) -> 3 <= fuel ->
  yaml_parser_determine_encoding reader fuel p <> Timeout
  /\ forall p',
      yaml_parser_determine_encoding reader fuel p = Ok p' ->
      let lead := Buf.valid (raw_input p') in
      pulled reader (reader_data p) lead (reader_data p')
      /\ (is_eof p' = true \/ 3 <= List.length lead)
      /\ encoding p' <> YAML_ANY_ENCODING
      /\ (starts_with BOM_UTF16LE lead ->
          encoding p' = YAML_UTF16LE_ENCODING
          /\ Buf.pointer (raw_input p') = 2 /\ offset p' = 2)
      /\ (starts_with BOM_UTF16BE lead ->
          encoding p' = YAML_UTF16BE_ENCODING
          /\ Buf.pointer (raw_input p') = 2 /\ offset p' = 2)
      /\ (starts_with BOM_UTF8 lead ->
          encoding p' = YAML_UTF8_ENCODING
          /\ Buf.pointer (raw_input p') = 3 /\ offset p' = 3)
      /\ (~ starts_with BOM_UTF16LE lead -> ~ starts_with BOM_UTF16BE lead ->
          ~ starts_with BOM_UTF8 lead ->
          encoding p' = YAML_UTF8_ENCODING
          /\ Buf.pointer (raw_input p') = 0 /\ offset p' = 0).
Proof.
  intros Hp Hl Ho Hb Hc Hf.
  destruct (determine_encoding_fill_spec fuel p Hp ltac:(lia) Hb Hc
              ltac:(lia)) as [T S].
  unfold yaml_parser_determine_encoding.
  destruct (determine_encoding_fill reader fuel p) as [p1| | |] eqn:E;
    [| split; [discriminate|]; intros ? [=]
     | split; [discriminate|]; intros ? [=]
     | contradiction].
  split; [discriminate|]. intros p' [= <-].
  specialize (S p1 eq_refl) as (P1 & P2 & P3 & P4 & bs & P5 & P6).
  assert (V0 : Buf.valid (raw_input p) = [])
    by (unfold Buf.valid; now rewrite Hl).
  rewrite V0 in P5. cbn [app] in P5. subst bs.
  pose proof (bom_test BOM_UTF16LE (raw_input p1) 2 eq_refl P3) as B1.
  pose proof (bom_test BOM_UTF16BE (raw_input p1) 2 eq_refl P3) as B2.
  pose proof (bom_test BOM_UTF8 (raw_input p1) 3 eq_refl P3) as B3.
  assert (X12 : starts_with BOM_UTF16LE (Buf.valid (raw_input p1)) ->
                starts_with BOM_UTF16BE (Buf.valid (raw_input p1)) -> False).
  { intros [r1 E1] [r2 E2]. rewrite E1 in E2. discriminate. }
  assert (X13 : starts_with BOM_UTF16LE (Buf.valid (raw_input p1)) ->
                starts_with BOM_UTF8 (Buf.valid (raw_input p1)) -> False).
  { intros [r1 E1] [r2 E2]. rewrite E1 in E2. discriminate. }
  assert (X23 : starts_with BOM_UTF16BE (Buf.valid (raw_input p1)) ->
                starts_with BOM_UTF8 (Buf.valid (raw_input p1)) -> False).
  { intros [r1 E1] [r2 E2]. rewrite E1 in E2. discriminate. }
  assert (Len : List.length (Buf.valid (raw_input p1))
                = Buf.length (raw_input p1)).
  { unfold Buf.valid. rewrite length_firstn. lia. }
  unfold determine_encoding_select.
  destruct ((2 <=? Buf.length (raw_input p1))
            && memcmp_eq (Buf.buffer (raw_input p1)) BOM_UTF16LE 2) eqn:T1;
    [|destruct ((2 <=? Buf.length (raw_input p1))
                && memcmp_eq (Buf.buffer (raw_input p1)) BOM_UTF16BE 2)
        eqn:T2;
      [|destruct ((3 <=? Buf.length (raw_input p1))
                  && memcmp_eq (Buf.buffer (raw_input p1)) BOM_UTF8 3)
          eqn:T3]];
    cbv zeta;
    cbn [raw_input set_offset set_raw_input set_encoding reader_data is_eof
           encoding offset];
    try change (Buf.valid (Buf.set_pointer (raw_input p1) 2))
      with (Buf.valid (raw_input p1));
    try change (Buf.valid (Buf.set_pointer (raw_input p1) 3))
      with (Buf.valid (raw_input p1));
    cbn [Buf.set_pointer Buf.pointer];
    (split; [exact P6|]); (split; [rewrite Len; exact P2|]);
    (split; [discriminate|]).
  - pose proof (proj1 B1 eq_refl).
    repeat split; try reflexivity; intros;
      solve [exfalso; eauto | contradiction].
  - pose proof (proj1 B2 eq_refl).
    assert (N1 : ~ starts_with BOM_UTF16LE (Buf.valid (raw_input p1)))
      by (intros X; apply B1 in X; discriminate).
    repeat split; try reflexivity; intros;
      solve [exfalso; eauto | contradiction].
  - pose proof (proj1 B3 eq_refl).
    assert (N1 : ~ starts_with BOM_UTF16LE (Buf.valid (raw_input p1)))
      by (intros X; apply B1 in X; discriminate).
    assert (N2 : ~ starts_with BOM_UTF16BE (Buf.valid (raw_input p1)))
      by (intros X; apply B2 in X; discriminate).
    repeat split; try reflexivity; intros;
      solve [exfalso; eauto | contradiction].
  - split; [intros X; apply B1 in X; discriminate|].
    split; [intros X; apply B2 in X; discriminate|].
    split; [intros X; apply B3 in X; discriminate|].
    intros _ _ _. split; [reflexivity|]. split; [exact P1 | congruence].
Qed.

(** Once the encoding is known, [yaml_parser_update_buffer] goes straight
    to its buffers; and nothing it does changes the encoding again. *)
Lemma update_buffer_known_encoding p fuel len :
  encoding p <> YAML_ANY_ENCODING ->
  yaml_parser_update_buffer reader fuel len p
  = if is_eof p && (Buf.pointer (raw_input p) =? Buf.length (raw_input p))
    then Ok p
    else if len <=? unread p then Ok p
    else fill_buffer reader fuel len (move_unread p).
Proof.
  intros H. unfold yaml_parser_update_buffer.
  destruct (encoding p); [contradiction| | |]; reflexivity.
Qed.

(** ** The admissibility gate *)

Lemma allowed_admissible v : allowed v = true <-> admissible v.
Proof.
  unfold allowed, admissible.
  rewrite !orb_true_iff, !andb_true_iff, !Z.eqb_eq, !Z.leb_le. tauto.
Qed.

(** C6.  A character that came out of the decoder of any encoding goes
    past the gate exactly when its value is admissible; any other value,
    NUL among them, fails with "Control characters are not allowed". *)
Theorem admissibility_gate p v w :
  decode_char p = Decoded v w ->
  (admissible v <-> forall q, decode_round p <> Return0 q)
  /\ (~ admissible v ->
      decode_round p
      = Return0 (DECODER_ERROR_INIT p "Control characters are not allowed"
                   (offset p) v)).
Proof.
  intros E. unfold decode_round. rewrite E.
  pose proof (allowed_admissible v) as A.
  destruct (allowed v); cbn [negb].
  - split.
    + split; [|intros _; now apply A].
      intros _ q. destruct (put_char _ _); discriminate.
    + intros N. exfalso. apply N. now apply A.
  - assert (N : ~ admissible v) by (intros X; apply A in X; discriminate).
    split; [|reflexivity].
    split; [contradiction|]. intros H. exfalso. eapply H. reflexivity.
Qed.

(** ** Storing a character *)

(** One store into the text buffer, when there is room. *)
Lemma put_spec (b : Buf.t) x :
  Buf.length b < Buf.capacity b ->
  List.length (Buf.buffer b) = Buf.capacity b ->
  (0 <= x < 256)%Z ->
  exists b',
    put b x = Some b'
    /\ Buf.valid b' = Buf.valid b ++ [x]
    /\ Buf.length b' = S (Buf.length b)
    /\ Buf.pointer b' = Buf.pointer b
    /\ Buf.capacity b' = Buf.capacity b
    /\ List.length (Buf.buffer b') = Buf.capacity b'.
Proof.
  intros Hl Hb Hx. unfold put.
  destruct (Nat.ltb_spec (Buf.length b) (Buf.capacity b)) as [_|]; [|lia].
  eexists. split; [reflexivity|].
  rewrite Z.mod_small by exact Hx.
  unfold Buf.valid. cbn [Buf.length Buf.buffer Buf.pointer Buf.capacity].
  repeat split.
  - replace (S (Buf.length b)) with (Buf.length b + List.length [x])
      by (cbn; lia).
    apply firstn_write_at. lia.
  - rewrite write_at_length; [exact Hb | cbn; lia].
Qed.

Lemma utf8_octets_length v :
  List.length (utf8_octets v)
  = if (v <=? 0x7F)%Z then 1
    else if (v <=? 0x7FF)%Z then 2
    else if (v <=? 0xFFFF)%Z then 3 else 4.
Proof.
  unfold utf8_octets.
  repeat match goal with
         | |- context [if ?c then _ else _] => destruct c
         end; reflexivity.
Qed.

Ltac put_next H :=
  match goal with
  | |- context [put ?b ?x] =>
      let b' := fresh "b" in
      let E := fresh "E" in
      let V := fresh "V" in
      let L := fresh "L" in
      let P := fresh "P" in
      let C := fresh "C" in
      let B := fresh "B" in
      destruct (put_spec b x) as (b' & E & V & L & P & C & B);
      [ try lia | try lia | H | rewrite E; cbn [and_then] ]
  end.

(** The stores of one character put its UTF-8 octets after the text. *)
Lemma put_char_spec (b : Buf.t) v :
  (0 <= v <= 0x10FFFF)%Z ->
  List.length (Buf.buffer b) = Buf.capacity b ->
  Buf.length b + List.length (utf8_octets v) <= Buf.capacity b ->
  exists b',
    put_char b v = Some b'
    /\ Buf.valid b' = Buf.valid b ++ utf8_octets v
    /\ Buf.length b' = Buf.length b + List.length (utf8_octets v)
    /\ Buf.pointer b' = Buf.pointer b
    /\ Buf.capacity b' = Buf.capacity b
    /\ List.length (Buf.buffer b') = Buf.capacity b'.
Proof.
  intros Hv Hb Hr. unfold put_char.
  rewrite utf8_octets_length in Hr. unfold utf8_octets.
  rewrite land_3F, !shiftr_n by lia.
  change (Z.land (v / 2 ^ 6) 63) with (Z.land (v / 2 ^ 6) 0x3F).
  change (Z.land (v / 2 ^ 12) 63) with (Z.land (v / 2 ^ 12) 0x3F).
  rewrite !land_3F.
  change (2 ^ 6)%Z with 64%Z. change (2 ^ 12)%Z with 4096%Z.
  change (2 ^ 18)%Z with 262144%Z.
  destruct (Z.leb_spec v 0x7F); [|destruct (Z.leb_spec v 0x7FF);
                                  [|destruct (Z.leb_spec v 0xFFFF)]].
  - put_next ltac:(lia).
    eexists. split; [reflexivity|]. cbn [List.length].
    repeat split; try congruence; lia.
  - put_next ltac:(Z.div_mod_to_equations; lia).
    put_next ltac:(Z.div_mod_to_equations; lia).
    eexists. split; [reflexivity|]. cbn [List.length].
    repeat split; try congruence; try lia.
    rewrite V0, V, <- app_assoc. reflexivity.
  - put_next ltac:(Z.div_mod_to_equations; lia).
    put_next ltac:(Z.div_mod_to_equations; lia).
    put_next ltac:(Z.div_mod_to_equations; lia).
    eexists. split; [reflexivity|]. cbn [List.length].
    repeat split; try congruence; try lia.
    rewrite V1, V0, V, <- !app_assoc. reflexivity.
  - put_next ltac:(Z.div_mod_to_equations; lia).
    put_next ltac:(Z.div_mod_to_equations; lia).
    put_next ltac:(Z.div_mod_to_equations; lia).
    put_next ltac:(Z.div_mod_to_equations; lia).
    eexists. split; [reflexivity|]. cbn [List.length].
    repeat split; try congruence; try lia.
    rewrite V2, V1, V0, V, <- !app_assoc. reflexivity.
Qed.

(** C7.  A character that is decoded and admissible, with room for its
    octets in the text buffer: the raw pointer and the stream offset each
    advance by the width consumed; the text grows by the UTF-8 octets of
    the value, 1 of them up to 0x7F, 2 up to 0x7FF, 3 up to 0xFFFF and 4
    above; [unread] grows by 1 whatever that number. *)
Theorem decoded_character_stored p v w :
  decode_char p = Decoded v w ->
  admissible v ->
  List.length (Buf.buffer (input p)) = Buf.capacity (input p) ->
  Buf.length (input p) + List.length (utf8_octets v)
  <= Buf.capacity (input p) ->
  exists p',
    decode_round p = Continue p'
    /\ Buf.pointer (raw_input p') = Buf.pointer (raw_input p) + w
    /\ offset p' = offset p + w
    /\ Buf.valid (input p') = Buf.valid (input p) ++ utf8_octets v
    /\ Buf.length (input p')
       = Buf.length (input p) + List.length (utf8_octets v)
    /\ List.length (utf8_octets v)
       = (if (v <=? 0x7F)%Z then 1
          else if (v <=? 0x7FF)%Z then 2
          else if (v <=? 0xFFFF)%Z then 3 else 4)
    /\ unread p' = S (unread p)
    /\ Buf.pointer (input p') = Buf.pointer (input p)
    /\ Buf.length (raw_input p') = Buf.length (raw_input p)
    /\ Buf.buffer (raw_input p') = Buf.buffer (raw_input p).
Proof.
  intros E A Hb Hr. unfold decode_round. rewrite E.
  rewrite (proj2 (allowed_admissible v) A). cbn [negb].
  cbn [input set_offset set_raw_input unread offset raw_input].
  assert (Hv : (0 <= v <= 0x10FFFF)%Z) by (unfold admissible in A; lia).
  destruct (put_char_spec (input p) v Hv Hb Hr)
    as (b' & -> & V & L & P & C & B).
  eexists. split; [reflexivity|].
  cbn [raw_input set_unread set_input set_offset set_raw_input Buf.pointer
         Buf.set_pointer offset input unread Buf.length Buf.buffer].
  repeat split; try assumption. apply utf8_octets_length.
Qed.

(** ** A character cut short *)

Lemma incomplete_not_eof p : decode_char p = Incomplete -> is_eof p = false.
Proof.
  unfold decode_char, decode_utf8, decode_utf16.
  destruct (is_eof p); [|reflexivity].
  destruct (encoding p);
    repeat match goal with
           | |- context [if ?c then _ else _] => destruct c
           | |- context [match ?c with inl _ => _ | inr _ => _ end] =>
               destruct c as [?|[? ?]]
           end; discriminate.
Qed.

Lemma decode_utf8_short (raw : nat -> Z) n eof off :
  utf8_width (raw 0) <> 0 -> n < utf8_width (raw 0) ->
  decode_utf8 raw n eof off
  = if eof then Invalid "Incomplete UTF-8 octet sequence" off (-1)
    else Incomplete.
Proof.
  intros H0 Hn. unfold decode_utf8.
  destruct (Nat.eqb_spec (utf8_width (raw 0)) 0) as [|_]; [contradiction|].
  destruct (Nat.ltb_spec n (utf8_width (raw 0))) as [_|]; [reflexivity|lia].
Qed.

Lemma decode_utf16_short le (raw : nat -> Z) n eof off :
  (forall k, 0 <= raw k < 256)%Z ->
  n < 2 \/ (n < 4 /\ (0xD800 <= utf16_unit le raw 0 <= 0xDBFF)%Z) ->
  exists msg,
    In msg incomplete_reports
    /\ decode_utf16 le raw n eof off
       = if eof then Invalid msg off (-1) else Incomplete.
Proof.
  intros Hb H.
  destruct (Nat.ltb_spec n 2) as [Hn | Hn].
  - exists "Incomplete UTF-16 character"%string.
    split; [right; left; reflexivity|].
    unfold decode_utf16.
    destruct (Nat.ltb_spec n 2) as [_|]; [reflexivity|lia].
  - destruct H as [|[H4 Hu]]; [lia|].
    exists "Incomplete UTF-16 surrogate pair"%string.
    split; [right; right; left; reflexivity|].
    rewrite decode_utf16_units by exact Hn. cbv zeta.
    pose proof (utf16_unit_range le raw 0 Hb) as Hr.
    pose proof (low_surrogate_test _ Hr) as L.
    pose proof (high_surrogate_test _ Hr) as T.
    destruct (Z.land (utf16_unit le raw 0) 0xFC00 =? 0xDC00)%Z.
    { assert (0xDC00 <= utf16_unit le raw 0 <= 0xDFFF)%Z
        by now apply L. lia. }
    rewrite (proj2 T Hu).
    destruct (Nat.ltb_spec n 4) as [_|]; [reflexivity|lia].
Qed.

(** A decode attempt on a raw buffer that holds fewer octets than the
    character at its pointer requires.  Before EOF the character is
    incomplete: the round breaks out of the pass and the pass returns 1
    with the state as it was, nothing reported.  At EOF the round fails
    with one of the three "Incomplete ..." reports, at the offset of the
    character. *)
Lemma short_buffer_outcome p :
  octets (Buf.buffer (raw_input p)) ->
  falls_short p ->
  (is_eof p = false ->
   decode_char p = Incomplete
   /\ decode_round p = Break p
   /\ (forall fuel, decode_raw_buffer (S fuel) p = Ok p))
  /\ (is_eof p = true ->
      exists msg,
        In msg incomplete_reports
        /\ decode_round p
           = Return0 (DECODER_ERROR_INIT p msg (offset p) (-1))
        /\ (Buf.pointer (raw_input p) <> Buf.length (raw_input p) ->
            forall fuel,
              decode_raw_buffer (S fuel) p
              = Fail (DECODER_ERROR_INIT p msg (offset p) (-1)))).
Proof.
  intros Ho Hs.
  assert (Hb : forall k, (0 <= raw_at p k < 256)%Z)
    by (intros k; now apply raw_at_octet).
  assert (D : exists msg,
             In msg incomplete_reports
             /\ decode_char p
                = if is_eof p then Invalid msg (offset p) (-1)
                  else Incomplete).
  { unfold falls_short in Hs. unfold decode_char.
    destruct (encoding p); [contradiction| | |].
    - destruct Hs as [H0 Hn].
      rewrite <- utf8_width_pattern in H0, Hn by apply Hb.
      exists "Incomplete UTF-8 octet sequence"%string.
      split; [left; reflexivity|]. now apply decode_utf8_short.
    - now apply decode_utf16_short.
    - now apply decode_utf16_short. }
  destruct D as (msg & Hm & D).
  split.
  - intros He. rewrite He in D.
    assert (B : decode_round p = Break p)
      by (unfold decode_round; now rewrite D).
    split; [exact D|]. split; [exact B|].
    intros fuel. cbn [decode_raw_buffer]. rewrite B.
    now destruct (_ =? _).
  - intros He. rewrite He in D. exists msg. split; [exact Hm|].
    assert (B : decode_round p
                = Return0 (DECODER_ERROR_INIT p msg (offset p) (-1)))
      by now apply decode_round_invalid.
    split; [exact B|].
    intros Hne fuel. cbn [decode_raw_buffer]. rewrite B.
    destruct (Nat.eqb_spec (Buf.pointer (raw_input p))
                (Buf.length (raw_input p))); [contradiction|reflexivity].
Qed.

(** ** A character refused *)

Lemma decode_char_invalid_offset p msg off value :
  decode_char p = Invalid msg off value -> offset p <= off.
Proof.
  unfold decode_char, decode_utf8, decode_utf16.
  destruct (encoding p);
    repeat match goal with
           | |- context [if ?c then _ else _] => destruct c
           | |- context [match ?c with inl _ => _ | inr _ => _ end] =>
               destruct c as [?|[? ?]]
           end; intros [=]; subst; lia.
Qed.

(** C10.  A round that ends in a decoder error leaves the raw buffer with
    its pointer, the stream offset, the text buffer and [unread] as they
    were when the round began; the report is a decoder error at an offset
    not before the character. *)
Theorem decoder_error_keeps_position p q :
  decode_round p = Return0 q ->
  Buf.pointer (raw_input q) = Buf.pointer (raw_input p)
  /\ offset q = offset p
  /\ raw_input q = raw_input p
  /\ input q = input p
  /\ unread q = unread p
  /\ error q = YAML_DECODER_ERROR
  /\ offset p <= problem_offset q.
Proof.
  unfold decode_round.
  destruct (decode_char p) as [v w| |msg off value] eqn:E.
  - destruct (allowed v); cbn [negb].
    + destruct (put_char _ _); discriminate.
    + intros [= <-]. cbn. repeat split. lia.
  - discriminate.
  - intros [= <-]. cbn. repeat split.
    now apply decode_char_invalid_offset in E.
Qed.

(** ** The states of a stream context *)

(** The cursors in order on both buffers, and no NUL in the text. *)
Local Abbreviation clean p :=
  (Buf.wf (raw_input p) /\ Buf.wf (input p)
   /\ ~ In 0%Z (Buf.valid (input p))).

Lemma update_raw_buffer_inv p p' :
  yaml_parser_update_raw_buffer reader p = Ok p' ->
  Buf.wf (raw_input p) ->
  Buf.wf (raw_input p')
  /\ input p' = input p /\ unread p' = unread p
  /\ (is_eof p = true -> p' = p).
Proof.
  unfold yaml_parser_update_raw_buffer, Buf.wf.
  destruct p as [d [rb rp rl rc] inp un enc off eof er pr po pv].
  cbn [raw_input Buf.pointer Buf.length Buf.capacity Buf.buffer is_eof
         reader_data offset set_raw_input Buf.set_pointer Buf.set_buffer
         Buf.set_length input unread].
  intros H (W1 & W2 & W3).
  destruct ((rp =? 0) && (rl =? rc)).
  { injection H as <-. cbn. repeat split; assumption. }
  destruct eof.
  { injection H as <-. cbn. repeat split; assumption. }
  set (rb' := if (0 <? rp) && (rp <? rl) then _ else _) in H.
  assert (B : Buf.buffer rb' = rb \/ Buf.buffer rb' = memmove rb 0 rp (rl - rp)).
  { unfold rb'. destruct ((0 <? rp) && (rp <? rl)); cbn; auto. }
  assert (L : List.length (Buf.buffer rb') = rc).
  { destruct B as [-> | ->]; [exact W3|]. now rewrite memmove_length. }
  assert (E : Buf.length rb' = rl /\ Buf.capacity rb' = rc).
  { unfold rb'. destruct ((0 <? rp) && (rp <? rl)); cbn; auto. }
  destruct E as [E1 E2]. clear B. clearbody rb'.
  destruct rb' as [b1 p1 l1 c1].
  cbn [Buf.pointer Buf.length Buf.capacity Buf.buffer] in *. subst l1 c1.
  destruct (reader d (rc - rl)) as [[bs d']|]; [|discriminate].
  destruct (Nat.ltb_spec (rc - rl) (List.length bs)); [discriminate|].
  injection H as <-.
  destruct (List.length bs =? 0);
    cbn [raw_input set_is_eof set_raw_input set_reader_data input unread
           Buf.pointer Buf.length Buf.capacity Buf.buffer is_eof
           Buf.set_length Buf.set_buffer Buf.set_pointer];
    (split; [|split; [reflexivity|split; [reflexivity|discriminate]]]);
    (split; [lia|split; [lia|]]);
    rewrite write_at_length; lia.
Qed.

Lemma determine_encoding_fill_inv fuel :
  forall p p',
    determine_encoding_fill reader fuel p = Ok p' ->
    Buf.wf (raw_input p) ->
    Buf.wf (raw_input p') /\ input p' = input p /\ unread p' = unread p.
Proof.
  induction fuel as [|fuel IH]; intros p p'; cbn [determine_encoding_fill];
    destruct (negb (is_eof p) && (Buf.length (raw_input p) <? 3));
    try discriminate; try (intros [= <-]; now auto).
  destruct (yaml_parser_update_raw_buffer reader p) as [p1| | |] eqn:E;
    try discriminate.
  intros H W.
  destruct (update_raw_buffer_inv p p1 E W) as (W1 & I1 & U1 & _).
  destruct (IH p1 p' H W1) as (W2 & I2 & U2).
  split; [exact W2 | split; congruence].
Qed.

Lemma determine_encoding_inv fuel p p' :
  yaml_parser_determine_encoding reader fuel p = Ok p' ->
  Buf.wf (raw_input p) ->
  Buf.wf (raw_input p') /\ input p' = input p /\ unread p' = unread p.
Proof.
  unfold yaml_parser_determine_encoding.
  destruct (determine_encoding_fill reader fuel p) as [p1| | |] eqn:E;
    try discriminate.
  intros [= <-] W.
  destruct (determine_encoding_fill_inv fuel p p1 E W) as (W1 & I1 & U1).
  unfold determine_encoding_select.
  destruct (Nat.leb_spec 2 (Buf.length (raw_input p1)));
    destruct (Nat.leb_spec 3 (Buf.length (raw_input p1)));
    cbn [andb];
    repeat match goal with
           | |- context [if ?c then _ else _] => destruct c
           end;
    cbn [raw_input input unread set_offset set_raw_input set_encoding];
    (split; [|split; assumption]);
    unfold Buf.wf in *; cbn [Buf.set_pointer Buf.pointer Buf.length
                               Buf.capacity Buf.buffer]; lia.
Qed.

Lemma put_inv (b b' : Buf.t) x :
  put b x = Some b' -> Buf.wf b ->
  Buf.wf b'
  /\ Buf.valid b' = Buf.valid b ++ [(x mod 256)%Z]
  /\ Buf.pointer b' = Buf.pointer b.
Proof.
  unfold put, Buf.wf, Buf.valid.
  destruct (Nat.ltb_spec (Buf.length b) (Buf.capacity b)); [|discriminate].
  intros [= <-] (W1 & W2 & W3).
  cbn [Buf.pointer Buf.length Buf.capacity Buf.buffer].
  split; [|split; [|reflexivity]].
  - split; [lia|]. split; [lia|].
    rewrite write_at_length; [exact W3 | cbn; lia].
  - replace (S (Buf.length b))
      with (Buf.length b + List.length [(x mod 256)%Z]) by (cbn; lia).
    apply firstn_write_at. lia.
Qed.

Ltac put_inverted H W V P :=
  match type of H with
  | and_then (put ?b ?x) _ = Some _ =>
      let b' := fresh "b" in
      let E := fresh "E" in
      destruct (put b x) as [b'|] eqn:E; [|discriminate H];
      cbn [and_then] in H;
      apply put_inv in E as (W & V & P); [|assumption]
  | put ?b ?x = Some _ =>
      apply put_inv in H as (W & V & P); [|assumption]
  end.

Ltac not_nul X :=
  repeat (apply in_app_or in X as [X|[X|[]]];
          [|revert X; Z.div_mod_to_equations; lia]).

Lemma put_char_inv (b b' : Buf.t) v :
  put_char b v = Some b' -> allowed v = true ->
  Buf.wf b -> ~ In 0%Z (Buf.valid b) ->
  Buf.wf b' /\ ~ In 0%Z (Buf.valid b') /\ Buf.pointer b' = Buf.pointer b.
Proof.
  intros H A W N.
  apply allowed_admissible in A.
  assert (Hv : (9 <= v <= 0x10FFFF)%Z) by (unfold admissible in A; lia).
  revert H. unfold put_char.
  rewrite land_3F, !shiftr_n by lia.
  change (Z.land (v / 2 ^ 6) 63) with (Z.land (v / 2 ^ 6) 0x3F).
  change (Z.land (v / 2 ^ 12) 63) with (Z.land (v / 2 ^ 12) 0x3F).
  rewrite !land_3F.
  change (2 ^ 6)%Z with 64%Z. change (2 ^ 12)%Z with 4096%Z.
  change (2 ^ 18)%Z with 262144%Z.
  destruct (Z.leb_spec v 0x7F) as [R1|R1];
    [|destruct (Z.leb_spec v 0x7FF) as [R2|R2];
      [|destruct (Z.leb_spec v 0xFFFF) as [R3|R3]]];
    intros H.
  - put_inverted H W1 V1 P1.
    split; [exact W1|]. split; [|congruence].
    rewrite V1. intros X. not_nul X. tauto.
  - put_inverted H W1 V1 P1. put_inverted H W2 V2 P2.
    split; [exact W2|]. split; [|congruence].
    rewrite V2, V1. intros X. not_nul X. tauto.
  - put_inverted H W1 V1 P1. put_inverted H W2 V2 P2.
    put_inverted H W3 V3 P3.
    split; [exact W3|]. split; [|congruence].
    rewrite V3, V2, V1. intros X. not_nul X. tauto.
  - put_inverted H W1 V1 P1. put_inverted H W2 V2 P2.
    put_inverted H W3 V3 P3. put_inverted H W4 V4 P4.
    split; [exact W4|]. split; [|congruence].
    rewrite V4, V3, V2, V1. intros X. not_nul X. tauto.
Qed.

Lemma decode_utf16_width le (raw : nat -> Z) n eof off v w :
  decode_utf16 le raw n eof off = Decoded v w -> w <= n.
Proof.
  unfold decode_utf16.
  destruct (Nat.ltb_spec n 2); [destruct eof; discriminate|].
  destruct (Z.land _ 0xFC00 =? 0xDC00)%Z; [discriminate|].
  destruct (Z.land _ 0xFC00 =? 0xD800)%Z.
  - destruct (Nat.ltb_spec n 4); [destruct eof; discriminate|].
    destruct (negb _); [discriminate|].
    intros X. injection X as _ <-. assumption.
  - intros X. injection X as _ <-. assumption.
Qed.

Lemma decode_utf8_width (raw : nat -> Z) n eof off v w :
  decode_utf8 raw n eof off = Decoded v w -> w <= n.
Proof.
  unfold decode_utf8.
  destruct (utf8_width (raw 0) =? 0); [discriminate|].
  destruct (Nat.ltb_spec n (utf8_width (raw 0)));
    [destruct eof; discriminate|].
  destruct (utf8_trailing _ _ _ _) as [?|[? ?]]; [|discriminate].
  destruct (negb _); [discriminate|].
  destruct (_ || _); [discriminate|].
  intros X. injection X as _ <-. assumption.
Qed.

(** A character that goes past the gate was wholly in the raw buffer. *)
Lemma decoded_width p v w :
  decode_char p = Decoded v w -> allowed v = true -> w <= raw_unread p.
Proof.
  unfold decode_char.
  destruct (encoding p); intros H A.
  - injection H as <- <-. discriminate.
  - now apply decode_utf8_width in H.
  - now apply decode_utf16_width in H.
  - now apply decode_utf16_width in H.
Qed.

Lemma decode_round_continue p p' :
  decode_round p = Continue p' -> clean p ->
  clean p' /\ is_eof p' = is_eof p.
Proof.
  unfold decode_round.
  destruct (decode_char p) as [v w| |] eqn:E; try discriminate.
  destruct (allowed v) eqn:A; cbn [negb]; [|discriminate].
  cbn [input set_offset set_raw_input].
  destruct (put_char (input p) v) as [b|] eqn:Ep; [|discriminate].
  intros [= <-] (W1 & W2 & N).
  destruct (put_char_inv _ _ _ Ep A W2 N) as (W3 & N3 & _).
  pose proof (decoded_width p v w E A) as Hw. unfold raw_unread in Hw.
  cbn [raw_input input is_eof set_unread set_input set_offset
         set_raw_input].
  split; [|reflexivity]. split; [|split; assumption].
  unfold Buf.wf in *.
  cbn [Buf.set_pointer Buf.pointer Buf.length Buf.capacity Buf.buffer]. lia.
Qed.

Lemma decode_raw_buffer_inv fuel :
  forall p p',
    decode_raw_buffer fuel p = Ok p' -> clean p ->
    clean p' /\ is_eof p' = is_eof p
    /\ (is_eof p' = true
        -> Buf.pointer (raw_input p') = Buf.length (raw_input p')).
Proof.
  induction fuel as [|fuel IH]; intros p p'; cbn [decode_raw_buffer];
    destruct (Nat.eqb_spec (Buf.pointer (raw_input p))
                (Buf.length (raw_input p))) as [Ed|Ed];
    try discriminate; try (intros [= <-] C; now auto).
  destruct (decode_round p) as [p1|p1|p1|] eqn:E; try discriminate.
  - intros H C.
    destruct (decode_round_continue p p1 E C) as (C1 & E1).
    destruct (IH p1 p' H C1) as (C2 & E2 & D2).
    split; [exact C2|]. split; [congruence | exact D2].
  - intros [= <-] C.
    assert (p1 = p /\ is_eof p = false) as [-> F].
    { revert E. unfold decode_round.
      destruct (decode_char p) eqn:D; try discriminate.
      - destruct (negb (allowed value)); [discriminate|].
        destruct (put_char _ _); discriminate.
      - intros [= <-]. split; [reflexivity|].
        now apply incomplete_not_eof. }
    split; [exact C|]. split; [reflexivity|]. congruence.
Qed.

Lemma In_firstn (l : list Z) n x : In x (firstn n l) -> In x l.
Proof. intros H. rewrite <- (firstn_skipn n l). apply in_or_app. now left. Qed.

Lemma In_skipn (l : list Z) n x : In x (skipn n l) -> In x l.
Proof. intros H. rewrite <- (firstn_skipn n l). apply in_or_app. now right. Qed.

Lemma firstn_skipn_sub (l : list Z) k n x :
  k <= n -> In x (firstn (n - k) (skipn k l)) -> In x (firstn n l).
Proof.
  intros Hk H. rewrite firstn_skipn_comm in H.
  replace (k + (n - k)) with n in H by lia.
  now apply In_skipn in H.
Qed.

Lemma move_unread_inv p :
  clean p ->
  clean (move_unread p)
  /\ is_eof (move_unread p) = is_eof p
  /\ unread (move_unread p) = unread p.
Proof.
  intros (W1 & W2 & N). unfold move_unread.
  destruct ((0 <? Buf.pointer (input p))
            && (Buf.pointer (input p) <? Buf.length (input p))) eqn:T;
    [|destruct (Buf.pointer (input p) =? Buf.length (input p))];
    cbn [raw_input input is_eof unread set_input];
    (split; [|split; reflexivity]); (split; [exact W1|]);
    unfold Buf.wf, Buf.valid in *;
    cbn [Buf.pointer Buf.length Buf.capacity Buf.buffer].
  - split.
    + rewrite memmove_length. lia.
    + rewrite firstn_memmove by lia.
      intros X. apply N.
      apply (firstn_skipn_sub (Buf.buffer (input p)) (Buf.pointer (input p))
               (Buf.length (input p)) 0%Z); [lia | exact X].
  - split; [lia|]. cbn [firstn]. tauto.
  - split; assumption.
Qed.

Lemma put_nul_inv p p' :
  put_nul p = Ok p' -> clean p ->
  Buf.wf (raw_input p') /\ Buf.wf (input p')
  /\ Buf.valid (input p') = Buf.valid (input p) ++ [0%Z]
  /\ raw_input p' = raw_input p /\ is_eof p' = is_eof p.
Proof.
  unfold put_nul. destruct (put (input p) 0) as [b|] eqn:E; [|discriminate].
  intros [= <-] (W1 & W2 & N).
  destruct (put_inv _ _ _ E W2) as (W3 & V & _).
  cbn [raw_input input is_eof set_unread set_input].
  split; [exact W1|]. split; [exact W3|]. split; [exact V|]. now split.
Qed.

Lemma fill_buffer_inv len fuel :
  forall p p',
    fill_buffer reader fuel len p = Ok p' -> clean p ->
    (is_eof p = true -> unread p < len) ->
    context_inv p'.
Proof.
  assert (Done : forall p, clean p -> (is_eof p = true -> unread p < len) ->
                           len <= unread p -> context_inv p).
  { intros p (W1 & W2 & N) He Hl.
    assert (F : is_eof p = false).
    { destruct (is_eof p); [|reflexivity]. specialize (He eq_refl). lia. }
    split; [exact W1|]. split; [exact W2|].
    split; [intros _; exact N | congruence]. }
  induction fuel as [|fuel IH]; intros p p'; cbn [fill_buffer];
    destruct (Nat.leb_spec len (unread p)) as [Hl|Hl];
    try discriminate; try (intros [= <-] C He; now apply Done).
  destruct (yaml_parser_update_raw_buffer reader p) as [p1| | |] eqn:E1;
    try discriminate.
  destruct (decode_raw_buffer (S fuel) p1) as [p2| | |] eqn:E2;
    try discriminate.
  intros H (W1 & W2 & N) _.
  destruct (update_raw_buffer_inv p p1 E1 W1) as (W3 & I3 & U3 & _).
  assert (C1 : clean p1) by (rewrite I3; auto).
  destruct (decode_raw_buffer_inv _ p1 p2 E2 C1) as (C2 & F2 & D2).
  destruct (is_eof p2) eqn:F.
  - destruct (put_nul_inv p2 p' H C2) as (W4 & W5 & V & Er & Ee).
    split; [exact W4|]. split; [exact W5|].
    split; [congruence|]. intros _. split.
    + split; [congruence|]. rewrite Er. now apply D2.
    + exists (Buf.valid (input p2)). split; [exact V | apply C2].
  - apply (IH p2 p' H C2). congruence.
Qed.

Lemma update_buffer_inv fuel len p p' :
  context_inv p ->
  yaml_parser_update_buffer reader fuel len p = Ok p' ->
  context_inv p'.
Proof.
  intros I. unfold yaml_parser_update_buffer.
  destruct (is_eof p && (Buf.pointer (raw_input p)
                         =? Buf.length (raw_input p))) eqn:T1;
    [intros [= <-]; exact I|].
  destruct (Nat.leb_spec len (unread p)) as [|Hl]; [intros [= <-]; exact I|].
  destruct I as (W1 & W2 & N & F).
  assert (E : is_eof p = false).
  { destruct (is_eof p); [|reflexivity].
    destruct (F eq_refl) as [[_ D] _].
    rewrite D, Nat.eqb_refl in T1. discriminate. }
  specialize (N E).
  assert (forall q, Ok q = (match encoding p with
                            | YAML_ANY_ENCODING =>
                                yaml_parser_determine_encoding reader fuel p
                            | _ => Ok p
                            end) ->
                    clean q /\ unread q = unread p) as D.
  { intros q. destruct (encoding p);
      try (intros [= ->]; now auto).
    intros Eq. symmetry in Eq.
    destruct (determine_encoding_inv fuel p q Eq W1) as (W3 & I3 & U3).
    rewrite I3. auto. }
  destruct (match encoding p with
            | YAML_ANY_ENCODING => _
            | _ => _
            end) as [q| | |]; try discriminate.
  destruct (D q eq_refl) as (C & U).
  destruct (move_unread_inv q C) as (C' & _ & U').
  intros H. apply (fill_buffer_inv len fuel _ p' H C'). intros _. lia.
Qed.

Lemma lifetime_inv p : lifetime reader p -> context_inv p.
Proof.
  induction 1 as [d rc c | p fuel len p' _ IH H | p p' _ IH H].
  - unfold context_inv, yaml_parser_new, Buf.wf, Buf.valid.
    cbn. rewrite !repeat_length.
    split; [lia|]. split; [lia|]. split; [tauto | discriminate].
  - exact (update_buffer_inv fuel len p p' IH H).
  - destruct H as [p ptr n H1 H2 H3].
    destruct IH as (W1 & W2 & N & F).
    unfold context_inv, finished, Buf.wf, Buf.valid in *.
    cbn [raw_input input is_eof set_unread set_input Buf.set_pointer
           Buf.pointer Buf.length Buf.capacity Buf.buffer].
    split; [exact W1|]. split; [lia|]. split; assumption.
Qed.

(** The cursors of both buffers stay in order through the life of a
    stream context, a run of calls that return 1: no subtraction of the
    source goes below zero.  (The bound of the text buffer by its capacity
    comes with the model, where a store past it is [Undefined]; the source
    does not test for it.) *)
Lemma update_buffer_wf p :
  lifetime reader p -> Buf.wf (raw_input p) /\ Buf.wf (input p).
Proof. intros H. destruct (lifetime_inv p H) as (W1 & W2 & _). now split. Qed.

Lemma count_occ_last (text : list Z) :
  ~ In 0%Z text -> count_occ Z.eq_dec (text ++ [0%Z]) 0%Z = 1.
Proof.
  intros N. rewrite count_occ_app.
  rewrite (proj1 (count_occ_not_In Z.eq_dec text 0%Z) N). reflexivity.
Qed.

(** C8.  In every state of a stream context, the text written so far
    holds one NUL when the EOF flag is set and none otherwise.  When it is
    set the raw buffer is drained, the NUL is the last octet of the text,
    and every further call returns 1 at once with the state untouched.  (A
    raw NUL never reaches the text, and the text is not moved once the
    stream is over, so the NULs of the text are the sentinels appended.) *)
Theorem sentinel_once p :
  lifetime reader p ->
  sentinels p = (if is_eof p then 1 else 0)
  /\ (is_eof p = true ->
      finished p
      /\ (exists text, Buf.valid (input p) = text ++ [0%Z])
      /\ forall fuel len, yaml_parser_update_buffer reader fuel len p = Ok p).
Proof.
  intros H. destruct (lifetime_inv p H) as (W1 & W2 & N & F).
  unfold sentinels. destruct (is_eof p) eqn:E.
  - destruct (F eq_refl) as ([_ D] & text & V & Nt).
    split; [rewrite V; now apply count_occ_last|].
    intros _. split; [split; [exact E | exact D]|].
    split; [now exists text|].
    intros fuel len. unfold yaml_parser_update_buffer.
    rewrite E, D, Nat.eqb_refl. reflexivity.
  - split; [|discriminate].
    apply count_occ_not_In. now apply N.
Qed.

(** ** What a call keeps and what it reports *)

Lemma Decoded_inj v w v' w' :
  Decoded v w = Decoded v' w' -> v = v' /\ w = w'.
Proof. intros H. split; congruence. Qed.

Lemma utf8_trailing_index (raw : nat -> Z) todo :
  forall k value k' octet,
    utf8_trailing raw todo k value = inr (k', octet) -> k <= k' < k + todo.
Proof.
  induction todo as [|todo IH]; intros k value k' octet; cbn [utf8_trailing];
    [discriminate|].
  destruct (negb _).
  - intros [= <- _]. lia.
  - intros H. apply IH in H. lia.
Qed.

Lemma utf8_width_le_4 b : utf8_width b <= 4.
Proof.
  unfold utf8_width.
  repeat match goal with
         | |- context [if ?c then _ else _] => destruct c
         end; lia.
Qed.

(** The offset of a refusal lies inside the character refused. *)
Lemma decode_char_invalid_within p msg off value :
  decode_char p = Invalid msg off value -> offset p <= off <= offset p + 3.
Proof.
  unfold decode_char. destruct (encoding p); [discriminate| | |].
  - unfold decode_utf8.
    pose proof (utf8_width_le_4 (raw_at p 0)) as W.
    destruct (utf8_width (raw_at p 0) =? 0); [intros [= _ <- _]; lia|].
    destruct (raw_unread p <? utf8_width (raw_at p 0)).
    { destruct (is_eof p); [intros [= _ <- _]; lia | discriminate]. }
    destruct (utf8_trailing _ _ _ _) as [v|[k o]] eqn:T.
    + destruct (negb _); [intros [= _ <- _]; lia|].
      destruct (_ || _); [intros [= _ <- _]; lia | discriminate].
    + apply utf8_trailing_index in T. intros [= _ <- _]. lia.
  - unfold decode_utf16.
    destruct (raw_unread p <? 2).
    { destruct (is_eof p); [intros [= _ <- _]; lia | discriminate]. }
    destruct (Z.land _ 0xFC00 =? 0xDC00)%Z; [intros [= _ <- _]; lia|].
    destruct (Z.land _ 0xFC00 =? 0xD800)%Z; [|discriminate].
    destruct (raw_unread p <? 4).
    { destruct (is_eof p); [intros [= _ <- _]; lia | discriminate]. }
    destruct (negb _); [intros [= _ <- _]; lia | discriminate].
  - unfold decode_utf16.
    destruct (raw_unread p <? 2).
    { destruct (is_eof p); [intros [= _ <- _]; lia | discriminate]. }
    destruct (Z.land _ 0xFC00 =? 0xDC00)%Z; [intros [= _ <- _]; lia|].
    destruct (Z.land _ 0xFC00 =? 0xD800)%Z; [|discriminate].
    destruct (raw_unread p <? 4).
    { destruct (is_eof p); [intros [= _ <- _]; lia | discriminate]. }
    destruct (negb _); [intros [= _ <- _]; lia | discriminate].
Qed.

(** What a state keeps through decoding and moving text. *)
Local Abbreviation kept p p' :=
  (encoding p' = encoding p /\ is_eof p' = is_eof p
   /\ reader_data p' = reader_data p /\ same_report p p').

Lemma same_report_refl p : same_report p p.
Proof. repeat split. Qed.

Lemma same_report_trans p1 p2 p3 :
  same_report p1 p2 -> same_report p2 p3 -> same_report p1 p3.
Proof.
  unfold same_report. intros (A1 & A2 & A3 & A4) (B1 & B2 & B3 & B4).
  repeat split; congruence.
Qed.

Lemma decoded_width_range p v w :
  decode_char p = Decoded v w -> allowed v = true -> 1 <= w <= 4.
Proof.
  unfold decode_char. destruct (encoding p); intros H A.
  - injection H as <- <-. discriminate.
  - revert H. unfold decode_utf8.
    pose proof (utf8_width_le_4 (raw_at p 0)) as W.
    destruct (Nat.eqb_spec (utf8_width (raw_at p 0)) 0); [discriminate|].
    destruct (raw_unread p <? _); [destruct (is_eof p); discriminate|].
    destruct (utf8_trailing _ _ _ _) as [?|[? ?]]; [|discriminate].
    destruct (negb _); [discriminate|].
    destruct (_ || _); [discriminate|].
    intros X. apply Decoded_inj in X as [_ <-]. lia.
  - revert H. unfold decode_utf16.
    destruct (raw_unread p <? 2); [destruct (is_eof p); discriminate|].
    destruct (Z.land _ 0xFC00 =? 0xDC00)%Z; [discriminate|].
    destruct (Z.land _ 0xFC00 =? 0xD800)%Z.
    + destruct (raw_unread p <? 4); [destruct (is_eof p); discriminate|].
      destruct (negb _); [discriminate|].
      intros X. apply Decoded_inj in X as [_ <-]. lia.
    + intros X. apply Decoded_inj in X as [_ <-]. lia.
  - revert H. unfold decode_utf16.
    destruct (raw_unread p <? 2); [destruct (is_eof p); discriminate|].
    destruct (Z.land _ 0xFC00 =? 0xDC00)%Z; [discriminate|].
    destruct (Z.land _ 0xFC00 =? 0xD800)%Z.
    + destruct (raw_unread p <? 4); [destruct (is_eof p); discriminate|].
      destruct (negb _); [discriminate|].
      intros X. apply Decoded_inj in X as [_ <-]. lia.
    + intros X. apply Decoded_inj in X as [_ <-]. lia.
Qed.

(** A character is incomplete only with fewer than four octets at hand. *)
Lemma incomplete_short p : decode_char p = Incomplete -> raw_unread p < 4.
Proof.
  unfold decode_char. destruct (encoding p); [discriminate| | |].
  - unfold decode_utf8.
    pose proof (utf8_width_le_4 (raw_at p 0)) as W.
    destruct (utf8_width (raw_at p 0) =? 0); [discriminate|].
    destruct (Nat.ltb_spec (raw_unread p) (utf8_width (raw_at p 0)));
      [intros _; lia|].
    destruct (utf8_trailing _ _ _ _) as [?|[? ?]]; [|discriminate].
    destruct (negb _); [discriminate|].
    destruct (_ || _); discriminate.
  - unfold decode_utf16.
    destruct (Nat.ltb_spec (raw_unread p) 2); [intros _; lia|].
    destruct (Z.land _ 0xFC00 =? 0xDC00)%Z; [discriminate|].
    destruct (Z.land _ 0xFC00 =? 0xD800)%Z; [|discriminate].
    destruct (Nat.ltb_spec (raw_unread p) 4); [intros _; lia|].
    destruct (negb _); discriminate.
  - unfold decode_utf16.
    destruct (Nat.ltb_spec (raw_unread p) 2); [intros _; lia|].
    destruct (Z.land _ 0xFC00 =? 0xDC00)%Z; [discriminate|].
    destruct (Z.land _ 0xFC00 =? 0xD800)%Z; [|discriminate].
    destruct (Nat.ltb_spec (raw_unread p) 4); [intros _; lia|].
    destruct (negb _); discriminate.
Qed.

(** One round: a character stored moves pointer and offset together and
    keeps the rest; a refusal reports inside the character. *)
Lemma decode_round_kept p :
  match decode_round p with
  | Continue p' =>
      kept p p'
      /\ exists w, 1 <= w <= 4 /\ w <= raw_unread p
                   /\ Buf.pointer (raw_input p')
                      = Buf.pointer (raw_input p) + w
                   /\ offset p' = offset p + w
                   /\ Buf.length (raw_input p') = Buf.length (raw_input p)
                   /\ unread p' = S (unread p)
                   /\ raw_input p'
                      = Buf.set_pointer (raw_input p)
                          (Buf.pointer (raw_input p) + w)
  | Break p' => p' = p /\ is_eof p = false /\ raw_unread p < 4
  | Return0 q =>
      exists msg off v,
        q = DECODER_ERROR_INIT p msg off v /\ offset p <= off <= offset p + 3
  | Overflow => True
  end.
Proof.
  unfold decode_round.
  destruct (decode_char p) as [v w| |msg off value] eqn:E.
  - destruct (allowed v) eqn:A; cbn [negb].
    + cbn [input set_offset set_raw_input].
      destruct (put_char (input p) v); [|exact I].
      split; [repeat split|].
      exists w. split; [exact (decoded_width_range p v w E A)|].
      split; [exact (decoded_width p v w E A)|]. repeat split.
    + exists "Control characters are not allowed"%string, (offset p), v.
      split; [reflexivity | lia].
  - split; [reflexivity|].
    split; [now apply incomplete_not_eof | now apply incomplete_short].
  - exists msg, off, value. split; [reflexivity|].
    now apply decode_char_invalid_within in E.
Qed.

(** A decode pass: on return pointer and offset have moved together, and
    all else that is not text is kept. *)
Lemma decode_raw_buffer_kept fuel :
  forall p,
    ends
      (fun p' =>
         kept p p'
         /\ offset p' + Buf.pointer (raw_input p)
            = offset p + Buf.pointer (raw_input p')
         /\ offset p <= offset p'
         /\ unread p <= unread p'
         /\ (is_eof p' = true
             -> Buf.pointer (raw_input p') = Buf.length (raw_input p')))
      (fun q =>
         sticky_eof p q /\ encoding q = encoding p /\ offset p <= offset q
         /\ reported q)
      (decode_raw_buffer fuel p).
Proof.
  induction fuel as [|fuel IH]; intros p; cbn [decode_raw_buffer];
    destruct (Nat.eqb_spec (Buf.pointer (raw_input p))
                (Buf.length (raw_input p))) as [Ed|Ed];
    cbn [ends]; try exact I;
    try (split; [repeat split|]; split; [reflexivity|]; split; [lia|];
         split; [lia|]; intros _; exact Ed).
  pose proof (decode_round_kept p) as K.
  destruct (decode_round p) as [p1|p1|q|]; cbn [ends]; try exact I.
  - destruct K
      as ((K1 & K2 & K3 & K4) & w & Hw & Hr & Kp & Ko & Kl & Ku & _).
    specialize (IH p1).
    destruct (decode_raw_buffer fuel p1) as [p2|q| |]; cbn [ends] in *;
      try exact I.
    + destruct IH as ((J1 & J2 & J3 & J4) & Jo & Jm & Ju & Jd).
      split; [|split; [lia|split; [lia|split; [lia|exact Jd]]]].
      split; [congruence|]. split; [congruence|]. split; [congruence|].
      exact (same_report_trans _ _ _ K4 J4).
    + destruct IH as (S & Je & Jo & Jr).
      split; [|split; [congruence|split; [lia|exact Jr]]].
      intros E. destruct S as [S1 S2]; [congruence|]. split; congruence.
  - destruct K as (-> & F & _).
    split; [repeat split|]. split; [reflexivity|]. split; [lia|].
    split; [lia|]. congruence.
  - destruct K as (msg & off & v & -> & Ho).
    split; [intros E; now split|]. split; [reflexivity|].
    split; [cbn; lia|]. right. split; [reflexivity|]. cbn. exact Ho.
Qed.

Lemma update_raw_buffer_kept p :
  ends
    (fun p' =>
       encoding p' = encoding p /\ offset p' = offset p
       /\ same_report p p' /\ sticky_eof p p'
       /\ input p' = input p /\ unread p' = unread p)
    (fun q =>
       sticky_eof p q /\ encoding q = encoding p /\ offset q = offset p
       /\ reported q)
    (yaml_parser_update_raw_buffer reader p).
Proof.
  unfold yaml_parser_update_raw_buffer.
  destruct ((Buf.pointer (raw_input p) =? 0) && _).
  { cbn [ends]. repeat split; assumption. }
  destruct (is_eof p) eqn:He.
  { cbn [ends]. repeat split; assumption. }
  set (moved := if (0 <? Buf.pointer (raw_input p)) && _ then _ else _).
  cbn [set_raw_input reader_data offset].
  destruct (reader _ _) as [[bs d]|].
  - destruct (_ - _ <? List.length bs); [exact I|].
    cbn [ends].
    destruct (List.length bs =? 0); repeat split;
      unfold sticky_eof; cbn; congruence.
  - cbn [ends]. split; [unfold sticky_eof; cbn; congruence|].
    split; [reflexivity|]. split; [reflexivity|].
    left. repeat split.
Qed.

Lemma determine_encoding_fill_kept fuel :
  forall p,
    ends
      (fun p' =>
         encoding p' = encoding p /\ offset p' = offset p
         /\ same_report p p' /\ sticky_eof p p'
         /\ input p' = input p /\ unread p' = unread p)
      (fun q =>
         sticky_eof p q /\ encoding q = encoding p /\ offset q = offset p
         /\ reported q)
      (determine_encoding_fill reader fuel p).
Proof.
  induction fuel as [|fuel IH]; intros p; cbn [determine_encoding_fill];
    destruct (negb (is_eof p) && _) eqn:T; cbn [ends]; try exact I;
    try (repeat split; assumption).
  apply andb_prop in T as [T _]. apply negb_true_iff in T.
  pose proof (update_raw_buffer_kept p) as K.
  destruct (yaml_parser_update_raw_buffer reader p) as [p1|q| |];
    cbn [ends] in *; try exact I.
  - destruct K as (K1 & K2 & K3 & K4 & K5 & K6).
    specialize (IH p1).
    destruct (determine_encoding_fill reader fuel p1) as [p2|q| |];
      cbn [ends] in *; try exact I.
    + destruct IH as (J1 & J2 & J3 & J4 & J5 & J6).
      split; [congruence|]. split; [congruence|].
      split; [exact (same_report_trans _ _ _ K3 J3)|].
      split; [intros E; congruence|]. split; congruence.
    + destruct IH as (J1 & J2 & J3 & J4).
      split; [intros E; congruence|]. split; [congruence|].
      split; [congruence | exact J4].
  - exact K.
Qed.

Lemma determine_encoding_kept fuel p :
  ends
    (fun p' =>
       encoding p' <> YAML_ANY_ENCODING
       /\ same_report p p' /\ sticky_eof p p'
       /\ input p' = input p /\ unread p' = unread p)
    (fun q =>
       sticky_eof p q /\ encoding q = encoding p /\ offset q = offset p
       /\ reported q)
    (yaml_parser_determine_encoding reader fuel p).
Proof.
  unfold yaml_parser_determine_encoding.
  pose proof (determine_encoding_fill_kept fuel p) as K.
  destruct (determine_encoding_fill reader fuel p) as [p1|q| |];
    cbn [ends] in *; try exact I; [|exact K].
  destruct K as (K1 & K2 & K3 & K4 & K5 & K6).
  unfold determine_encoding_select.
  repeat match goal with
         | |- context [if ?c then _ else _] => destruct c
         end;
    (split; [discriminate|]); (split; [exact K3|]);
    (split; [exact K4|]); split; assumption.
Qed.

Lemma move_unread_kept p :
  kept p (move_unread p)
  /\ offset (move_unread p) = offset p
  /\ raw_input (move_unread p) = raw_input p
  /\ unread (move_unread p) = unread p.
Proof.
  unfold move_unread.
  repeat match goal with
         | |- context [if ?c then _ else _] => destruct c
         end; repeat split.
Qed.

(** The outer loop, from a state whose encoding it keeps. *)
Lemma fill_buffer_kept len fuel :
  forall p,
    ends
      (fun p' =>
         encoding p' = encoding p /\ offset p <= offset p'
         /\ same_report p p' /\ sticky_eof p p'
         /\ (len <= unread p' \/ finished p'))
      (fun q =>
         sticky_eof p q /\ encoding q = encoding p /\ offset p <= offset q
         /\ reported q)
      (fill_buffer reader fuel len p).
Proof.
  induction fuel as [|fuel IH]; intros p; cbn [fill_buffer];
    destruct (Nat.leb_spec len (unread p)) as [Hl|Hl]; cbn [ends];
    try exact I;
    try (split; [reflexivity|]; split; [lia|];
         split; [apply same_report_refl|];
         split; [intros E; now split | now left]).
  pose proof (update_raw_buffer_kept p) as K.
  destruct (yaml_parser_update_raw_buffer reader p) as [p1|q| |];
    cbn [ends] in *; try exact I.
  2:{ destruct K as (K1 & K2 & K3 & K4).
      split; [exact K1|]. split; [exact K2|]. split; [lia | exact K4]. }
  destruct K as (K1 & K2 & K3 & K4 & K5 & K6).
  pose proof (decode_raw_buffer_kept (S fuel) p1) as D.
  destruct (decode_raw_buffer (S fuel) p1) as [p2|q| |];
    cbn [ends] in *; try exact I.
  2:{ destruct D as (D1 & D2 & D3 & D4).
      split; [|split; [congruence|split; [lia|exact D4]]].
      intros E. destruct (K4 E) as [E1 E2].
      destruct (D1 E1) as [E3 E4]. split; congruence. }
  destruct D as ((D1 & D2 & D3 & D4) & Do & Dm & Du & Dd).
  assert (S12 : sticky_eof p p2).
  { intros E. destruct (K4 E) as [E1 E2]. split; congruence. }
  assert (O12 : offset p <= offset p2) by lia.
  destruct (is_eof p2) eqn:F.
  - unfold put_nul. destruct (put (input p2) 0); cbn [ends]; [|exact I].
    cbn [encoding offset is_eof reader_data set_unread set_input].
    split; [congruence|]. split; [exact O12|].
    split; [exact (same_report_trans _ _ _ K3 D4)|].
    split; [intros E; split; [exact F | now apply S12]|].
    right. split; [exact F|]. cbn. now apply Dd.
  - specialize (IH p2).
    destruct (fill_buffer reader fuel len p2) as [p3|q| |];
      cbn [ends] in *; try exact I.
    + destruct IH as (J1 & J2 & J3 & J4 & J5).
      split; [congruence|]. split; [lia|].
      split; [exact (same_report_trans _ _ _
                       (same_report_trans _ _ _ K3 D4) J3)|].
      split; [|exact J5].
      intros E. destruct (S12 E) as [E1 _]. congruence.
    + destruct IH as (J1 & J2 & J3 & J4).
      split; [|split; [congruence|split; [lia|exact J4]]].
      intros E. destruct (S12 E) as [E1 _]. congruence.
Qed.

Lemma update_buffer_kept fuel len p :
  ends
    (fun p' =>
       same_report p p' /\ sticky_eof p p'
       /\ (len <= unread p' \/ finished p')
       /\ (encoding p <> YAML_ANY_ENCODING ->
           encoding p' = encoding p /\ offset p <= offset p'))
    (fun q =>
       sticky_eof p q /\ reported q
       /\ (encoding p <> YAML_ANY_ENCODING ->
           encoding q = encoding p /\ offset p <= offset q))
    (yaml_parser_update_buffer reader fuel len p).
Proof.
  unfold yaml_parser_update_buffer.
  destruct (is_eof p && _) eqn:T1.
  { apply andb_prop in T1 as [E D]. apply Nat.eqb_eq in D. cbn [ends].
    split; [apply same_report_refl|]. split; [intros _; now split|].
    split; [right; now split|]. intros _. now split. }
  destruct (Nat.leb_spec len (unread p)) as [Hl|Hl].
  { cbn [ends]. split; [apply same_report_refl|].
    split; [intros E; now split|]. split; [now left|]. intros _. now split. }
  assert (D : ends
                (fun p1 =>
                   same_report p p1 /\ sticky_eof p p1
                   /\ (encoding p <> YAML_ANY_ENCODING ->
                       encoding p1 = encoding p /\ offset p1 = offset p))
                (fun q =>
                   sticky_eof p q /\ reported q
                   /\ (encoding p <> YAML_ANY_ENCODING ->
                       encoding q = encoding p /\ offset p <= offset q))
                match encoding p with
                | YAML_ANY_ENCODING =>
                    yaml_parser_determine_encoding reader fuel p
                | _ => Ok p
                end).
  { destruct (encoding p) eqn:Ee;
      try (cbn [ends]; split; [apply same_report_refl|];
           split; [intros E; now split|]; intros _; now split).
    pose proof (determine_encoding_kept fuel p) as K.
    destruct (yaml_parser_determine_encoding reader fuel p) as [p1|q| |];
      cbn [ends] in *; try exact I.
    - destruct K as (_ & K2 & K3 & _). split; [exact K2|].
      split; [exact K3|]. intros N. congruence.
    - destruct K as (K1 & _ & _ & K4). split; [exact K1|].
      split; [exact K4|]. intros N. congruence. }
  destruct (match encoding p with
            | YAML_ANY_ENCODING => _
            | _ => _
            end) as [p1|q| |]; cbn [ends] in *; try exact I; [|exact D].
  destruct D as (D1 & D2 & D3).
  destruct (move_unread_kept p1) as ((M1 & M2 & M3 & M4) & M5 & M6 & M7).
  pose proof (fill_buffer_kept len fuel (move_unread p1)) as F.
  destruct (fill_buffer reader fuel len (move_unread p1)) as [p2|q| |];
    cbn [ends] in *; try exact I.
  - destruct F as (F1 & F2 & F3 & F4 & F5).
    split; [exact (same_report_trans _ _ _
                     (same_report_trans _ _ _ D1 M4) F3)|].
    split.
    { intros E. destruct (D2 E) as [E1 E2].
      destruct F4 as [E3 E4]; [congruence|]. split; congruence. }
    split; [exact F5|].
    intros N. destruct (D3 N) as [N1 N2]. split; [congruence | lia].
  - destruct F as (F1 & F2 & F3 & F4).
    split.
    { intros E. destruct (D2 E) as [E1 E2].
      destruct F1 as [E3 E4]; [congruence|]. split; congruence. }
    split; [exact F4|].
    intros N. destruct (D3 N) as [N1 N2]. split; [congruence | lia].
Qed.

(** X1.  What a call that returns 1 guarantees: the number of unread
    characters asked for is there, or the stream is over (EOF seen and the
    raw buffer drained). *)
Theorem update_buffer_contract fuel len p p' :
  yaml_parser_update_buffer reader fuel len p = Ok p' ->
  len <= unread p' \/ finished p'.
Proof.
  intros H. pose proof (update_buffer_kept fuel len p) as K.
  rewrite H in K. apply K.
Qed.

(** X2.  A call that returns 1 leaves the error report of the parser as it
    was.  A call that returns 0 leaves a report: a reader error ("Input
    error", at the current offset, no value) or a decoder error whose
    offset lies in the character at the current offset (at most three
    octets further). *)
Theorem update_buffer_report fuel len p :
  (forall p', yaml_parser_update_buffer reader fuel len p = Ok p' ->
              same_report p p')
  /\ (forall q, yaml_parser_update_buffer reader fuel len p = Fail q ->
                reported q).
Proof.
  pose proof (update_buffer_kept fuel len p) as K.
  split; intros r H; rewrite H in K; apply K.
Qed.

(** X3.  The EOF flag is never cleared, and once it is set the read
    handler is not called again: whether a call then returns 1 or 0, the
    flag is still set and the state of the byte source is the same. *)
Theorem update_buffer_after_eof fuel len p p' :
  is_eof p = true ->
  yaml_parser_update_buffer reader fuel len p = Ok p'
  \/ yaml_parser_update_buffer reader fuel len p = Fail p' ->
  is_eof p' = true /\ reader_data p' = reader_data p.
Proof.
  intros E H. pose proof (update_buffer_kept fuel len p) as K.
  destruct H as [H|H]; rewrite H in K; now apply K.
Qed.

(** X4.  Once the encoding is known a call does not change it, and the
    stream offset never goes back, whether the call returns 1 or 0. *)
Theorem update_buffer_keeps_encoding fuel len p p' :
  encoding p <> YAML_ANY_ENCODING ->
  yaml_parser_update_buffer reader fuel len p = Ok p'
  \/ yaml_parser_update_buffer reader fuel len p = Fail p' ->
  encoding p' = encoding p /\ offset p <= offset p'.
Proof.
  intros N H. pose proof (update_buffer_kept fuel len p) as K.
  destruct H as [H|H]; rewrite H in K; now apply K.
Qed.

(** ** The two compactions *)

Lemma firstn_app_skipn (l : list Z) n k :
  k <= n ->
  firstn n (firstn (n - k) (skipn k l) ++ skipn (n - k) l)
  = firstn (n - k) (skipn k l) ++ firstn k (skipn (n - k) l).
Proof.
  intros Hk.
  destruct (Nat.le_gt_cases n (List.length l)) as [Hn|Hn].
  - rewrite firstn_app.
    assert (L : List.length (firstn (n - k) (skipn k l)) = n - k)
      by (rewrite length_firstn, length_skipn; lia).
    rewrite L. replace (n - (n - k)) with k by lia.
    f_equal. apply firstn_all2. lia.
  - (* the region reaches past the array: both sides stop at its end *)
    rewrite firstn_all2.
    2:{ rewrite length_app, length_firstn, !length_skipn. lia. }
    f_equal. symmetry. apply firstn_all2. rewrite length_skipn. lia.
Qed.

(** X5.  What a refill that calls the source leaves in the raw buffer,
    whatever was consumed before: the pointer is 0 and the unconsumed
    region is the bytes that were unconsumed, then the [pointer] bytes that
    lay just below the old [length] (the length is not lowered by the
    number of bytes consumed), then the bytes produced. *)
Theorem update_raw_buffer_region p p' :
  Buf.wf (raw_input p) ->
  is_eof p = false ->
  ~ (Buf.pointer (raw_input p) = 0
     /\ Buf.length (raw_input p) = Buf.capacity (raw_input p)) ->
  yaml_parser_update_raw_buffer reader p = Ok p' ->
  exists bs,
    reader (reader_data p)
      (Buf.capacity (raw_input p) - Buf.length (raw_input p))
    = Some (bs, reader_data p')
    /\ is_eof p' = (List.length bs =? 0)
    /\ Buf.pointer (raw_input p') = 0
    /\ Buf.unconsumed (raw_input p')
       = Buf.unconsumed (raw_input p)
         ++ firstn (Buf.pointer (raw_input p))
              (skipn (Buf.length (raw_input p) - Buf.pointer (raw_input p))
                 (Buf.buffer (raw_input p)))
         ++ bs.
Proof.
  intros (W1 & W2 & W3) He Hf. unfold yaml_parser_update_raw_buffer.
  rewrite He.
  destruct ((Buf.pointer (raw_input p) =? 0) && _) eqn:T.
  { apply andb_prop in T as [T1 T2]. apply Nat.eqb_eq in T1, T2. tauto. }
  clear T Hf.
  destruct p as [d [rb rp rl rc] inp un enc off eof er pr po pv].
  cbn [raw_input Buf.pointer Buf.length Buf.capacity Buf.buffer is_eof
         reader_data offset set_raw_input Buf.set_pointer Buf.set_buffer
         Buf.set_length] in *.
  subst eof.
  set (moved := if (0 <? rp) && (rp <? rl) then _ else _).
  assert (M : moved = Buf.mk (Buf.buffer moved) rp rl rc).
  { unfold moved. destruct ((0 <? rp) && (rp <? rl)); reflexivity. }
  assert (F : firstn rl (Buf.buffer moved)
              = firstn (rl - rp) (skipn rp rb)
                ++ firstn rp (skipn (rl - rp) rb)).
  { unfold moved. destruct ((0 <? rp) && (rp <? rl)) eqn:T.
    - cbn [Buf.buffer]. unfold memmove, write_at. cbn [firstn app Nat.add].
      rewrite length_firstn, length_skipn.
      replace (Nat.min (rl - rp) (List.length rb - rp)) with (rl - rp)
        by lia.
      apply firstn_app_skipn. exact W1.
    - cbn [Buf.buffer].
      assert (rp = 0 \/ rp = rl) as [-> | ->].
      { apply andb_false_iff in T as [T|T];
          [apply Nat.ltb_ge in T | apply Nat.ltb_ge in T]; lia. }
      + rewrite Nat.sub_0_r. cbn [skipn firstn]. now rewrite app_nil_r.
      + rewrite Nat.sub_diag. reflexivity. }
  assert (L : List.length (Buf.buffer moved) = rc).
  { unfold moved.
    destruct ((0 <? rp) && (rp <? rl)); cbn [Buf.buffer Buf.set_buffer];
      [now rewrite memmove_length | exact W3]. }
  rewrite M. clearbody moved.
  cbn [Buf.pointer Buf.length Buf.capacity Buf.buffer].
  destruct (reader d (rc - rl)) as [[bs d']|]; [|discriminate].
  destruct (Nat.ltb_spec (rc - rl) (List.length bs)); [discriminate|].
  intros [= <-]. exists bs.
  assert (U : firstn (rl + List.length bs - 0)
                (skipn 0 (write_at (Buf.buffer moved) rl bs))
              = firstn (rl - rp) (skipn rp rb)
                ++ firstn rp (skipn (rl - rp) rb) ++ bs).
  { rewrite Nat.sub_0_r. cbn [skipn].
    rewrite firstn_write_at by lia. rewrite F. now rewrite app_assoc. }
  destruct (List.length bs =? 0) eqn:Zb; unfold Buf.unconsumed;
    cbn [raw_input set_is_eof set_raw_input set_reader_data reader_data
           is_eof Buf.pointer Buf.length Buf.capacity Buf.buffer];
    (split; [reflexivity|]); (split; [reflexivity|]);
    (split; [reflexivity|]); exact U.
Qed.

(** X6.  Moving the unread characters to the beginning of the text buffer
    keeps them: the unconsumed region of the text buffer is the same octets
    before and after, the cursors stay in order, and when some text was
    consumed the pointer is back at 0. *)
Theorem move_unread_region p :
  Buf.wf (input p) ->
  Buf.unconsumed (input (move_unread p)) = Buf.unconsumed (input p)
  /\ Buf.wf (input (move_unread p))
  /\ (0 < Buf.pointer (input p) -> Buf.pointer (input (move_unread p)) = 0)
  /\ unread (move_unread p) = unread p.
Proof.
  intros (W1 & W2 & W3). unfold move_unread, Buf.unconsumed, Buf.wf.
  destruct ((0 <? Buf.pointer (input p)) && _) eqn:T.
  - apply andb_prop in T as [T1 T2]. apply Nat.ltb_lt in T1, T2.
    cbn [input set_input unread Buf.pointer Buf.length Buf.capacity
           Buf.buffer].
    rewrite Nat.sub_0_r. cbn [skipn].
    rewrite firstn_memmove by lia. rewrite memmove_length.
    repeat split; lia.
  - destruct (Nat.eqb_spec (Buf.pointer (input p)) (Buf.length (input p)))
      as [E|E];
      cbn [input set_input unread Buf.pointer Buf.length Buf.capacity
             Buf.buffer].
    + rewrite E, !Nat.sub_diag. cbn [firstn]. repeat split; lia.
    + repeat split; try assumption.
      intros H. exfalso.
      apply andb_false_iff in T as [T|T]; apply Nat.ltb_ge in T; lia.
Qed.

(** ** The decoders and the standard forms *)

Lemma utf8_trailing_ok (raw : nat -> Z) todo :
  forall k value v,
    utf8_trailing raw todo k value = inl v ->
    forall i, k <= i < k + todo ->
              (Z.land (raw i) 0xC0 =? 0x80)%Z = true.
Proof.
  induction todo as [|todo IH]; intros k value v; cbn [utf8_trailing].
  - intros _ i Hi. lia.
  - destruct (Z.land (raw k) 0xC0 =? 0x80)%Z eqn:T; cbn [negb];
      [|discriminate].
    intros H i Hi. destruct (Nat.eq_dec i k) as [->|]; [exact T|].
    apply (IH _ _ _ H). lia.
Qed.

(** What the UTF-8 case has checked when it yields a character. *)
Lemma decode_utf8_inv (raw : nat -> Z) n eof off v w :
  (forall k, 0 <= raw k < 256)%Z ->
  decode_utf8 raw n eof off = Decoded v w ->
  w = utf8_lead_width (raw 0) /\ 1 <= w <= 4 /\ w <= n
  /\ (forall k, 1 <= k < w -> utf8_trail (raw k))
  /\ v = utf8_scalar raw w
  /\ ~ overlong w v
  /\ ~ (0xD800 <= v <= 0xDFFF)%Z /\ (v <= 0x10FFFF)%Z.
Proof.
  clear reader.
  intros Hb. unfold decode_utf8.
  pose proof (utf8_width_le_4 (raw 0)) as W4.
  pose proof (utf8_width_pattern (raw 0) (Hb 0)) as Ew.
  destruct (Nat.eqb_spec (utf8_width (raw 0)) 0) as [|W0]; [discriminate|].
  destruct (Nat.ltb_spec n (utf8_width (raw 0))) as [|Wn];
    [destruct eof; discriminate|].
  destruct (utf8_trailing raw _ 1 _) as [value|[? ?]] eqn:T; [|discriminate].
  assert (Ht : forall k, 1 <= k < utf8_width (raw 0) -> utf8_trail (raw k)).
  { intros k Hk. unfold utf8_trail. apply Z.eqb_eq.
    rewrite <- utf8_trail_test by apply Hb.
    apply (utf8_trailing_ok raw _ _ _ _ T). lia. }
  rewrite Ew in Ht, W0.
  rewrite (utf8_trailing_value raw Hb W0 Ht) in T.
  injection T as <-. rewrite <- Ew in *.
  destruct (negb _) eqn:C1; [discriminate|].
  destruct ((_ && _) || _) eqn:C2; [discriminate|].
  intros X. apply Decoded_inj in X as [Xv Xw]. subst v w.
  split; [reflexivity|]. split; [lia|]. split; [exact Wn|].
  split; [exact Ht|]. split; [reflexivity|].
  apply negb_false_iff in C1.
  apply orb_false_iff in C2 as [C2 C3]. apply Z.ltb_ge in C3.
  split; [|split; [|exact C3]].
  - unfold overlong. intros [[E H]|[[E H]|[E H]]]; rewrite E in C1, H;
      cbn [Nat.eqb orb andb] in C1; rewrite ?orb_false_r in C1;
      apply Z.leb_le in C1; lia.
  - intros [H1 H2]. apply Z.leb_le in H1, H2. rewrite H1, H2 in C2.
    discriminate.
Qed.

Lemma utf8_lead_width_cases b w :
  utf8_lead_width b = w -> 1 <= w ->
  (w = 1 /\ (b / 128 = 0)%Z) \/ (w = 2 /\ (b / 32 = 6)%Z)
  \/ (w = 3 /\ (b / 16 = 14)%Z) \/ (w = 4 /\ (b / 8 = 30)%Z).
Proof.
  unfold utf8_lead_width.
  destruct (Z.eqb_spec (b / 128) 0); [intros <-; tauto|].
  destruct (Z.eqb_spec (b / 32) 6); [intros <-; tauto|].
  destruct (Z.eqb_spec (b / 16) 14); [intros <-; tauto|].
  destruct (Z.eqb_spec (b / 8) 30); [intros <-; tauto|].
  intros <-. lia.
Qed.

(** A UTF-8 sequence the decoder takes is the shortest form of its value. *)
Lemma utf8_canonical (raw : nat -> Z) n eof off v w :
  (forall k, 0 <= raw k < 256)%Z ->
  decode_utf8 raw n eof off = Decoded v w ->
  scalar_value v /\ w <= n /\ 1 <= w <= 4
  /\ List.length (utf8_octets v) = w
  /\ forall k, k < w -> nth k (utf8_octets v) 0%Z = raw k.
Proof.
  clear reader. intros Hb H.
  destruct (decode_utf8_inv raw n eof off v w Hb H)
    as (Ew & Hw & Hn & Ht & Ev & Ho & Hs & Hm).
  symmetry in Ew.
  pose proof (Hb 0) as B0. pose proof (Hb 1) as B1.
  pose proof (Hb 2) as B2. pose proof (Hb 3) as B3.
  unfold overlong in Ho. unfold utf8_trail in Ht.
  destruct (utf8_lead_width_cases _ _ Ew ltac:(lia))
    as [[-> L]|[[-> L]|[[-> L]|[-> L]]]];
    cbn [utf8_scalar] in Ev.
  - assert (V : v = raw 0) by (revert Ev L; Z.div_mod_to_equations; lia).
    assert (V1 : (v <= 0x7F)%Z) by (revert Ev; Z.div_mod_to_equations; lia).
    unfold utf8_octets, scalar_value.
    destruct (Z.leb_spec v 0x7F); [|lia].
    split; [split; [lia|exact Hs]|]. split; [exact Hn|]. split; [lia|].
    split; [reflexivity|].
    intros k Hk. assert (k = 0) as -> by lia. exact V.
  - pose proof (Ht 1 ltac:(lia)) as T1.
    assert (V1 : (0x80 <= v <= 0x7FF)%Z)
      by (split; [lia | revert Ev; Z.div_mod_to_equations; lia]).
    unfold utf8_octets, scalar_value.
    destruct (Z.leb_spec v 0x7F); [lia|].
    destruct (Z.leb_spec v 0x7FF); [|lia].
    split; [split; [lia|exact Hs]|]. split; [exact Hn|]. split; [lia|].
    split; [reflexivity|].
    intros k Hk.
    assert (k = 0 \/ k = 1) as [-> | ->] by lia; cbn [nth];
      revert Ev L T1; Z.div_mod_to_equations; lia.
  - pose proof (Ht 1 ltac:(lia)) as T1. pose proof (Ht 2 ltac:(lia)) as T2.
    assert (V1 : (0x800 <= v <= 0xFFFF)%Z)
      by (split; [lia | revert Ev; Z.div_mod_to_equations; lia]).
    unfold utf8_octets, scalar_value.
    destruct (Z.leb_spec v 0x7F); [lia|].
    destruct (Z.leb_spec v 0x7FF); [lia|].
    destruct (Z.leb_spec v 0xFFFF); [|lia].
    split; [split; [lia|exact Hs]|]. split; [exact Hn|]. split; [lia|].
    split; [reflexivity|].
    intros k Hk.
    assert (k = 0 \/ k = 1 \/ k = 2) as [-> | [-> | ->]] by lia; cbn [nth];
      revert Ev L T1 T2; Z.div_mod_to_equations; lia.
  - pose proof (Ht 1 ltac:(lia)) as T1. pose proof (Ht 2 ltac:(lia)) as T2.
    pose proof (Ht 3 ltac:(lia)) as T3.
    assert (V1 : (0x10000 <= v)%Z) by lia.
    unfold utf8_octets, scalar_value.
    destruct (Z.leb_spec v 0x7F); [lia|].
    destruct (Z.leb_spec v 0x7FF); [lia|].
    destruct (Z.leb_spec v 0xFFFF); [lia|].
    split; [split; [lia|exact Hs]|]. split; [exact Hn|]. split; [lia|].
    split; [reflexivity|].
    intros k Hk.
    assert (k = 0 \/ k = 1 \/ k = 2 \/ k = 3) as [-> | [-> | [-> | ->]]]
        by lia; cbn [nth];
      revert Ev L T1 T2 T3; Z.div_mod_to_equations; lia.
Qed.

Lemma shiftl_10 a : Z.shiftl a 10 = (a * 1024)%Z.
Proof. now rewrite Z.shiftl_mul_pow2. Qed.

(** A UTF-16 sequence the decoder takes is the UTF-16 form of its value. *)
Lemma utf16_canonical le (raw : nat -> Z) n eof off v w :
  (forall k, 0 <= raw k < 256)%Z ->
  decode_utf16 le raw n eof off = Decoded v w ->
  scalar_value v /\ w <= n /\ 1 <= w <= 4
  /\ List.length (utf16_octets le v) = w
  /\ forall k, k < w -> nth k (utf16_octets le v) 0%Z = raw k.
Proof.
  clear reader.
  intros Hb.
  destruct (Nat.ltb_spec n 2) as [Hn|Hn].
  { unfold decode_utf16. destruct (Nat.ltb_spec n 2); [|lia].
    destruct eof; discriminate. }
  rewrite decode_utf16_units by exact Hn. cbv zeta.
  pose proof (utf16_unit_range le raw 0 Hb) as Hu.
  pose proof (utf16_unit_range le raw 2 Hb) as Hu2.
  pose proof (low_surrogate_test _ Hu) as L.
  pose proof (high_surrogate_test _ Hu) as T.
  pose proof (low_surrogate_test _ Hu2) as L2.
  pose proof (Hb 0) as B0. pose proof (Hb 1) as B1.
  pose proof (Hb 2) as B2. pose proof (Hb 3) as B3.
  set (u := utf16_unit le raw 0) in *.
  set (u2 := utf16_unit le raw 2) in *.
  assert (Eu : u = utf16_unit le raw 0) by reflexivity.
  assert (Eu2 : u2 = utf16_unit le raw 2) by reflexivity.
  clearbody u u2. unfold utf16_unit in Eu, Eu2.
  destruct (Z.land u 0xFC00 =? 0xDC00)%Z; [discriminate|].
  assert (N1 : ~ (0xDC00 <= u <= 0xDFFF)%Z)
    by (intros X; apply L in X; discriminate).
  destruct (Z.land u 0xFC00 =? 0xD800)%Z.
  - assert (H1 : (0xD800 <= u <= 0xDBFF)%Z) by now apply T.
    destruct (Nat.ltb_spec n 4) as [|H4]; [destruct eof; discriminate|].
    destruct (Z.land u2 0xFC00 =? 0xDC00)%Z; cbn [negb]; [|discriminate].
    assert (H2 : (0xDC00 <= u2 <= 0xDFFF)%Z) by now apply L2.
    rewrite shiftl_10, !land_3FF.
    intros X. apply Decoded_inj in X as [Xv Xw]. subst w.
    assert (V : (0x10000 <= v <= 0x10FFFF)%Z)
      by (subst v; Z.div_mod_to_equations; lia).
    assert (W1 : (0xD800 + (v - 0x10000) / 1024 = u)%Z)
      by (subst v; Z.div_mod_to_equations; lia).
    assert (W2 : (0xDC00 + (v - 0x10000) mod 1024 = u2)%Z)
      by (subst v; Z.div_mod_to_equations; lia).
    unfold scalar_value, utf16_octets.
    destruct (Z.ltb_spec v 0x10000); [lia|].
    rewrite W1, W2. unfold utf16_unit_octets.
    split; [split; lia|]. split; [exact H4|]. split; [lia|].
    split; [destruct le; reflexivity|].
    intros k Hk.
    assert (k = 0 \/ k = 1 \/ k = 2 \/ k = 3) as [-> | [-> | [-> | ->]]]
        by lia;
      destruct le; cbn [nth app]; revert Eu Eu2;
      Z.div_mod_to_equations; lia.
  - assert (N2 : ~ (0xD800 <= u <= 0xDBFF)%Z)
      by (intros X; apply T in X; discriminate).
    intros X. apply Decoded_inj in X as [Xv Xw]. subst w v.
    unfold scalar_value, utf16_octets.
    destruct (Z.ltb_spec u 0x10000); [|lia].
    unfold utf16_unit_octets.
    split; [split; lia|]. split; [exact Hn|]. split; [lia|].
    split; [destruct le; reflexivity|].
    intros k Hk.
    assert (k = 0 \/ k = 1) as [-> | ->] by lia;
      destruct le; cbn [nth]; revert Eu;
      Z.div_mod_to_equations; lia.
Qed.

Lemma consumed_octets_nth p w k :
  Buf.wf (raw_input p) -> w <= raw_unread p -> k < w ->
  nth k (consumed_octets p w) 0%Z = raw_at p k.
Proof.
  clear reader.
  intros (W1 & W2 & W3) Hw Hk.
  unfold consumed_octets, Buf.unconsumed, raw_at, raw_unread in *.
  rewrite !nth_firstn.
  destruct (Nat.ltb_spec k w); [|lia].
  destruct (Nat.ltb_spec k
              (Buf.length (raw_input p) - Buf.pointer (raw_input p)));
    [|lia].
  apply nth_skipn.
Qed.

Lemma consumed_octets_length p w :
  Buf.wf (raw_input p) -> w <= raw_unread p ->
  List.length (consumed_octets p w) = w.
Proof.
  clear reader.
  intros (W1 & W2 & W3) Hw.
  unfold consumed_octets, Buf.unconsumed, raw_unread in *.
  rewrite !length_firstn, length_skipn. lia.
Qed.

Lemma decoded_octets p v w :
  Buf.wf (raw_input p) ->
  octets (Buf.buffer (raw_input p)) ->
  encoding p <> YAML_ANY_ENCODING ->
  decode_char p = Decoded v w ->
  scalar_value v
  /\ 1 <= w <= 4 /\ w <= raw_unread p
  /\ consumed_octets p w = encoded_octets (encoding p) v.
Proof.
  intros W Ho Ne H.
  assert (Hb : forall k, (0 <= raw_at p k < 256)%Z)
    by (intros k; now apply raw_at_octet).
  assert (C : scalar_value v /\ w <= raw_unread p /\ 1 <= w <= 4
              /\ List.length (encoded_octets (encoding p) v) = w
              /\ forall k, k < w ->
                           nth k (encoded_octets (encoding p) v) 0%Z
                           = raw_at p k).
  { revert H. unfold decode_char, encoded_octets.
    destruct (encoding p); [contradiction| | |]; intros H.
    - exact (utf8_canonical _ _ _ _ _ _ Hb H).
    - exact (utf16_canonical true _ _ _ _ _ _ Hb H).
    - exact (utf16_canonical false _ _ _ _ _ _ Hb H). }
  destruct C as (S & Hn & Hw & L & N).
  split; [exact S|]. split; [exact Hw|]. split; [exact Hn|].
  apply (nth_ext _ _ 0%Z 0%Z).
  - rewrite consumed_octets_length by assumption. now symmetry.
  - intros k Hk. rewrite consumed_octets_length in Hk by assumption.
    rewrite consumed_octets_nth by assumption. symmetry. now apply N.
Qed.

Lemma decoded_is_canonical_utf8 p v w :
  Buf.wf (raw_input p) ->
  octets (Buf.buffer (raw_input p)) ->
  encoding p = YAML_UTF8_ENCODING ->
  decode_char p = Decoded v w ->
  scalar_value v
  /\ 1 <= w <= 4 /\ w <= raw_unread p
  /\ consumed_octets p w = utf8_octets v.
Proof.
  intros W Ho Ee H.
  destruct (decoded_octets p v w W Ho ltac:(congruence) H)
    as (S & Hw & Hn & C).
  rewrite Ee in C.
  split; [exact S|]. split; [exact Hw|]. split; [exact Hn | exact C].
Qed.

(** X7.  Whatever the decoder of a stream accepts is a Unicode scalar
    value in its standard form: the value is at most 0x10FFFF and no
    surrogate, and the octets consumed from the raw buffer are exactly the
    octets of that value in the encoding of the stream (the shortest UTF-8
    form; one unit or a surrogate pair in the byte order of the stream for
    UTF-16). *)
Theorem decoded_is_canonical p v w :
  Buf.wf (raw_input p) ->
  octets (Buf.buffer (raw_input p)) ->
  encoding p <> YAML_ANY_ENCODING ->
  decode_char p = Decoded v w ->
  scalar_value v
  /\ 1 <= w <= 4 /\ w <= raw_unread p
  /\ consumed_octets p w = encoded_octets (encoding p) v.
Proof. exact (decoded_octets p v w). Qed.

Lemma utf8_trailing_ext (raw raw' : nat -> Z) todo :
  forall k value,
    (forall i, k <= i < k + todo -> raw i = raw' i) ->
    utf8_trailing raw todo k value = utf8_trailing raw' todo k value.
Proof.
  induction todo as [|todo IH]; intros k value H; cbn [utf8_trailing];
    [reflexivity|].
  rewrite (H k) by lia. destruct (negb _); [reflexivity|].
  apply IH. intros i Hi. apply H. lia.
Qed.

(** The UTF-8 case reads the leading octet and the octets it announces,
    and no other. *)
Lemma decode_utf8_ext (raw raw' : nat -> Z) n eof off :
  raw 0 = raw' 0 ->
  (forall i, i < utf8_width (raw 0) -> raw i = raw' i) ->
  decode_utf8 raw n eof off = decode_utf8 raw' n eof off.
Proof.
  intros H0 H. unfold decode_utf8. rewrite <- H0.
  rewrite (utf8_trailing_ext raw raw'); [reflexivity|].
  intros i Hi. apply H. lia.
Qed.

Lemma utf8_octets_facts v :
  scalar_value v ->
  let l := utf8_octets v in
  (forall k, 0 <= octet_at l k < 256)%Z
  /\ utf8_lead_width (octet_at l 0) = List.length l
  /\ 1 <= List.length l <= 4
  /\ (forall k, 1 <= k < List.length l -> utf8_trail (octet_at l k))
  /\ utf8_scalar (octet_at l) (List.length l) = v
  /\ ~ overlong (List.length l) v.
Proof.
  intros [Hv Hs]. unfold utf8_octets, octet_at, overlong, utf8_trail.
  destruct (Z.leb_spec v 0x7F);
    [|destruct (Z.leb_spec v 0x7FF); [|destruct (Z.leb_spec v 0xFFFF)]];
    cbn [List.length nth utf8_scalar].
  - split.
    { intros [|[|k]]; cbn [nth]; try lia; destruct k; lia. }
    split.
    { unfold utf8_lead_width.
      destruct (Z.eqb_spec (v / 128) 0) as [|N]; [reflexivity|].
      exfalso. apply N. apply Z.div_small. lia. }
    split; [lia|]. split; [intros k Hk; lia|].
    split; [apply Z.mod_small; lia | lia].
  - split.
    { intros [|[|[|k]]]; cbn [nth]; try lia;
        try (Z.div_mod_to_equations; lia); destruct k; lia. }
    split.
    { unfold utf8_lead_width.
      destruct (Z.eqb_spec ((0xC0 + v / 64) / 128) 0) as [E|_];
        [exfalso; revert E; Z.div_mod_to_equations; lia|].
      destruct (Z.eqb_spec ((0xC0 + v / 64) / 32) 6) as [|N];
        [reflexivity|].
      exfalso. apply N. Z.div_mod_to_equations. lia. }
    split; [lia|]. split.
    { intros k Hk. assert (k = 1) as -> by lia. cbn [nth].
      Z.div_mod_to_equations. lia. }
    split; [Z.div_mod_to_equations; lia | lia].
  - split.
    { intros [|[|[|[|k]]]]; cbn [nth]; try lia;
        try (Z.div_mod_to_equations; lia); destruct k; lia. }
    split.
    { unfold utf8_lead_width.
      destruct (Z.eqb_spec ((0xE0 + v / 4096) / 128) 0) as [E|_];
        [exfalso; revert E; Z.div_mod_to_equations; lia|].
      destruct (Z.eqb_spec ((0xE0 + v / 4096) / 32) 6) as [E|_];
        [exfalso; revert E; Z.div_mod_to_equations; lia|].
      destruct (Z.eqb_spec ((0xE0 + v / 4096) / 16) 14) as [|N];
        [reflexivity|].
      exfalso. apply N. Z.div_mod_to_equations. lia. }
    split; [lia|]. split.
    { intros k Hk. assert (k = 1 \/ k = 2) as [-> | ->] by lia; cbn [nth];
        Z.div_mod_to_equations; lia. }
    split; [Z.div_mod_to_equations; lia | lia].
  - split.
    { intros [|[|[|[|[|k]]]]]; cbn [nth]; try lia;
        try (Z.div_mod_to_equations; lia); destruct k; lia. }
    split.
    { unfold utf8_lead_width.
      destruct (Z.eqb_spec ((0xF0 + v / 262144) / 128) 0) as [E|_];
        [exfalso; revert E; Z.div_mod_to_equations; lia|].
      destruct (Z.eqb_spec ((0xF0 + v / 262144) / 32) 6) as [E|_];
        [exfalso; revert E; Z.div_mod_to_equations; lia|].
      destruct (Z.eqb_spec ((0xF0 + v / 262144) / 16) 14) as [E|_];
        [exfalso; revert E; Z.div_mod_to_equations; lia|].
      destruct (Z.eqb_spec ((0xF0 + v / 262144) / 8) 30) as [|N];
        [reflexivity|].
      exfalso. apply N. Z.div_mod_to_equations. lia. }
    split; [lia|]. split.
    { intros k Hk.
      assert (k = 1 \/ k = 2 \/ k = 3) as [-> | [-> | ->]] by lia;
        cbn [nth]; Z.div_mod_to_equations; lia. }
    split; [Z.div_mod_to_equations; lia | lia].
Qed.

(** Decoding the UTF-8 octets of a scalar value gives the value back. *)
Lemma decode_utf8_octets (raw : nat -> Z) n eof off v :
  scalar_value v ->
  (forall k, k < List.length (utf8_octets v)
             -> raw k = octet_at (utf8_octets v) k) ->
  List.length (utf8_octets v) <= n ->
  decode_utf8 raw n eof off = Decoded v (List.length (utf8_octets v)).
Proof.
  clear reader.
  intros Sv Hr Hn.
  destruct (utf8_octets_facts v Sv) as (Hb & Ew & Hw & Ht & Ev & Ho).
  set (l := utf8_octets v) in *. set (raw' := octet_at l) in *.
  assert (E0 : raw 0 = raw' 0) by (apply Hr; lia).
  assert (W : utf8_width (raw' 0) = List.length l)
    by (rewrite utf8_width_pattern by apply Hb; exact Ew).
  rewrite (decode_utf8_ext raw raw').
  2: exact E0.
  2:{ intros i Hi. apply Hr. rewrite E0, W in Hi. exact Hi. }
  unfold decode_utf8.
  rewrite <- Ew in Ht.
  rewrite (utf8_trailing_value raw' Hb ltac:(rewrite Ew; lia) Ht).
  rewrite Ew, Ev, W.
  destruct (Nat.eqb_spec (List.length l) 0); [lia|].
  destruct (Nat.ltb_spec n (List.length l)); [lia|].
  destruct Sv as [Hv Hs].
  assert (C1 : (List.length l =? 1)
               || (List.length l =? 2) && (128 <=? v)%Z
               || (List.length l =? 3) && (2048 <=? v)%Z
               || (List.length l =? 4) && (65536 <=? v)%Z = true).
  { unfold overlong in Ho.
    assert (List.length l = 1 \/ List.length l = 2 \/ List.length l = 3
            \/ List.length l = 4) as [-> | [E | [E | E]]] by lia;
      [reflexivity| | |]; rewrite E in *; cbn [Nat.eqb orb andb];
      rewrite ?orb_false_r; apply Z.leb_le; lia. }
  rewrite C1. cbn [negb].
  assert (C2 : (55296 <=? v)%Z && (v <=? 57343)%Z || (1114111 <? v)%Z
               = false).
  { apply orb_false_iff. split; [|apply Z.ltb_ge; lia].
    apply andb_false_iff.
    destruct (Z.leb_spec 55296 v); [right|left; reflexivity].
    apply Z.leb_gt. lia. }
  rewrite C2. reflexivity.
Qed.

(** X8.  The octets [put_char] stores for a scalar value are read back by
    the UTF-8 case of the decoder as that value, with the width stored
    (boundary values 0x7F/0x80, 0x7FF/0x800, 0xFFFF/0x10000 included). *)
Theorem utf8_round_trip (b : Buf.t) v n eof off :
  scalar_value v ->
  List.length (Buf.buffer b) = Buf.capacity b ->
  Buf.length b + List.length (utf8_octets v) <= Buf.capacity b ->
  List.length (utf8_octets v) <= n ->
  exists b',
    put_char b v = Some b'
    /\ Buf.length b' = Buf.length b + List.length (utf8_octets v)
    /\ decode_utf8 (fun k => nth (Buf.length b + k) (Buf.buffer b') 0%Z)
         n eof off
       = Decoded v (List.length (utf8_octets v)).
Proof.
  intros Sv Hb Hr Hn.
  destruct (put_char_spec b v (proj1 Sv) Hb Hr)
    as (b' & E & V & L & P & C & B).
  exists b'. split; [exact E|]. split; [exact L|].
  apply decode_utf8_octets; [exact Sv | | exact Hn].
  intros k Hk. unfold octet_at.
  assert (N : nth (Buf.length b + k) (Buf.buffer b') 0%Z
              = nth (Buf.length b + k) (Buf.valid b') 0%Z).
  { unfold Buf.valid. rewrite nth_firstn.
    destruct (Nat.ltb_spec (Buf.length b + k) (Buf.length b'));
      [reflexivity | lia]. }
  rewrite N, V.
  assert (Lv : List.length (Buf.valid b) = Buf.length b)
    by (unfold Buf.valid; rewrite length_firstn; lia).
  rewrite <- Lv at 1. apply app_nth2_plus.
Qed.

(** X9.  The UTF-16 form of a scalar value in either byte order (one unit,
    or the surrogate pair of the formulas the source quotes) is decoded by
    the UTF-16 case as that value, with the width of the form. *)
Theorem utf16_round_trip le (raw : nat -> Z) n eof off v :
  scalar_value v ->
  (forall k, k < List.length (utf16_octets le v)
             -> raw k = octet_at (utf16_octets le v) k) ->
  List.length (utf16_octets le v) <= n ->
  decode_utf16 le raw n eof off
  = Decoded v (List.length (utf16_octets le v)).
Proof.
  clear reader.
  intros [Hv Hs] Hr Hn. unfold utf16_octets, octet_at in *.
  destruct (Z.ltb_spec v 0x10000) as [Hlt|Hge].
  - assert (L : List.length (utf16_unit_octets le v) = 2)
      by (unfold utf16_unit_octets; destruct le; reflexivity).
    rewrite L in *. rewrite decode_utf16_units by lia. cbv zeta.
    assert (U : utf16_unit le raw 0 = v).
    { unfold utf16_unit. rewrite (Hr 0), (Hr 1) by lia.
      unfold utf16_unit_octets. destruct le; cbn [nth];
        Z.div_mod_to_equations; lia. }
    rewrite U.
    pose proof (low_surrogate_test v ltac:(lia)) as T1.
    pose proof (high_surrogate_test v ltac:(lia)) as T2.
    destruct (Z.land v 0xFC00 =? 0xDC00)%Z;
      [exfalso; apply Hs; assert (0xDC00 <= v <= 0xDFFF)%Z
         by (now apply T1); lia|].
    destruct (Z.land v 0xFC00 =? 0xD800)%Z;
      [exfalso; apply Hs; assert (0xD800 <= v <= 0xDBFF)%Z
         by (now apply T2); lia|].
    reflexivity.
  - set (w1 := (0xD800 + (v - 0x10000) / 1024)%Z) in *.
    set (w2 := (0xDC00 + (v - 0x10000) mod 1024)%Z) in *.
    assert (R1 : (0xD800 <= w1 <= 0xDBFF)%Z)
      by (unfold w1; Z.div_mod_to_equations; lia).
    assert (R2 : (0xDC00 <= w2 <= 0xDFFF)%Z)
      by (unfold w2; Z.div_mod_to_equations; lia).
    assert (L : List.length (utf16_unit_octets le w1
                             ++ utf16_unit_octets le w2) = 4)
      by (unfold utf16_unit_octets; destruct le; reflexivity).
    rewrite L in *. rewrite decode_utf16_units by lia. cbv zeta.
    assert (U1 : utf16_unit le raw 0 = w1).
    { unfold utf16_unit. rewrite (Hr 0), (Hr 1) by lia.
      unfold utf16_unit_octets. clearbody w1 w2.
      destruct le; cbn [nth app]; Z.div_mod_to_equations; lia. }
    assert (U2 : utf16_unit le raw 2 = w2).
    { unfold utf16_unit. rewrite (Hr 2), (Hr 3) by lia.
      unfold utf16_unit_octets. clearbody w1 w2.
      destruct le; cbn [nth app]; Z.div_mod_to_equations; lia. }
    rewrite U1, U2.
    pose proof (low_surrogate_test w1 ltac:(lia)) as T1.
    pose proof (high_surrogate_test w1 ltac:(lia)) as T2.
    pose proof (low_surrogate_test w2 ltac:(lia)) as T3.
    destruct (Z.land w1 0xFC00 =? 0xDC00)%Z;
      [exfalso; assert (0xDC00 <= w1 <= 0xDFFF)%Z by (now apply T1); lia|].
    rewrite (proj2 T2 R1).
    destruct (Nat.ltb_spec n 4); [lia|].
    rewrite (proj2 T3 R2). cbn [negb].
    rewrite shiftl_10, !land_3FF. f_equal.
    unfold w1, w2. Z.div_mod_to_equations. lia.
Qed.

Lemma put_char_valid (b b' : Buf.t) v :
  put_char b v = Some b' -> (0 <= v <= 0x10FFFF)%Z -> Buf.wf b ->
  Buf.valid b' = Buf.valid b ++ utf8_octets v.
Proof.
  intros H Hv (W1 & W2 & W3).
  assert (Lb : forall n, List.length (utf8_octets v) = n ->
                         Buf.length b + n <= Buf.capacity b).
  { (* the stores went through, so there was room *)
    intros n <-. revert H. unfold put_char, utf8_octets, put.
    repeat match goal with
           | |- context [if (?a <=? ?c)%Z then _ else _] =>
               destruct (Z.leb_spec a c)
           end;
      repeat match goal with
             | |- context [if ?x <? ?y then _ else _] =>
                 destruct (Nat.ltb_spec x y);
                 cbn [and_then Buf.length Buf.capacity]
             end; try discriminate; intros _; cbn [List.length]; lia. }
  destruct (put_char_spec b v Hv W3 (Lb _ eq_refl)) as (b0 & E & V & _).
  rewrite E in H. injection H as <-. exact V.
Qed.

(** X10.  On a UTF-8 stream a round that stores a character appends to the
    text the very octets it consumed from the raw buffer (between one and
    four of them). *)
Theorem utf8_stream_verbatim p p' :
  encoding p = YAML_UTF8_ENCODING ->
  Buf.wf (raw_input p) -> octets (Buf.buffer (raw_input p)) ->
  Buf.wf (input p) ->
  decode_round p = Continue p' ->
  exists w,
    1 <= w <= 4
    /\ Buf.pointer (raw_input p') = Buf.pointer (raw_input p) + w
    /\ Buf.valid (input p') = Buf.valid (input p) ++ consumed_octets p w.
Proof.
  intros Ee W Ho Wi. unfold decode_round.
  destruct (decode_char p) as [v w| |] eqn:E; try discriminate.
  destruct (negb (allowed v)); [discriminate|].
  cbn [input set_offset set_raw_input].
  destruct (put_char (input p) v) as [b|] eqn:Ep; [|discriminate].
  intros [= <-].
  destruct (decoded_is_canonical_utf8 p v w W Ho Ee E) as (Sv & Hw & Hn & C).
  exists w. split; [exact Hw|].
  cbn [raw_input input set_unread set_input set_offset set_raw_input
         Buf.set_pointer Buf.pointer].
  split; [reflexivity|].
  rewrite C. exact (put_char_valid _ _ _ Ep (proj1 Sv) Wi).
Qed.

(** ** The loops end *)

Lemma decode_raw_buffer_ends fuel :
  forall p, raw_unread p <= fuel -> decode_raw_buffer (S fuel) p <> Timeout.
Proof.
  induction fuel as [|fuel IH]; intros p Hf; cbn [decode_raw_buffer];
    destruct (Buf.pointer (raw_input p) =? Buf.length (raw_input p));
    try discriminate;
    pose proof (decode_round_kept p) as K;
    destruct (decode_round p) as [p1|p1|q|]; try discriminate;
    destruct K as (_ & w & Hw & Hr & Kp & _ & Kl & _).
  - lia.
  - apply IH. unfold raw_unread in *. lia.
Qed.

(** The raw side of a decode pass: nothing but the pointer moves, and it
    moves forward; with four octets or more at hand it does move. *)
Lemma decode_raw_buffer_raw fuel :
  forall p p',
    decode_raw_buffer fuel p = Ok p' ->
    Buf.wf (raw_input p) ->
    Buf.wf (raw_input p')
    /\ Buf.length (raw_input p') = Buf.length (raw_input p)
    /\ Buf.capacity (raw_input p') = Buf.capacity (raw_input p)
    /\ Buf.pointer (raw_input p) <= Buf.pointer (raw_input p')
    /\ (4 <= raw_unread p
        -> Buf.pointer (raw_input p) < Buf.pointer (raw_input p')).
Proof.
  induction fuel as [|fuel IH]; intros p p'; cbn [decode_raw_buffer];
    destruct (Nat.eqb_spec (Buf.pointer (raw_input p))
                (Buf.length (raw_input p))) as [Ed|Ed];
    try discriminate;
    try (intros [= <-] W; split; [exact W|];
         repeat split; try lia; unfold raw_unread; lia).
  pose proof (decode_round_kept p) as K.
  destruct (decode_round p) as [p1|p1|q|]; try discriminate.
  - destruct K as (_ & w & Hw & Hr & Kp & _ & Kl & _ & Kr).
    intros H (W1 & W2 & W3).
    assert (Wp : Buf.wf (raw_input p1)).
    { rewrite Kr. unfold Buf.wf, raw_unread in *. cbn. lia. }
    destruct (IH p1 p' H Wp) as (J1 & J2 & J3 & J4 & _).
    split; [exact J1|]. rewrite Kr in J3. cbn in J3.
    repeat split; lia.
  - destruct K as (-> & _ & Hs). intros [= <-] W.
    split; [exact W|]. repeat split; lia.
Qed.

(** The two ways a refill returns 1: it did nothing (the buffer is full
    with nothing consumed, or EOF was seen), or it called the source. *)
Lemma update_raw_buffer_cases p p' :
  yaml_parser_update_raw_buffer reader p = Ok p' ->
  (p' = p
   /\ ((Buf.pointer (raw_input p) = 0
        /\ Buf.length (raw_input p) = Buf.capacity (raw_input p))
       \/ is_eof p = true))
  \/ (is_eof p = false
      /\ exists bs : list Z,
          List.length bs
          <= Buf.capacity (raw_input p) - Buf.length (raw_input p)
          /\ Buf.pointer (raw_input p') = 0
          /\ Buf.length (raw_input p')
             = Buf.length (raw_input p) + List.length bs
          /\ Buf.capacity (raw_input p') = Buf.capacity (raw_input p)
          /\ is_eof p' = (List.length bs =? 0)).
Proof.
  unfold yaml_parser_update_raw_buffer.
  destruct ((Buf.pointer (raw_input p) =? 0) && _) eqn:T.
  { apply andb_prop in T as [T1 T2]. apply Nat.eqb_eq in T1, T2.
    intros [= <-]. left. split; [reflexivity|]. left. now split. }
  destruct (is_eof p) eqn:He.
  { intros [= <-]. left. split; [reflexivity|]. now right. }
  set (moved := if (0 <? Buf.pointer (raw_input p)) && _ then _ else _).
  assert (E : Buf.length moved = Buf.length (raw_input p)
              /\ Buf.capacity moved = Buf.capacity (raw_input p)).
  { unfold moved.
    destruct ((0 <? Buf.pointer (raw_input p)) && _); split; reflexivity. }
  destruct E as [E1 E2].
  cbn [set_raw_input reader_data offset Buf.set_pointer Buf.capacity
         Buf.length raw_input].
  rewrite E1, E2.
  destruct (reader _ _) as [[bs d]|]; [|discriminate].
  destruct (Nat.ltb_spec
              (Buf.capacity (raw_input p) - Buf.length (raw_input p))
              (List.length bs)) as [|Hs]; [discriminate|].
  intros [= <-]. right. split; [reflexivity|]. exists bs.
  split; [exact Hs|].
  destruct (List.length bs =? 0);
    cbn [raw_input set_is_eof set_raw_input set_reader_data is_eof
           Buf.length Buf.set_length Buf.capacity Buf.pointer
           Buf.set_buffer Buf.set_pointer];
    rewrite ?E1, ?E2; repeat split; exact He.
Qed.

Lemma determine_encoding_fill_ends fuel :
  forall p,
    Buf.wf (raw_input p) -> 3 <= Buf.capacity (raw_input p) ->
    3 <= fuel + Buf.length (raw_input p) ->
    determine_encoding_fill reader fuel p <> Timeout.
Proof.
  induction fuel as [|fuel IH]; intros p W Hc Hf;
    cbn [determine_encoding_fill];
    destruct (negb (is_eof p) && _) eqn:T; try discriminate;
    apply andb_prop in T as [Te Tl];
    apply negb_true_iff in Te; apply Nat.ltb_lt in Tl; [lia|].
  destruct (yaml_parser_update_raw_buffer reader p) as [p1| | |] eqn:E;
    try discriminate.
  2:{ exfalso. revert E. unfold yaml_parser_update_raw_buffer.
      repeat match goal with
             | |- context [if ?c then _ else _] => destruct c
             | |- context [match ?c with Some _ => _ | None => _ end] =>
                 destruct c as [[? ?]|]
             end; discriminate. }
  destruct (update_raw_buffer_inv p p1 E W) as (W1 & _).
  destruct (update_raw_buffer_cases p p1 E)
    as [(-> & [[_ F]|F])|(_ & bs & Hs & Kp & Kl & Kc & Ke)];
    [lia | congruence |].
  destruct (Nat.eqb_spec (List.length bs) 0) as [Z0|Z0].
  - destruct fuel; cbn [determine_encoding_fill]; rewrite Ke;
      discriminate.
  - apply IH; [exact W1 | lia | lia].
Qed.

Lemma update_raw_buffer_capacity p p' :
  yaml_parser_update_raw_buffer reader p = Ok p' ->
  Buf.capacity (raw_input p') = Buf.capacity (raw_input p).
Proof.
  intros E.
  destruct (update_raw_buffer_cases p p' E)
    as [(-> & _)|(_ & bs & _ & _ & _ & Kc & _)]; [reflexivity | exact Kc].
Qed.

Lemma determine_encoding_fill_capacity fuel :
  forall p p',
    determine_encoding_fill reader fuel p = Ok p' ->
    Buf.capacity (raw_input p') = Buf.capacity (raw_input p).
Proof.
  induction fuel as [|fuel IH]; intros p p'; cbn [determine_encoding_fill];
    destruct (negb (is_eof p) && _); try discriminate;
    try (intros [= <-]; reflexivity).
  destruct (yaml_parser_update_raw_buffer reader p) as [p1| | |] eqn:E;
    try discriminate.
  intros H. rewrite (IH p1 p' H). now apply update_raw_buffer_capacity.
Qed.

Lemma determine_encoding_capacity fuel p p' :
  yaml_parser_determine_encoding reader fuel p = Ok p' ->
  Buf.capacity (raw_input p') = Buf.capacity (raw_input p).
Proof.
  unfold yaml_parser_determine_encoding.
  destruct (determine_encoding_fill reader fuel p) as [p1| | |] eqn:E;
    try discriminate.
  intros [= <-]. rewrite <- (determine_encoding_fill_capacity fuel p p1 E).
  unfold determine_encoding_select.
  repeat match goal with
         | |- context [if ?c then _ else _] => destruct c
         end; reflexivity.
Qed.

(** What is left to do for the outer loop: twice the free room of the raw
    buffer, and one more while nothing is consumed. *)
Local Abbreviation todo p :=
  (2 * (Buf.capacity (raw_input p) - Buf.length (raw_input p))
   + (if Buf.pointer (raw_input p) =? 0 then 1 else 0)).

Lemma fill_buffer_ends len fuel :
  forall p,
    Buf.wf (raw_input p) -> 4 <= Buf.capacity (raw_input p) ->
    todo p + Buf.capacity (raw_input p) + 2 <= fuel ->
    fill_buffer reader fuel len p <> Timeout.
Proof.
  induction fuel as [|fuel IH]; intros p W Hc Hf; cbn [fill_buffer];
    destruct (len <=? unread p); try discriminate; [lia|].
  destruct (yaml_parser_update_raw_buffer reader p) as [p1| | |] eqn:E1;
    try discriminate.
  2:{ exfalso. revert E1. unfold yaml_parser_update_raw_buffer.
      repeat match goal with
             | |- context [if ?c then _ else _] => destruct c
             | |- context [match ?c with Some _ => _ | None => _ end] =>
                 destruct c as [[? ?]|]
             end; discriminate. }
  destruct (update_raw_buffer_inv p p1 E1 W) as (W1 & _).
  pose proof (update_raw_buffer_capacity p p1 E1) as C1.
  assert (U1 : raw_unread p1 <= fuel).
  { destruct W1 as (A1 & A2 & _). unfold raw_unread. lia. }
  pose proof (decode_raw_buffer_ends fuel p1 U1) as T2.
  destruct (decode_raw_buffer (S fuel) p1) as [p2| | |] eqn:E2;
    try discriminate; [|contradiction].
  destruct (decode_raw_buffer_raw _ p1 p2 E2 W1)
    as (W2 & L2 & C2 & P2 & M2).
  pose proof (decode_raw_buffer_kept (S fuel) p1) as K2.
  rewrite E2 in K2. cbn [ends] in K2.
  destruct K2 as ((_ & K2 & _) & _).
  destruct (is_eof p2) eqn:F.
  { unfold put_nul. destruct (put (input p2) 0); discriminate. }
  apply IH; [exact W2 | lia |].
  destruct (update_raw_buffer_cases p p1 E1)
    as [(-> & [[Z0 Fl]|Fe])|(_ & bs & Hs & Kp & Kl & Kc & Ke)].
  - (* full, nothing consumed: the pass consumes, the next refill ends *)
    assert (Buf.pointer (raw_input p) < Buf.pointer (raw_input p2))
      by (apply M2; unfold raw_unread; lia).
    rewrite Z0 in Hf. cbn [Nat.eqb] in Hf.
    destruct (Nat.eqb_spec (Buf.pointer (raw_input p2)) 0); lia.
  - congruence.
  - (* the source produced bytes: the free room shrinks *)
    assert (List.length bs <> 0).
    { intros Z0. rewrite Z0 in Ke. cbn in Ke. congruence. }
    destruct (Buf.pointer (raw_input p2) =? 0);
      destruct (Buf.pointer (raw_input p) =? 0); lia.
Qed.

(** X11.  With a raw buffer of four octets or more, a call returns
    whatever the read handler does: fuel for three rounds a cell of the raw
    buffer (and three more) is never used up. *)
Theorem update_buffer_ends fuel len p :
  Buf.wf (raw_input p) -> 4 <= Buf.capacity (raw_input p) ->
  3 * Buf.capacity (raw_input p) + 3 <= fuel ->
  yaml_parser_update_buffer reader fuel len p <> Timeout.
Proof.
  intros W Hc Hf. unfold yaml_parser_update_buffer.
  destruct (is_eof p && _); [discriminate|].
  destruct (len <=? unread p); [discriminate|].
  assert (D : match encoding p with
              | YAML_ANY_ENCODING =>
                  yaml_parser_determine_encoding reader fuel p
              | _ => Ok p
              end <> Timeout
              /\ forall p1,
                  match encoding p with
                  | YAML_ANY_ENCODING =>
                      yaml_parser_determine_encoding reader fuel p
                  | _ => Ok p
                  end = Ok p1 ->
                  Buf.wf (raw_input p1)
                  /\ Buf.capacity (raw_input p1)
                     = Buf.capacity (raw_input p)).
  { destruct (encoding p);
      try (split; [discriminate|]; intros p1 [= <-]; now split).
    split.
    - unfold yaml_parser_determine_encoding.
      pose proof (determine_encoding_fill_ends fuel p W ltac:(lia)
                    ltac:(lia)) as T.
      destruct (determine_encoding_fill reader fuel p); try discriminate.
      contradiction.
    - intros p1 E. split.
      + now destruct (determine_encoding_inv fuel p p1 E W).
      + now apply determine_encoding_capacity in E. }
  destruct D as [D1 D2].
  destruct (match encoding p with
            | YAML_ANY_ENCODING => _
            | _ => _
            end) as [p1| | |]; try discriminate; [|contradiction].
  destruct (D2 p1 eq_refl) as [W1 C1].
  destruct (move_unread_kept p1) as (_ & _ & Mr & _).
  apply fill_buffer_ends; rewrite Mr; [exact W1 | lia |].
  destruct W1 as (A1 & A2 & _).
  destruct (Buf.pointer (raw_input p1) =? 0); lia.
Qed.


(** ** Well-formed UTF-8 goes through *)

Lemma admissible_scalar v : admissible v -> scalar_value v.
Proof. unfold admissible, scalar_value. lia. Qed.

Lemma unconsumed_length (b : Buf.t) :
  Buf.wf b -> List.length (Buf.unconsumed b) = Buf.length b - Buf.pointer b.
Proof.
  intros (W1 & W2 & W3). unfold Buf.unconsumed.
  rewrite length_firstn, length_skipn. lia.
Qed.

Lemma unconsumed_advance (b : Buf.t) w :
  Buf.unconsumed (Buf.set_pointer b (Buf.pointer b + w))
  = skipn w (Buf.unconsumed b).
Proof.
  unfold Buf.unconsumed. cbn [Buf.set_pointer Buf.pointer Buf.length Buf.buffer].
  rewrite skipn_firstn_comm, skipn_skipn.
  f_equal; [lia | f_equal; lia].
Qed.

Lemma unconsumed_nth p k :
  k < raw_unread p -> nth k (Buf.unconsumed (raw_input p)) 0%Z = raw_at p k.
Proof.
  intros Hk. unfold Buf.unconsumed, raw_at, raw_unread in *.
  rewrite nth_firstn.
  destruct (Nat.ltb_spec k
              (Buf.length (raw_input p) - Buf.pointer (raw_input p)));
    [|lia].
  apply nth_skipn.
Qed.

(** One round on the UTF-8 octets of an admissible character. *)
Lemma utf8_round_through p v rest :
  encoding p = YAML_UTF8_ENCODING ->
  admissible v ->
  Buf.wf (raw_input p) -> Buf.wf (input p) ->
  Buf.unconsumed (raw_input p) = utf8_octets v ++ rest ->
  Buf.length (input p) + List.length (utf8_octets v)
  <= Buf.capacity (input p) ->
  exists b',
    decode_round p
    = Continue
        (set_unread
           (set_input
              (set_offset
                 (set_raw_input p
                    (Buf.set_pointer (raw_input p)
                       (Buf.pointer (raw_input p)
                        + List.length (utf8_octets v))))
                 (offset p + List.length (utf8_octets v)))
              b')
           (S (unread p)))
    /\ Buf.valid b' = Buf.valid (input p) ++ utf8_octets v
    /\ Buf.length b' = Buf.length (input p) + List.length (utf8_octets v)
    /\ Buf.pointer b' = Buf.pointer (input p)
    /\ Buf.capacity b' = Buf.capacity (input p)
    /\ List.length (Buf.buffer b') = Buf.capacity b'.
Proof.
  intros Ee A W Wi Hu Hr.
  pose proof (admissible_scalar v A) as Sv.
  pose proof (unconsumed_length _ W) as Lu.
  rewrite Hu, length_app in Lu.
  assert (D : decode_char p = Decoded v (List.length (utf8_octets v))).
  { unfold decode_char. rewrite Ee.
    apply decode_utf8_octets; [exact Sv| |unfold raw_unread; lia].
    intros k Hk. unfold octet_at.
    rewrite <- unconsumed_nth by (unfold raw_unread; lia).
    rewrite Hu. now apply app_nth1. }
  destruct Wi as (I1 & I2 & I3).
  destruct (put_char_spec (input p) v (proj1 Sv) I3 Hr)
    as (b' & E & V & L & P & C & B).
  exists b'. split; [|now repeat split].
  unfold decode_round. rewrite D.
  rewrite (proj2 (allowed_admissible v) A). cbn [negb].
  cbn [input set_offset set_raw_input]. rewrite E. reflexivity.
Qed.

Lemma decode_pass_utf8 (vs : list Z) :
  forall fuel p,
    encoding p = YAML_UTF8_ENCODING ->
    Forall admissible vs ->
    Buf.wf (raw_input p) -> Buf.wf (input p) ->
    Buf.unconsumed (raw_input p) = List.concat (map utf8_octets vs) ->
    Buf.length (input p) + List.length (List.concat (map utf8_octets vs))
    <= Buf.capacity (input p) ->
    List.length vs <= fuel ->
    exists p',
      decode_raw_buffer fuel p = Ok p'
      /\ Buf.valid (input p')
         = Buf.valid (input p) ++ List.concat (map utf8_octets vs)
      /\ unread p' = unread p + List.length vs
      /\ offset p' = offset p + List.length (List.concat (map utf8_octets vs))
      /\ Buf.pointer (raw_input p') = Buf.length (raw_input p')
      /\ Buf.wf (input p')
      /\ Buf.length (input p')
         = Buf.length (input p)
           + List.length (List.concat (map utf8_octets vs))
      /\ is_eof p' = is_eof p /\ same_report p p'
      /\ Buf.pointer (input p') = Buf.pointer (input p)
      /\ encoding p' = encoding p
      /\ Buf.capacity (input p') = Buf.capacity (input p).
Proof.
  induction vs as [|v vs IH]; intros fuel p Ee A W Wi Hu Hr Hf;
    cbn [map List.concat List.length] in *.
  - exists p.
    pose proof (unconsumed_length _ W) as Lu. rewrite Hu in Lu.
    cbn [List.length] in Lu. destruct W as (W1 & W2 & W3).
    assert (Ed : Buf.pointer (raw_input p) = Buf.length (raw_input p))
      by lia.
    split.
    { destruct fuel; cbn [decode_raw_buffer]; rewrite Ed, Nat.eqb_refl;
        reflexivity. }
    rewrite app_nil_r, !Nat.add_0_r.
    split; [reflexivity|]. split; [reflexivity|]. split; [reflexivity|].
    split; [exact Ed|]. split; [exact Wi|]. split; [reflexivity|].
    split; [reflexivity|]. split; [apply same_report_refl|].
    split; [reflexivity|]. split; reflexivity.
  - destruct fuel as [|fuel]; [lia|].
    apply Forall_cons_iff in A as [Av A].
    rewrite length_app in Hr.
    destruct (utf8_round_through p v _ Ee Av W Wi Hu ltac:(lia))
      as (b' & Rd & V & L & P & C & B).
    set (p1 := set_unread _ _) in Rd.
    pose proof (unconsumed_length _ W) as Lu.
    rewrite Hu, length_app in Lu.
    destruct (utf8_octets_facts v (admissible_scalar v Av))
      as (_ & _ & Lw & _).
    cbv zeta in Lw.
    assert (W1 : Buf.wf (raw_input p1)).
    { destruct W as (A1 & A2 & A3). unfold p1, Buf.wf. cbn. lia. }
    assert (Wi1 : Buf.wf (input p1)).
    { destruct Wi as (A1 & A2 & A3). unfold p1, Buf.wf. cbn. lia. }
    assert (Hu1 : Buf.unconsumed (raw_input p1)
                  = List.concat (map utf8_octets vs)).
    { unfold p1.
      cbn [raw_input set_unread set_input set_offset set_raw_input].
      rewrite unconsumed_advance, Hu.
      rewrite skipn_app, Nat.sub_diag, skipn_all. reflexivity. }
    destruct (IH fuel p1 Ee A W1 Wi1 Hu1) as (p' & D & V' & U' & O' & E'
                                              & Wi' & L' & F' & Rp'
                                              & Pp' & Ep' & Cp');
      [unfold p1; cbn; lia | lia |].
    exists p'. split.
    { cbn [decode_raw_buffer].
      destruct (Nat.eqb_spec (Buf.pointer (raw_input p))
                  (Buf.length (raw_input p))); [lia|].
      rewrite Rd. exact D. }
    unfold p1 in V', U', O', L', F', Rp', Pp', Ep', Cp'.
    cbn in V', U', O', L', F', Rp', Pp', Ep', Cp'.
    rewrite length_app.
    split; [rewrite V', V, <- app_assoc; reflexivity|].
    split; [lia|]. split; [lia|]. split; [exact E'|].
    split; [exact Wi'|]. split; [lia|]. split; [exact F'|]. split; [exact Rp'|].
    split; [rewrite Pp'; exact P|]. split; [exact Ep'|].
    rewrite Cp'; exact C.
Qed.

(** X13.  A decode pass over a raw buffer that holds, from its pointer to
    its length, the UTF-8 octets of admissible characters (with room for
    them in the text buffer): the pass returns 1, the text grows by those
    very octets, [unread] by the number of characters, the offset by the
    number of octets, and the raw buffer is drained. *)
Theorem utf8_pass_through (vs : list Z) fuel p :
  encoding p = YAML_UTF8_ENCODING ->
  Forall admissible vs ->
  Buf.wf (raw_input p) -> Buf.wf (input p) ->
  Buf.unconsumed (raw_input p) = List.concat (map utf8_octets vs) ->
  Buf.length (input p) + List.length (List.concat (map utf8_octets vs))
  <= Buf.capacity (input p) ->
  List.length vs <= fuel ->
  exists p',
    decode_raw_buffer fuel p = Ok p'
    /\ Buf.valid (input p')
       = Buf.valid (input p) ++ List.concat (map utf8_octets vs)
    /\ unread p' = unread p + List.length vs
    /\ offset p' = offset p
                   + List.length (List.concat (map utf8_octets vs))
    /\ Buf.pointer (raw_input p') = Buf.length (raw_input p').
Proof.
  intros Ee A W Wi Hu Hr Hf.
  destruct (decode_pass_utf8 vs fuel p Ee A W Wi Hu Hr Hf)
    as (p' & D & V & U & O & E & _).
  exists p'. now repeat split.
Qed.

(** ** A whole ASCII stream *)

Lemma write_at_nil (l : list Z) off : write_at l off [] = l.
Proof.
  unfold write_at. cbn [app List.length]. rewrite Nat.add_0_r.
  apply firstn_skipn.
Qed.

Lemma ascii_octets (text : list Z) :
  ascii_text text -> List.concat (map utf8_octets text) = text.
Proof.
  induction 1 as [|b text [_ Hb] _ IH]; [reflexivity|].
  cbn [map List.concat]. rewrite IH. unfold utf8_octets.
  destruct (Z.leb_spec b 0x7F); [reflexivity | lia].
Qed.

Lemma ascii_admissible (text : list Z) :
  ascii_text text -> Forall admissible text.
Proof. apply Forall_impl. now intros b [A _]. Qed.

(** A refill with nothing consumed, told what the source hands over. *)
Lemma update_raw_buffer_reads p bs d :
  Buf.pointer (raw_input p) = 0 -> is_eof p = false ->
  Buf.length (raw_input p) < Buf.capacity (raw_input p) ->
  reader (reader_data p)
    (Buf.capacity (raw_input p) - Buf.length (raw_input p)) = Some (bs, d) ->
  List.length bs <= Buf.capacity (raw_input p) - Buf.length (raw_input p) ->
  yaml_parser_update_raw_buffer reader p
  = Ok (let q := set_raw_input (set_reader_data p d)
                   (Buf.mk (write_at (Buf.buffer (raw_input p))
                              (Buf.length (raw_input p)) bs)
                      0 (Buf.length (raw_input p) + List.length bs)
                      (Buf.capacity (raw_input p))) in
        if List.length bs =? 0 then set_is_eof q true else q).
Proof.
  intros Hp He Hl Hr Hs. unfold yaml_parser_update_raw_buffer.
  rewrite Hp, He.
  replace (Buf.length (raw_input p) =? Buf.capacity (raw_input p)) with false
    by (symmetry; apply Nat.eqb_neq; lia).
  change (0 <? 0) with false.
  cbn [Nat.eqb andb Buf.set_pointer Buf.capacity Buf.length Buf.buffer
         set_raw_input reader_data raw_input offset Buf.pointer].
  rewrite Hr.
  destruct (Nat.ltb_spec
              (Buf.capacity (raw_input p) - Buf.length (raw_input p))
              (List.length bs)); [lia|].
  reflexivity.
Qed.

(** The state of a stream read whole and not yet decoded. *)
Local Abbreviation loaded p text d1 rc c eof :=
  (raw_input p = Buf.mk (write_at (repeat 0%Z rc) 0 text) 0
                   (List.length text) rc
   /\ input p = Buf.mk (repeat 0%Z c) 0 0 c
   /\ unread p = 0 /\ offset p = 0 /\ reader_data p = d1
   /\ error p = YAML_NO_ERROR /\ is_eof p = eof).

Lemma ascii_stream_detected d0 d1 (text : list Z) rc c fuel :
  List.length text < rc -> 3 <= rc -> 2 <= fuel ->
  reader d0 rc = Some (text, d1) ->
  (forall size, reader d1 size = Some ([], d1)) ->
  exists p,
    determine_encoding_fill reader fuel (yaml_parser_new d0 rc c) = Ok p
    /\ encoding p = YAML_ANY_ENCODING
    /\ exists eof, loaded p text d1 rc c eof.
Proof.
  intros Hn Hc Hf H0 H1.
  set (p0 := yaml_parser_new d0 rc c).
  assert (R0 := update_raw_buffer_reads p0 text d1 eq_refl eq_refl).
  cbn [p0 yaml_parser_new raw_input Buf.buffer Buf.length Buf.capacity
         reader_data] in R0.
  rewrite Nat.sub_0_r in R0. specialize (R0 ltac:(lia) H0 ltac:(lia)).
  cbn [p0 yaml_parser_new raw_input Buf.buffer Buf.length Buf.capacity
         Nat.add] in R0. cbv zeta in R0.
  destruct fuel as [|[|fuel]]; try lia.
  cbn [determine_encoding_fill]. fold p0.
  change (negb (is_eof p0) && (Buf.length (raw_input p0) <? 3)) with true.
  cbv iota. rewrite R0.
  destruct (Nat.eqb_spec (List.length text) 0) as [Z0|Z0].
  - (* the empty stream: EOF at the first read *)
    eexists. split; [reflexivity|]. split; [reflexivity|].
    exists true. repeat split.
  - match goal with
    | |- context [yaml_parser_update_raw_buffer reader ?q] => set (pA := q)
    end.
    destruct (Nat.ltb_spec (List.length text) 3) as [H3|H3].
    + (* one or two octets: a second read finds the end *)
      replace (negb (is_eof pA) && (Buf.length (raw_input pA) <? 3))
        with true
        by (unfold pA; cbn -[Nat.ltb]; symmetry; now apply Nat.ltb_lt).
      assert (R1 := update_raw_buffer_reads pA [] d1 eq_refl eq_refl).
      cbn [pA set_raw_input set_reader_data raw_input Buf.buffer Buf.length
             Buf.capacity reader_data List.length Nat.eqb] in R1.
      cbv zeta in R1. rewrite write_at_nil, Nat.add_0_r in R1.
      rewrite (R1 ltac:(lia) (H1 _) ltac:(lia)).
      eexists. split; [destruct fuel; reflexivity|].
      split; [reflexivity|]. exists true. repeat split.
    + replace (negb (is_eof pA) && (Buf.length (raw_input pA) <? 3))
        with false
        by (unfold pA; cbn -[Nat.ltb]; symmetry; now apply Nat.ltb_ge).
      eexists. split; [reflexivity|]. split; [reflexivity|].
      exists false. repeat split.
Qed.

Lemma ascii_no_bom p (text rest : list Z) :
  ascii_text text ->
  Buf.buffer (raw_input p) = text ++ rest ->
  Buf.length (raw_input p) = List.length text ->
  determine_encoding_select p = set_encoding p YAML_UTF8_ENCODING.
Proof.
  intros A Hb Hl. unfold determine_encoding_select. rewrite Hb, Hl.
  destruct A as [|b t [_ Hb7] _]; [reflexivity|].
  assert (N : forall bom n,
             (0x80 <= nth 0 bom 0)%Z ->
             memcmp_eq ((b :: t) ++ rest) bom (S n) = false).
  { intros bom n Hbom. unfold memcmp_eq.
    destruct (list_eq_dec Z.eq_dec _ _) as [E|]; [|reflexivity].
    exfalso. destruct bom as [|x bom]; [discriminate E|].
    cbn [app firstn nth] in E, Hbom.
    assert (b = x) by congruence. lia. }
  rewrite (N BOM_UTF16LE 1), (N BOM_UTF16BE 1), (N BOM_UTF8 2),
    !Bool.andb_false_r; cbn [nth BOM_UTF16LE BOM_UTF16BE BOM_UTF8]; try lia.
  reflexivity.
Qed.

Lemma loaded_refill p (text : list Z) d1 rc c eof :
  List.length text < rc ->
  (forall size, reader d1 size = Some ([], d1)) ->
  loaded p text d1 rc c eof ->
  exists q,
    yaml_parser_update_raw_buffer reader p = Ok q
    /\ encoding q = encoding p /\ loaded q text d1 rc c true.
Proof.
  intros Hn H1 (Hr & Hi & Hu & Ho & Hd & He & Hf). destruct eof.
  - exists p. split; [|now repeat split].
    unfold yaml_parser_update_raw_buffer. rewrite Hr, Hf.
    cbn [Buf.pointer Buf.length Buf.capacity Nat.eqb andb].
    now destruct (List.length text =? rc).
  - assert (R1 := update_raw_buffer_reads p [] d1). rewrite Hr, Hf, Hd in R1.
    cbn [Buf.pointer Buf.length Buf.capacity Buf.buffer List.length Nat.eqb]
      in R1.
    specialize (R1 eq_refl eq_refl ltac:(lia) (H1 _) ltac:(lia)).
    cbv zeta in R1. rewrite write_at_nil, Nat.add_0_r in R1.
    eexists. split; [exact R1|]. cbn. now repeat split.
Qed.

(** X14.  A stream of admissible ASCII characters that the source delivers
    whole at the first read and that fits the buffers: the first call of
    [yaml_parser_update_buffer], for any positive number of characters,
    returns 1 with the encoding set to UTF-8, the text buffer holding the
    stream followed by one NUL from position 0, [unread] counting these
    characters, the offset at the length of the stream, the input finished
    and no error recorded. *)
Theorem ascii_stream_whole d0 d1 (text : list Z) rc c fuel len :
  ascii_text text ->
  List.length text < rc -> 3 <= rc -> List.length text < c ->
  2 <= fuel -> List.length text <= fuel -> 1 <= len ->
  reader d0 rc = Some (text, d1) ->
  (forall size, reader d1 size = Some ([], d1)) ->
  exists p',
    yaml_parser_update_buffer reader fuel len (yaml_parser_new d0 rc c)
    = Ok p'
    /\ encoding p' = YAML_UTF8_ENCODING
    /\ Buf.valid (input p') = text ++ [0%Z]
    /\ Buf.pointer (input p') = 0
    /\ unread p' = List.length text + 1
    /\ offset p' = List.length text
    /\ finished p'
    /\ error p' = YAML_NO_ERROR.
Proof.
  intros A Hn Hc Hi Hf2 Hfn Hlen H0 H1.
  destruct (ascii_stream_detected d0 d1 text rc c fuel Hn Hc Hf2 H0 H1)
    as (pB & DB & EB & eof & LB).
  unfold yaml_parser_update_buffer, yaml_parser_determine_encoding.
  set (p0 := yaml_parser_new d0 rc c) in *.
  change (is_eof p0) with false. change (unread p0) with 0.
  change (encoding p0) with YAML_ANY_ENCODING.
  destruct len as [|len]; [lia|]. cbn [andb Nat.leb]. rewrite DB.
  rewrite (ascii_no_bom pB text (skipn (List.length text) (repeat 0%Z rc)) A)
    by (rewrite (proj1 LB); reflexivity).
  set (pC := move_unread _).
  assert (LC : loaded pC text d1 rc c eof /\ encoding pC = YAML_UTF8_ENCODING).
  { destruct LB as (Hr & Hin & Hu & Ho & Hd & He & Hf).
    unfold pC, move_unread. cbn [input set_encoding]. rewrite Hin. cbn.
    now repeat split. }
  destruct LC as (LC & EC).
  destruct fuel as [|fuel]; [lia|]. cbn [fill_buffer].
  rewrite (proj1 (proj2 (proj2 LC))). cbn [Nat.leb].
  destruct (loaded_refill pC text d1 rc c eof Hn H1 LC)
    as (pE & RE & EE & Hr & Hin & Hu & Ho & Hd & He & Hf).
  rewrite RE. rewrite EC in EE.
  assert (Lb : List.length (write_at (repeat 0%Z rc) 0 text) = rc).
  { rewrite write_at_length; rewrite repeat_length; [reflexivity | cbn; lia]. }
  destruct (decode_pass_utf8 text (S fuel) pE EE (ascii_admissible text A))
    as (pF & DF & VF & UF & OF & PF & (_ & WF1 & WF2) & LF & EF & SF & IF & NF
        & CF).
  { rewrite Hr. unfold Buf.wf.
    cbn [Buf.pointer Buf.length Buf.capacity Buf.buffer]. lia. }
  { rewrite Hin. unfold Buf.wf. cbn. rewrite repeat_length. lia. }
  { rewrite Hr, (ascii_octets text A). unfold Buf.unconsumed.
    cbn [Buf.length Buf.pointer Buf.buffer skipn].
    rewrite Nat.sub_0_r. unfold write_at. cbn [firstn app Nat.add].
    rewrite firstn_app, Nat.sub_diag, firstn_all. cbn [firstn].
    apply app_nil_r. }
  { rewrite Hin, (ascii_octets text A). cbn. lia. }
  { lia. }
  rewrite (ascii_octets text A) in VF, OF, LF.
  rewrite Hin in VF, LF, IF, CF. cbn in VF, LF, IF, CF.
  rewrite DF, EF, Hf. unfold put_nul.
  destruct (put_spec (input pF) 0%Z) as (b' & Pb & Vb & Lb' & Ptb & Cb & Bb);
    [lia | exact WF2 | lia |].
  rewrite Pb. eexists. split; [reflexivity|].
  cbn [encoding input unread offset error set_unread set_input finished
         is_eof raw_input].
  split; [congruence|]. split; [rewrite Vb, VF; reflexivity|].
  split; [congruence|]. split; [lia|]. split; [lia|].
  split; [split; cbn [is_eof raw_input set_unread set_input];
          [congruence | exact PF]|].
  destruct SF as (S1 & _). congruence.
Qed.

(** ** The cursors of the raw buffer *)

(** The raw buffer of [p'] has its cursors in order and the capacity it
    had in [p]. *)
Local Abbreviation bounded p p' :=
  (Buf.wf (raw_input p')
   /\ Buf.capacity (raw_input p') = Buf.capacity (raw_input p)).

Lemma ends_bounded_step p p1 (o : outcome R) :
  bounded p p1 ->
  ends (fun x => bounded p1 x) (fun x => bounded p1 x) o ->
  ends (fun x => bounded p x) (fun x => bounded p x) o.
Proof.
  intros [_ C1]. destruct o as [x|x| |]; cbn [ends]; try exact (fun i => i);
    intros [W C]; (split; [exact W | congruence]).
Qed.

Lemma update_raw_buffer_bounded p :
  Buf.wf (raw_input p) ->
  ends (fun x => bounded p x) (fun x => bounded p x)
    (yaml_parser_update_raw_buffer reader p).
Proof.
  unfold yaml_parser_update_raw_buffer, Buf.wf.
  destruct p as [d [rb rp rl rc] inp un enc off eof er pr po pv].
  cbn [raw_input Buf.pointer Buf.length Buf.capacity Buf.buffer is_eof
         reader_data offset set_raw_input Buf.set_pointer Buf.set_buffer
         Buf.set_length].
  intros (W1 & W2 & W3).
  destruct ((rp =? 0) && (rl =? rc)).
  { cbn. split; [split; [exact W1 | split; [exact W2 | exact W3]]|].
    reflexivity. }
  destruct eof.
  { cbn. split; [split; [exact W1 | split; [exact W2 | exact W3]]|].
    reflexivity. }
  set (rb' := if (0 <? rp) && (rp <? rl) then _ else _).
  assert (B : Buf.buffer rb' = rb
              \/ Buf.buffer rb' = memmove rb 0 rp (rl - rp)).
  { unfold rb'. destruct ((0 <? rp) && (rp <? rl)); cbn; auto. }
  assert (L : List.length (Buf.buffer rb') = rc).
  { destruct B as [-> | ->]; [exact W3|]. now rewrite memmove_length. }
  assert (E : Buf.length rb' = rl /\ Buf.capacity rb' = rc).
  { unfold rb'. destruct ((0 <? rp) && (rp <? rl)); cbn; auto. }
  destruct E as [E1 E2]. clear B. clearbody rb'.
  destruct rb' as [b1 p1 l1 c1].
  cbn [Buf.pointer Buf.length Buf.capacity Buf.buffer] in *. subst l1 c1.
  destruct (reader d (rc - rl)) as [[bs d']|].
  - destruct (Nat.ltb_spec (rc - rl) (List.length bs)); [exact I|].
    destruct (List.length bs =? 0);
      cbn [ends raw_input set_is_eof set_raw_input set_reader_data
             Buf.pointer Buf.length Buf.capacity Buf.buffer
             Buf.set_length Buf.set_buffer Buf.set_pointer];
      (split; [|reflexivity]);
      (split; [lia | split; [lia|]]);
      rewrite write_at_length; lia.
  - cbn [ends READER_ERROR_INIT raw_input set_raw_input Buf.pointer
           Buf.length Buf.capacity Buf.buffer Buf.set_pointer].
    split; [|reflexivity]. split; [lia | split; [exact W2 | exact L]].
Qed.

Lemma decode_raw_buffer_bounded fuel :
  forall p,
    Buf.wf (raw_input p) ->
    ends (fun x => bounded p x) (fun x => bounded p x)
      (decode_raw_buffer fuel p).
Proof.
  induction fuel as [|fuel IH]; intros p W; cbn [decode_raw_buffer];
    destruct (Buf.pointer (raw_input p) =? Buf.length (raw_input p));
    cbn [ends]; try exact I; try (split; [exact W | reflexivity]).
  pose proof (decode_round_kept p) as K.
  destruct (decode_round p) as [p1|p1|q|]; cbn [ends]; try exact I.
  - destruct K as (_ & w & Hw & Hr & _ & _ & _ & _ & Kr).
    assert (B1 : bounded p p1).
    { rewrite Kr. destruct W as (W1 & W2 & W3).
      unfold Buf.wf, raw_unread in *.
      cbn [Buf.set_pointer Buf.pointer Buf.length Buf.capacity Buf.buffer].
      split; [split; [lia | split; [exact W2 | exact W3]] | reflexivity]. }
    apply (ends_bounded_step p p1 _ B1). apply IH. exact (proj1 B1).
  - destruct K as (-> & _). split; [exact W | reflexivity].
  - destruct K as (msg & off & v & -> & _).
    cbn [DECODER_ERROR_INIT raw_input]. split; [exact W | reflexivity].
Qed.

Lemma determine_encoding_fill_bounded fuel :
  forall p,
    Buf.wf (raw_input p) ->
    ends (fun x => bounded p x) (fun x => bounded p x)
      (determine_encoding_fill reader fuel p).
Proof.
  induction fuel as [|fuel IH]; intros p W; cbn [determine_encoding_fill];
    destruct (negb (is_eof p) && _); cbn [ends]; try exact I;
    try (split; [exact W | reflexivity]).
  pose proof (update_raw_buffer_bounded p W) as K.
  destruct (yaml_parser_update_raw_buffer reader p) as [p1|q| |];
    cbn [ends] in K |- *; try exact I; [|exact K].
  apply (ends_bounded_step p p1 _ K). apply IH. exact (proj1 K).
Qed.

Lemma determine_encoding_bounded fuel p :
  Buf.wf (raw_input p) ->
  ends (fun x => bounded p x) (fun x => bounded p x)
    (yaml_parser_determine_encoding reader fuel p).
Proof.
  intros W.
  pose proof (determine_encoding_inv fuel p) as KW.
  pose proof (determine_encoding_capacity fuel p) as KC.
  pose proof (determine_encoding_fill_bounded fuel p W) as KF.
  unfold yaml_parser_determine_encoding in *.
  destruct (determine_encoding_fill reader fuel p) as [p1|q| |];
    cbn [ends] in KF |- *; try exact I; [|exact KF].
  split; [exact (proj1 (KW _ eq_refl W)) | exact (KC _ eq_refl)].
Qed.

Lemma move_unread_raw p : raw_input (move_unread p) = raw_input p.
Proof.
  unfold move_unread.
  destruct (_ && _); [reflexivity|]. now destruct (_ =? _).
Qed.

Lemma fill_buffer_bounded len fuel :
  forall p,
    Buf.wf (raw_input p) ->
    ends (fun x => bounded p x) (fun x => bounded p x)
      (fill_buffer reader fuel len p).
Proof.
  induction fuel as [|fuel IH]; intros p W; cbn [fill_buffer];
    destruct (len <=? unread p); cbn [ends]; try exact I;
    try (split; [exact W | reflexivity]).
  pose proof (update_raw_buffer_bounded p W) as K.
  destruct (yaml_parser_update_raw_buffer reader p) as [p1|q| |];
    cbn [ends] in K |- *; try exact I; [|exact K].
  apply (ends_bounded_step p p1 _ K).
  pose proof (decode_raw_buffer_bounded (S fuel) p1 (proj1 K)) as D.
  destruct (decode_raw_buffer (S fuel) p1) as [p2|q| |];
    cbn [ends] in D |- *; try exact I; [|exact D].
  apply (ends_bounded_step p1 p2 _ D).
  destruct (is_eof p2).
  - unfold put_nul. destruct (put (input p2) 0); cbn [ends]; [|exact I].
    cbn [raw_input set_unread set_input].
    split; [exact (proj1 D) | reflexivity].
  - apply IH. exact (proj1 D).
Qed.

(** X15.  A call keeps the cursors of the raw buffer in order.  When
    [pointer <= length <= capacity] holds on the raw buffer before a call,
    it holds after it, whether the call returns 1 or 0, with the capacity
    as it was: the decoders never move the pointer past the length, a byte
    order mark is skipped only when its octets are there, and the refill
    asks for no more than the free room.  (The read handler is taken to
    store no more than it is asked for, and nothing is said of a call that
    stores past the text buffer, whose capacity the source does not
    test.) *)
Theorem raw_buffer_in_bounds fuel len p p' :
  Buf.wf (raw_input p) ->
  yaml_parser_update_buffer reader fuel len p = Ok p'
  \/ yaml_parser_update_buffer reader fuel len p = Fail p' ->
  Buf.wf (raw_input p')
  /\ Buf.capacity (raw_input p') = Buf.capacity (raw_input p).
Proof.
  intros W H.
  assert (E : ends (fun x => bounded p x) (fun x => bounded p x)
                (yaml_parser_update_buffer reader fuel len p)).
  { unfold yaml_parser_update_buffer.
    destruct (is_eof p && _); [split; [exact W | reflexivity]|].
    destruct (len <=? unread p); [split; [exact W | reflexivity]|].
    assert (D : ends (fun x => bounded p x) (fun x => bounded p x)
                  match encoding p with
                  | YAML_ANY_ENCODING =>
                      yaml_parser_determine_encoding reader fuel p
                  | _ => Ok p
                  end).
    { destruct (encoding p); try (split; [exact W | reflexivity]).
      now apply determine_encoding_bounded. }
    destruct (match encoding p with
              | YAML_ANY_ENCODING => _
              | _ => _
              end) as [p1|q| |]; cbn [ends] in D |- *; try exact I;
      [|exact D].
    apply (ends_bounded_step p (move_unread p1)).
    { now rewrite move_unread_raw. }
    apply fill_buffer_bounded. rewrite move_unread_raw. exact (proj1 D). }
  destruct H as [H|H]; rewrite H in E; exact E.
Qed.

End Properties.

(** ** Instances *)

Ltac raw_octets :=
  unfold octets; cbv -[Z.le Z.lt];
  repeat (constructor; [lia|]); constructor.

(** The overlong sequence [C0 80] (the value 0 on two octets). *)
Lemma utf8_rejections_witness :
  let p := parser_at YAML_UTF8_ENCODING [0xC0; 0x80]%Z 0 false [] in
  encoding p = YAML_UTF8_ENCODING
  /\ octets (Buf.buffer (raw_input p))
  /\ overlong (utf8_lead_width (raw_at p 0))
       (utf8_scalar (raw_at p) (utf8_lead_width (raw_at p 0)))
  /\ decode_round p
     = Return0 (DECODER_ERROR_INIT p "Invalid length of a UTF-8 sequence"
                  0 (-1)).
Proof.
  intros p.
  assert (Ho : octets (Buf.buffer (raw_input p))) by raw_octets.
  assert (Hl : overlong (utf8_lead_width (raw_at p 0))
                 (utf8_scalar (raw_at p) (utf8_lead_width (raw_at p 0))))
    by (left; split; reflexivity).
  split; [reflexivity|]. split; [exact Ho|]. split; [exact Hl|].
  destruct (utf8_rejections _ p eq_refl Ho) as [_ H].
  apply H.
  - discriminate.
  - vm_compute. repeat constructor.
  - intros k Hk. assert (k = 1) as -> by (vm_compute in Hk; lia).
    reflexivity.
  - exact Hl.
Defined.

(** The pair [D83D DE00] in little-endian order: U+1F600. *)
Lemma utf16_decoding_witness :
  let p := parser_at YAML_UTF16LE_ENCODING [0x3D; 0xD8; 0x00; 0xDE]%Z 0
             false [] in
  octets (Buf.buffer (raw_input p))
  /\ 4 <= raw_unread p
  /\ utf16_unit true (raw_at p) 0 = 0xD83D%Z
  /\ utf16_unit true (raw_at p) 2 = 0xDE00%Z
  /\ decode_char p = Decoded 0x1F600 4.
Proof.
  intros p.
  assert (Ho : octets (Buf.buffer (raw_input p))) by raw_octets.
  assert (H4 : 4 <= raw_unread p) by (vm_compute; repeat constructor).
  assert (H2 : 2 <= raw_unread p) by (vm_compute; repeat constructor).
  split; [exact Ho|]. split; [exact H4|].
  split; [reflexivity|]. split; [reflexivity|].
  destruct (utf16_decoding _ p true eq_refl Ho H2) as (_ & H & _).
  destruct H as (_ & _ & H); [vm_compute; split; discriminate|].
  apply H; [exact H4 | vm_compute; split; discriminate].
Defined.

(** A stream that opens with the mark [FF FE]. *)
Lemma encoding_detection_witness :
  let p := yaml_parser_new [0xFF; 0xFE; 0x41; 0x00]%Z 8 8 in
  exists p',
    yaml_parser_determine_encoding (chunk_reader 8) 3 p = Ok p'
    /\ starts_with BOM_UTF16LE (Buf.valid (raw_input p'))
    /\ encoding p' = YAML_UTF16LE_ENCODING
    /\ Buf.pointer (raw_input p') = 2 /\ offset p' = 2.
Proof.
  intros p.
  destruct (encoding_detection _ (chunk_reader 8) p 3 eq_refl eq_refl eq_refl
              eq_refl) as [_ H].
  - vm_compute. repeat constructor.
  - repeat constructor.
  - eexists. split; [vm_compute; reflexivity|].
    match goal with
    | |- starts_with _ (Buf.valid (raw_input ?t)) /\ _ =>
        assert (E : yaml_parser_determine_encoding (chunk_reader 8) 3 p
                    = Ok t) by (vm_compute; reflexivity);
        assert (S : starts_with BOM_UTF16LE (Buf.valid (raw_input t)))
          by (exists [0x41; 0x00]%Z; reflexivity)
    end.
    split; [exact S|].
    exact (proj1 (proj2 (proj2 (proj2 (H _ E)))) S).
Defined.

(** A raw NUL on a UTF-8 stream. *)
Lemma admissibility_gate_witness :
  let p := parser_at YAML_UTF8_ENCODING [0x00]%Z 0 false [] in
  decode_char p = Decoded 0 1
  /\ decode_round p
     = Return0 (DECODER_ERROR_INIT p "Control characters are not allowed"
                  0 0).
Proof.
  intros p. split; [reflexivity|].
  apply (proj2 (admissibility_gate _ p 0%Z 1 eq_refl)).
  unfold admissible. lia.
Defined.

(** The two octets [C3 A9] of U+00E9. *)
Lemma decoded_character_stored_witness :
  let p := parser_at YAML_UTF8_ENCODING [0xC3; 0xA9]%Z 0 false [] in
  decode_char p = Decoded 0xE9 2
  /\ admissible 0xE9
  /\ exists p',
      decode_round p = Continue p'
      /\ Buf.pointer (raw_input p') = 2 /\ offset p' = 2
      /\ Buf.valid (input p') = [0xC3; 0xA9]%Z
      /\ unread p' = 1.
Proof.
  intros p.
  assert (A : admissible 0xE9) by (unfold admissible; lia).
  split; [reflexivity|]. split; [exact A|].
  destruct (decoded_character_stored _ p 0xE9%Z 2 eq_refl A eq_refl)
    as (p' & E & P & O & V & _ & _ & U & _).
  - vm_compute. repeat constructor.
  - exists p'. split; [exact E|]. split; [exact P|]. split; [exact O|].
    split; [exact V | exact U].
Defined.

(** The octet [FF] leads no UTF-8 sequence. *)
Lemma decoder_error_keeps_position_witness :
  let p := parser_at YAML_UTF8_ENCODING [0x41; 0xFF]%Z 1 false [] in
  let q := DECODER_ERROR_INIT p "Invalid leading UTF-8 octet" 1 0xFF in
  decode_round p = Return0 q
  /\ Buf.pointer (raw_input q) = 1 /\ offset q = 1
  /\ input q = input p /\ unread q = 0.
Proof.
  intros p q.
  destruct (decoder_error_keeps_position _ p q eq_refl)
    as (P & O & _ & I & U & _).
  split; [reflexivity|]. split; [exact P|]. split; [exact O|].
  split; [exact I | exact U].
Defined.

(** The stream "A", read to its end. *)
Lemma sentinel_once_witness :
  let p := yaml_parser_new [0x41]%Z 8 8 in
  exists p',
    yaml_parser_update_buffer (chunk_reader 8) 9 1 p = Ok p'
    /\ lifetime (chunk_reader 8) p'
    /\ Buf.valid (input p') = [0x41; 0]%Z
    /\ sentinels p' = 1
    /\ forall fuel len,
        yaml_parser_update_buffer (chunk_reader 8) fuel len p' = Ok p'.
Proof.
  intros p. eexists.
  split; [vm_compute; reflexivity|].
  match goal with
  | |- lifetime _ ?s /\ _ =>
      assert (L : lifetime (chunk_reader 8) s)
  end.
  { apply (lifetime_update (reader := chunk_reader 8) (p := p) 9 1).
    - apply lifetime_new.
    - vm_compute. reflexivity. }
  split; [exact L|]. split; [reflexivity|].
  destruct (sentinel_once _ _ _ L) as [S F].
  split; [exact S|]. exact (proj2 (proj2 (F eq_refl))).
Defined.

(** The stream "AB", asked for one character. *)
Lemma update_buffer_contract_witness :
  let p := yaml_parser_new [0x41; 0x42]%Z 8 8 in
  exists p',
    yaml_parser_update_buffer (chunk_reader 8) 10 1 p = Ok p'
    /\ (1 <= unread p' \/ finished p').
Proof.
  intros p. eexists. split; [vm_compute; reflexivity|].
  match goal with
  | |- _ <= unread ?t \/ _ =>
      apply (update_buffer_contract _ (chunk_reader 8) 10 1 p t)
  end.
  vm_compute. reflexivity.
Defined.

(** The stream "A" returns 1 and leaves no report; the stream [41 FF]
    returns 0 with a decoder error at offset 1. *)
Lemma update_buffer_report_witness :
  let p := yaml_parser_new [0x41]%Z 8 8 in
  let f := yaml_parser_new [0x41; 0xFF]%Z 8 8 in
  (exists p',
      yaml_parser_update_buffer (chunk_reader 8) 10 1 p = Ok p'
      /\ same_report p p')
  /\ (exists q,
         yaml_parser_update_buffer (chunk_reader 8) 10 1 f = Fail q
         /\ reported q).
Proof.
  intros p f. split.
  - eexists. split; [vm_compute; reflexivity|].
    match goal with
    | |- same_report _ ?t =>
        apply (proj1 (update_buffer_report _ (chunk_reader 8) 10 1 p) t)
    end.
    vm_compute. reflexivity.
  - eexists. split; [vm_compute; reflexivity|].
    match goal with
    | |- reported ?t =>
        apply (proj2 (update_buffer_report _ (chunk_reader 8) 10 1 f) t)
    end.
    vm_compute. reflexivity.
Defined.

(** After EOF, with "A" still in the raw buffer. *)
Lemma update_buffer_after_eof_witness :
  let p := parser_at YAML_UTF8_ENCODING [0x41]%Z 0 true [0x42]%Z in
  exists p',
    yaml_parser_update_buffer (chunk_reader 8) 10 2 p = Ok p'
    /\ is_eof p' = true /\ reader_data p' = reader_data p.
Proof.
  intros p. eexists. split; [vm_compute; reflexivity|].
  match goal with
  | |- is_eof ?t = _ /\ _ =>
      apply (update_buffer_after_eof _ (chunk_reader 8) 10 2 p t eq_refl)
  end.
  left. vm_compute. reflexivity.
Defined.

(** A UTF-16 stream (little endian) with "A" in the raw buffer and "B"
    with the source. *)
Lemma update_buffer_keeps_encoding_witness :
  let p := parser_at YAML_UTF16LE_ENCODING [0x41; 0x00]%Z 0 false
             [0x42; 0x00]%Z in
  exists p',
    yaml_parser_update_buffer (chunk_reader 8) 10 2 p = Ok p'
    /\ encoding p' = YAML_UTF16LE_ENCODING /\ offset p <= offset p'.
Proof.
  intros p. eexists. split; [vm_compute; reflexivity|].
  match goal with
  | |- encoding ?t = _ /\ _ =>
      apply (update_buffer_keeps_encoding _ (chunk_reader 8) 10 2 p t)
  end.
  - discriminate.
  - left. vm_compute. reflexivity.
Defined.

(** "ABC" with two octets consumed, and "D" with the source: the refill
    leaves C, B, C, D unconsumed. *)
Lemma update_raw_buffer_region_witness :
  let p := parser_at YAML_UTF8_ENCODING [0x41; 0x42; 0x43]%Z 2 false
             [0x44]%Z in
  exists p',
    yaml_parser_update_raw_buffer (chunk_reader 8) p = Ok p'
    /\ Buf.unconsumed (raw_input p') = [0x43; 0x42; 0x43; 0x44]%Z.
Proof.
  intros p. eexists. split; [vm_compute; reflexivity|].
  match goal with
  | |- Buf.unconsumed (raw_input ?t) = _ =>
      destruct (update_raw_buffer_region _ (chunk_reader 8) p t)
        as (bs & Rd & _ & _ & U)
  end.
  - unfold Buf.wf. cbn. lia.
  - reflexivity.
  - cbn. lia.
  - vm_compute. reflexivity.
  - rewrite U. cbn in Rd. injection Rd as <-. reflexivity.
Defined.

(** A text buffer "ABC" with "A" read. *)
Lemma move_unread_region_witness :
  let p := mk_parser ([] : list Z)
             (Buf.mk (repeat 0%Z 8) 0 0 8)
             (Buf.mk ([0x41; 0x42; 0x43] ++ repeat 0 5)%Z 1 3 8)
             2 YAML_UTF8_ENCODING 3 false YAML_NO_ERROR EmptyString 0 0%Z in
  Buf.unconsumed (input (move_unread p)) = [0x42; 0x43]%Z
  /\ Buf.pointer (input (move_unread p)) = 0.
Proof.
  intros p.
  destruct (move_unread_region _ p) as (U & _ & P & _).
  - unfold Buf.wf. cbn. lia.
  - split; [exact U | apply P; cbn; lia].
Defined.

(** The two octets [C3 A9] of U+00E9. *)
Lemma decoded_is_canonical_witness :
  let p := parser_at YAML_UTF8_ENCODING [0xC3; 0xA9]%Z 0 false [] in
  decode_char p = Decoded 0xE9 2
  /\ scalar_value 0xE9
  /\ consumed_octets p 2 = utf8_octets 0xE9.
Proof.
  intros p. split; [reflexivity|].
  destruct (decoded_is_canonical _ p 0xE9%Z 2) as (S & _ & _ & C).
  - unfold Buf.wf. cbn. lia.
  - raw_octets.
  - discriminate.
  - reflexivity.
  - split; [exact S | exact C].
Defined.

(** U+20AC, three octets. *)
Lemma utf8_round_trip_witness :
  exists b',
    put_char (Buf.mk (repeat 0%Z 8) 0 0 8) 0x20AC = Some b'
    /\ decode_utf8 (fun k => nth k (Buf.buffer b') 0%Z) 3 false 0
       = Decoded 0x20AC 3.
Proof.
  destruct (utf8_round_trip (Buf.mk (repeat 0%Z 8) 0 0 8) 0x20AC%Z 3 false 0)
    as (b' & P & _ & D).
  - unfold scalar_value. lia.
  - reflexivity.
  - cbn. lia.
  - cbn. lia.
  - exists b'. split; [exact P | exact D].
Defined.

(** U+1F600 in little-endian order: the pair D83D DE00. *)
Lemma utf16_round_trip_witness :
  utf16_octets true 0x1F600 = [0x3D; 0xD8; 0x00; 0xDE]%Z
  /\ decode_utf16 true (octet_at [0x3D; 0xD8; 0x00; 0xDE]%Z) 4 false 0
     = Decoded 0x1F600 4.
Proof.
  split; [reflexivity|].
  apply (utf16_round_trip true (octet_at [0x3D; 0xD8; 0x00; 0xDE]%Z) 4 false
           0 0x1F600%Z).
  - unfold scalar_value. lia.
  - intros k _. reflexivity.
  - cbn. lia.
Defined.

(** The two octets [C3 A9] again, through a whole round. *)
Lemma utf8_stream_verbatim_witness :
  let p := parser_at YAML_UTF8_ENCODING [0xC3; 0xA9]%Z 0 false [] in
  exists p' w,
    decode_round p = Continue p'
    /\ 1 <= w <= 4
    /\ Buf.pointer (raw_input p') = Buf.pointer (raw_input p) + w
    /\ Buf.valid (input p') = Buf.valid (input p) ++ consumed_octets p w.
Proof.
  intros p. eexists.
  match goal with
  | |- exists w, _ = Continue ?t /\ _ =>
      destruct (utf8_stream_verbatim _ p t eq_refl) as (w & H)
  end.
  - unfold Buf.wf. cbn. lia.
  - raw_octets.
  - unfold Buf.wf. cbn. lia.
  - vm_compute. reflexivity.
  - exists w. split; [vm_compute; reflexivity | exact H].
Defined.

(** A raw buffer of 8 octets: 27 rounds of fuel. *)
Lemma update_buffer_ends_witness :
  yaml_parser_update_buffer (chunk_reader 8) 27 1
    (yaml_parser_new [0x41]%Z 8 8) <> Timeout.
Proof.
  apply (update_buffer_ends _ (chunk_reader 8) 27 1
           (yaml_parser_new [0x41]%Z 8 8)).
  - unfold Buf.wf. cbn. lia.
  - cbn. lia.
  - cbn. lia.
Defined.


(** "A" and U+00E9: three octets, two characters. *)
Lemma utf8_pass_through_witness :
  let p := parser_at YAML_UTF8_ENCODING [0x41; 0xC3; 0xA9]%Z 0 false [] in
  exists p',
    decode_raw_buffer 2 p = Ok p'
    /\ Buf.valid (input p') = [0x41; 0xC3; 0xA9]%Z
    /\ unread p' = 2 /\ offset p' = 3.
Proof.
  intros p.
  destruct (utf8_pass_through _ [0x41; 0xE9]%Z 2 p eq_refl)
    as (p' & D & V & U & O & _).
  - repeat constructor; unfold admissible; lia.
  - unfold Buf.wf. cbn. lia.
  - unfold Buf.wf. cbn. lia.
  - reflexivity.
  - cbn. lia.
  - cbn. lia.
  - exists p'. split; [exact D|]. split; [exact V|].
    split; [exact U | exact O].
Defined.

(** The stream "AB", delivered whole. *)
Lemma ascii_stream_whole_witness :
  exists p',
    yaml_parser_update_buffer (chunk_reader 8) 2 1
      (yaml_parser_new [0x41; 0x42]%Z 8 8) = Ok p'
    /\ Buf.valid (input p') = [0x41; 0x42; 0]%Z
    /\ unread p' = 3 /\ finished p'.
Proof.
  destruct (ascii_stream_whole _ (chunk_reader 8) [0x41; 0x42]%Z [] 
              [0x41; 0x42]%Z 8 8 2 1)
    as (p' & E & _ & V & _ & U & _ & F & _).
  - repeat constructor; unfold admissible; lia.
  - cbn. lia.
  - lia.
  - cbn. lia.
  - lia.
  - cbn. lia.
  - lia.
  - reflexivity.
  - intros size. unfold chunk_reader. now rewrite firstn_nil, skipn_nil.
  - exists p'. split; [exact E|]. split; [exact V|].
    split; [exact U | exact F].
Defined.

(** "ABC" with two octets consumed and "D" with the source, asked for two
    characters. *)
Lemma raw_buffer_in_bounds_witness :
  let p := parser_at YAML_UTF8_ENCODING [0x41; 0x42; 0x43]%Z 2 false
             [0x44]%Z in
  exists p',
    yaml_parser_update_buffer (chunk_reader 8) 10 2 p = Ok p'
    /\ Buf.wf (raw_input p')
    /\ Buf.capacity (raw_input p') = 8.
Proof.
  intros p. eexists. split; [vm_compute; reflexivity|].
  match goal with
  | |- Buf.wf (raw_input ?t) /\ _ =>
      apply (raw_buffer_in_bounds _ (chunk_reader 8) 10 2 p t)
  end.
  - unfold Buf.wf. cbn. lia.
  - left. vm_compute. reflexivity.
Defined.
